(** * ppt_translator: a shallow embedding of the page pipeline

    The first part follows the Python sources module by module:
    - [pdf_generator.natural_sort_key] and Python's [sorted];
    - [qwen_vl_utils.smart_resize];
    - [qwen_utils]: [parse_json], [translateWithAPI],
      [plot_text_bounding_boxes], [inference_with_api], [main],
      [batch_process_images];
    - [pdf_utils.convert_pdf_to_images], [pdf_generator.images_to_pdf];
    - [main.py]: [check_environment] and the command-line entry point.
    The second part holds the vocabulary of the properties and the concrete
    environments they are run in, the third runs the model on concrete
    inputs, the fourth states and proves the properties.

    Conventions of the embedding.
    - A Python [str] is a [string] whose characters are the code points
      U+0000..U+00FF (one [ascii] per code point); the character classes of
      [re] and [str] are written out for that range.
    - Python [int] is [Z]; Python [float] is an IEEE binary64 [spec_float].
      [int] on a text keeps the interpreter's default limit of 4300 digits.
    - A call that can raise returns a [result]; stateful code threads a
      [world] through the [M] monad.  Only subclasses of [Exception] are
      raised in the model; [sys.exit] is a separate outcome.
    - What is written to the terminal is left out.  [display(Markdown(...))]
      is kept as a step that can raise: IPython reads a text that starts
      with [http] as an address and a text that names a file as that file.
    - [os.makedirs] refuses the empty path; [open] reads a file of any
      kind. *)

From Stdlib Require Import ZArith Ascii String List Lia Bool.
From Stdlib Require Import Sorting.Sorted Sorting.Permutation.
From Stdlib Require Import Floats.SpecFloat Numbers.DecimalString Numbers.DecimalNat.
From stdpp Require Import base strings list gmap.
Import ListNotations.

Local Open Scope Z_scope.
Local Open Scope string_scope.

(** ** Exceptions and results *)

Inductive exn : Type :=
| NameError (name : string)
| UnboundLocalError (name : string)
| ValueError
| TypeError
| KeyError
| IndexError
| AttributeError
| ZeroDivisionError
| OverflowError
| OSError
| JSONDecodeError
| SyntaxError
| RecursionError
| RemoteError.

(** [except OSError] and [except json.JSONDecodeError] select by class;
    [except Exception] and a bare [except] take every [exn]. *)
Definition is_OSError (e : exn) : bool :=
  match e with OSError => true | _ => false end.

Definition is_JSONDecodeError (e : exn) : bool :=
  match e with JSONDecodeError => true | _ => false end.

Inductive result (A : Type) : Type :=
| Ok (a : A)
| Raise (e : exn).
Arguments Ok {A} a.
Arguments Raise {A} e.

Definition rbind {A B} (r : result A) (k : A -> result B) : result B :=
  match r with
  | Ok a => k a
  | Raise e => Raise e
  end.

Declare Scope result_scope.
Delimit Scope result_scope with res.
Notation "x <- r ;; k" := (rbind r (fun x => k))
  (at level 100, r at next level, right associativity) : result_scope.

Fixpoint rmap {A B} (f : A -> result B) (l : list A) : result (list B) :=
  match l with
  | [] => Ok []
  | x :: l' =>
      (y <- f x ;;
       ys <- rmap f l' ;;
       Ok (y :: ys))%res
  end.

Definition is_Ok {A} (r : result A) : bool :=
  match r with Ok _ => true | Raise _ => false end.

(** ** Characters and strings *)

Module Char.

Definition code (c : ascii) : N := N_of_ascii c.

(** [\d] of [re] on [str] patterns: Unicode category Nd. *)
Definition re_digit (c : ascii) : bool :=
  ((48 <=? code c) && (code c <=? 57))%N.

(** The characters [str.isdigit] accepts: the decimal digits and the
    superscripts U+00B2, U+00B3 and U+00B9. *)
Definition isdigit (c : ascii) : bool :=
  re_digit c || (code c =? 178)%N || (code c =? 179)%N || (code c =? 185)%N.

Definition digit_value (c : ascii) : Z := Z.of_N (code c) - 48.

(** [str.isspace], which is also [\s] of [re] and what [int] and
    [str.strip] skip. *)
Definition isspace (c : ascii) : bool :=
  let n := code c in
  (((9 <=? n) && (n <=? 13)) || ((28 <=? n) && (n <=? 32))
   || (n =? 133) || (n =? 160))%N.

(** Line boundaries of [str.splitlines], apart from the pair CR LF. *)
Definition is_linebreak (c : ascii) : bool :=
  let n := code c in
  (((10 <=? n) && (n <=? 13)) || ((28 <=? n) && (n <=? 30)) || (n =? 133))%N.

Definition lower (c : ascii) : ascii :=
  let n := code c in
  if (((65 <=? n) && (n <=? 90))
      || ((192 <=? n) && (n <=? 222) && negb (n =? 215)))%N
  then ascii_of_N (n + 32)
  else c.

Definition ltb (a b : ascii) : bool := (code a <? code b)%N.

End Char.

Module Str.

Definition cr : ascii := "013"%char.
Definition lf : ascii := "010"%char.
Definition nl : string := String lf "".

Fixpoint all (p : ascii -> bool) (s : string) : bool :=
  match s with
  | "" => true
  | String c s' => p c && all p s'
  end.

Fixpoint map (f : ascii -> ascii) (s : string) : string :=
  match s with
  | "" => ""
  | String c s' => String (f c) (map f s')
  end.

(** [s.lower()] *)
Definition lower (s : string) : string := map Char.lower s.

(** [s.isdigit()]: at least one character, all of them digits. *)
Definition isdigit (s : string) : bool :=
  match s with
  | "" => false
  | _ => all Char.isdigit s
  end.

(** [a < b] on [str]: lexicographic on code points. *)
Fixpoint ltb (a b : string) : bool :=
  match a, b with
  | "", "" => false
  | "", String _ _ => true
  | String _ _, "" => false
  | String x a', String y b' =>
      if Char.ltb x y then true
      else if Char.ltb y x then false
      else ltb a' b'
  end.

Fixpoint rev_onto (s acc : string) : string :=
  match s with
  | "" => acc
  | String c s' => rev_onto s' (String c acc)
  end.

Definition rev (s : string) : string := rev_onto s "".

Fixpoint lstrip (s : string) : string :=
  match s with
  | String c s' => if Char.isspace c then lstrip s' else s
  | "" => ""
  end.

(** [s.strip()] *)
Definition strip (s : string) : string := rev (lstrip (rev (lstrip s))).

(** [s.startswith(p)] together with the rest of [s] after [p]. *)
Fixpoint strip_prefix (p s : string) : option string :=
  match p, s with
  | "", _ => Some s
  | String a p', String b s' =>
      if Ascii.eqb a b then strip_prefix p' s' else None
  | String _ _, "" => None
  end.

(** [sep in s] *)
Fixpoint contains (sep s : string) : bool :=
  match strip_prefix sep s with
  | Some _ => true
  | None => match s with
            | "" => false
            | String _ s' => contains sep s'
            end
  end.

(** [s.split(sep)[0]]: the part of [s] before the first [sep]. *)
Fixpoint before_first (sep s : string) : string :=
  match strip_prefix sep s with
  | Some _ => ""
  | None => match s with
            | "" => ""
            | String c s' => String c (before_first sep s')
            end
  end.

(** [s.replace(':=', ':')] *)
Fixpoint replace_colon_eq (s : string) : string :=
  match s with
  | String c s' =>
      if Ascii.eqb c ":" then
        match s' with
        | String d s'' =>
            if Ascii.eqb d "=" then String ":" (replace_colon_eq s'')
            else String c (replace_colon_eq s')
        | "" => String c ""
        end
      else String c (replace_colon_eq s')
  | "" => ""
  end.

(** [sep.join(parts)] *)
Fixpoint join (sep : string) (parts : list string) : string :=
  match parts with
  | [] => ""
  | [p] => p
  | p :: rest => p ++ sep ++ join sep rest
  end.

(** [s.splitlines()] *)
Fixpoint splitlines (s : string) : list string :=
  match s with
  | "" => []
  | String c s' =>
      if Char.is_linebreak c then
        "" :: (if Ascii.eqb c cr then
                 match s' with
                 | String d s'' =>
                     if Ascii.eqb d lf then splitlines s'' else splitlines s'
                 | "" => []
                 end
               else splitlines s')
      else
        match splitlines s' with
        | [] => [String c ""]
        | l :: ls => String c l :: ls
        end
  end.

End Str.

(** ** Python [int(s)] on a [str]

    Surrounding white space is skipped, one sign is allowed, and the digits
    must be decimal digits, optionally grouped by single underscores.  A
    text with more digits than the interpreter's limit is refused. *)

(** [sys.get_int_max_str_digits()]: the default, which the program never
    changes. *)
Definition int_max_str_digits : Z := 4300.

(** The digits of a text, the underscores between them not counted. *)
Fixpoint count_digits (s : string) : nat :=
  match s with
  | "" => O
  | String c s' => if Char.re_digit c then S (count_digits s') else count_digits s'
  end.

Fixpoint int_digits (acc : Z) (after_digit : bool) (s : string) : option Z :=
  match s with
  | "" => if after_digit then Some acc else None
  | String c s' =>
      if Char.re_digit c then int_digits (10 * acc + Char.digit_value c) true s'
      else if Ascii.eqb c "_" then
             if after_digit then int_digits acc false s' else None
           else None
  end.

Definition py_int (s : string) : result Z :=
  let body := Str.strip s in
  let '(negative, digits) :=
    match body with
    | String c r =>
        if Ascii.eqb c "-" then (true, r)
        else if Ascii.eqb c "+" then (false, r)
        else (false, body)
    | "" => (false, body)
    end in
  match int_digits 0 false digits with
  | Some n =>
      if (int_max_str_digits <? Z.of_nat (count_digits digits))%Z then Raise ValueError
      else Ok (if negative then - n else n)
  | None => Raise ValueError
  end.

(** ** pdf_generator.natural_sort_key *)

(** [re.split(r'(\d+)', s)]: the text before the first run of digits, then
    alternately a run of digits and the text after it. *)
Fixpoint re_split_digits (s : string) : list string :=
  match s with
  | "" => [""]
  | String c s' =>
      if Char.re_digit c then
        match re_split_digits s' with
        | "" :: d :: more => "" :: String c d :: more
        | pieces => "" :: String c "" :: pieces
        end
      else
        match re_split_digits s' with
        | t :: more => String c t :: more
        | [] => [String c ""]
        end
  end.

(** An element of a sort key: [int(text)] or [text.lower()]. *)
Inductive key_elem : Type :=
| KInt (n : Z)
| KText (t : string).

Definition key_of_piece (text : string) : result key_elem :=
  if Str.isdigit text then
    (n <- py_int text ;; Ok (KInt n))%res
  else Ok (KText (Str.lower text)).

Definition natural_sort_key (s : string) : result (list key_elem) :=
  rmap key_of_piece (re_split_digits s).

(** [a == b] and [a < b] on key elements; [<] between an [int] and a
    [str] raises [TypeError]. *)
Definition key_elem_eqb (a b : key_elem) : bool :=
  match a, b with
  | KInt m, KInt n => (m =? n)%Z
  | KText s, KText t => String.eqb s t
  | _, _ => false
  end.

Definition key_elem_lt (a b : key_elem) : result bool :=
  match a, b with
  | KInt m, KInt n => Ok (m <? n)%Z
  | KText s, KText t => Ok (Str.ltb s t)
  | _, _ => Raise TypeError
  end.

(** [a < b] on lists: the first pair of unequal elements decides; without
    one the shorter list is the smaller. *)
Fixpoint key_lt (a b : list key_elem) : result bool :=
  match a, b with
  | [], [] => Ok false
  | [], _ :: _ => Ok true
  | _ :: _, [] => Ok false
  | x :: a', y :: b' =>
      if key_elem_eqb x y then key_lt a' b' else key_elem_lt x y
  end.

(** ** [sorted(items, key=...)]

    The keys are computed first, one per item and in order; the items are
    then sorted stably with [<] on the keys. *)
Section Sorted.
Context {A K : Type} (lt : K -> K -> result bool).

Fixpoint insert_sorted (x : K * A) (l : list (K * A)) : result (list (K * A)) :=
  match l with
  | [] => Ok [x]
  | y :: l' =>
      (b <- lt (fst x) (fst y) ;;
       if b : bool then Ok (x :: y :: l')
       else (r <- insert_sorted x l' ;; Ok (y :: r)))%res
  end.

Fixpoint sort_decorated (done : list (K * A)) (todo : list (K * A))
  : result (list (K * A)) :=
  match todo with
  | [] => Ok done
  | x :: todo' =>
      (done' <- insert_sorted x done ;; sort_decorated done' todo')%res
  end.

Definition sorted (key : A -> result K) (items : list A) : result (list A) :=
  (keys <- rmap key items ;;
   r <- sort_decorated [] (combine keys items) ;;
   Ok (List.map snd r))%res.
End Sorted.

Definition sorted_natural (paths : list string) : result (list string) :=
  sorted key_lt natural_sort_key paths.

(** ** Python [float]: IEEE binary64

    Arithmetic is that of [SpecFloat] at precision 53.  [x ** 0.5] goes
    through the C library's [pow], which is not specified to the last bit,
    so it is a parameter [libm_pow_half] of every definition that uses it. *)

Module Float.

Definition prec : Z := 53.
Definition emax : Z := 1024.

Definition zero : spec_float := S754_zero false.

(** [float(n)]: the nearest double, [OverflowError] beyond the range. *)
Definition of_int (n : Z) : result spec_float :=
  match binary_normalize prec emax n 0 false with
  | S754_infinity _ => Raise OverflowError
  | f => Ok f
  end.

Definition unrounded (n : Z) : spec_float :=
  match n with
  | Z0 => zero
  | Zpos m => S754_finite false m 0
  | Zneg m => S754_finite true m 0
  end.

(** [a / b] on two [int]s: the correctly rounded quotient. *)
Definition int_truediv (a b : Z) : result spec_float :=
  if (b =? 0)%Z then Raise ZeroDivisionError
  else
    match SFdiv prec emax (unrounded a) (unrounded b) with
    | S754_infinity _ => Raise OverflowError
    | f => Ok f
    end.

(** [x / y] on two [float]s. *)
Definition truediv (x y : spec_float) : result spec_float :=
  match y with
  | S754_zero _ => Raise ZeroDivisionError
  | _ => Ok (SFdiv prec emax x y)
  end.

Definition mul (x y : spec_float) : spec_float := SFmul prec emax x y.

(** [x ** 0.5].  A negative base gives a [complex], which no later
    [int(...)] accepts: the [TypeError] of that conversion is raised here. *)
Definition pow_half (libm_pow_half : spec_float -> spec_float) (x : spec_float)
  : result spec_float :=
  match x with
  | S754_nan => Ok S754_nan
  | S754_infinity _ => Ok (S754_infinity false)
  | S754_zero _ => Ok zero
  | S754_finite false _ _ => Ok (libm_pow_half x)
  | S754_finite true _ _ => Raise TypeError
  end.

(** [int(x)]: truncation towards zero. *)
Definition to_int (x : spec_float) : result Z :=
  match x with
  | S754_nan => Raise ValueError
  | S754_infinity _ => Raise OverflowError
  | S754_zero _ => Ok 0
  | S754_finite s m e =>
      let magnitude :=
        if (0 <=? e)%Z then Z.shiftl (Zpos m) e
        else Z.shiftr (Zpos m) (- e) in
      Ok (if s then - magnitude else magnitude)
  end.

(** The correctly rounded square root, one admissible [libm_pow_half]. *)
Definition sqrt (x : spec_float) : spec_float := SFsqrt prec emax x.

End Float.

(** ** qwen_vl_utils.smart_resize *)

Section SmartResize.
Variable libm_pow_half : spec_float -> spec_float.

(** [int(dim * scale)] *)
Definition scale_dim (dim : Z) (scale : spec_float) : result Z :=
  (d <- Float.of_int dim ;; Float.to_int (Float.mul d scale))%res.

Definition smart_resize (height width min_pixels max_pixels : Z) : result (Z * Z) :=
  let current_pixels := height * width in
  if ((min_pixels <=? current_pixels) && (current_pixels <=? max_pixels))%Z then
    Ok (height, width)
  else
    (scale <-
       (if (current_pixels <? min_pixels)%Z then
          (q <- Float.int_truediv min_pixels current_pixels ;;
           Float.pow_half libm_pow_half q)
        else
          (q <- Float.int_truediv max_pixels current_pixels ;;
           Float.pow_half libm_pow_half q)) ;;
     new_height <- scale_dim height scale ;;
     new_width <- scale_dim width scale ;;
     Ok (new_height, new_width))%res.

End SmartResize.

Definition min_pixels : Z := 512 * 28 * 28.
Definition max_pixels : Z := 2048 * 28 * 28.

(** ** Python values

    What [json.loads] and [ast.literal_eval] can hand to the drawing loop.
    A [dict] is the list of its items under [str] keys, without repeated
    keys; the loop only looks up the keys ["bbox_2d"] and ["text_content"]. *)

#[local] Set Warnings "-register-all".

Inductive pyval : Type :=
| VNone
| VBool (b : bool)
| VInt (n : Z)
| VFloat (x : spec_float)
| VStr (s : string)
| VList (items : list pyval)
| VTuple (items : list pyval)
| VDict (entries : list (string * pyval)).

Module Py.

Fixpoint chars (s : string) : list pyval :=
  match s with
  | "" => []
  | String c s' => VStr (String c "") :: chars s'
  end.

(** [iter(v)], as a [for] loop consumes it. *)
Definition iterate (v : pyval) : result (list pyval) :=
  match v with
  | VList items | VTuple items => Ok items
  | VDict entries => Ok (List.map (fun e => VStr (fst e)) entries)
  | VStr s => Ok (chars s)
  | VNone | VBool _ | VInt _ | VFloat _ => Raise TypeError
  end.

Definition is_str (key : string) (v : pyval) : bool :=
  match v with
  | VStr s => String.eqb key s
  | _ => false
  end.

Fixpoint lookup (key : string) (entries : list (string * pyval)) : option pyval :=
  match entries with
  | [] => None
  | (k, v) :: rest => if String.eqb key k then Some v else lookup key rest
  end.

(** [key in v] for a [str] key. *)
Definition contains (key : string) (v : pyval) : result bool :=
  match v with
  | VDict entries =>
      Ok (match lookup key entries with Some _ => true | None => false end)
  | VStr s => Ok (Str.contains key s)
  | VList items | VTuple items => Ok (existsb (is_str key) items)
  | VNone | VBool _ | VInt _ | VFloat _ => Raise TypeError
  end.

(** [v[key]] for a [str] key. *)
Definition getitem (v : pyval) (key : string) : result pyval :=
  match v with
  | VDict entries =>
      match lookup key entries with
      | Some x => Ok x
      | None => Raise KeyError
      end
  | _ => Raise TypeError
  end.

(** [isinstance(v, list)] *)
Definition is_list (v : pyval) : bool :=
  match v with
  | VList _ => true
  | _ => false
  end.

(** [len(v)] and [v[i]] on a [list]. *)
Definition len (v : pyval) : result Z :=
  match v with
  | VList items | VTuple items => Ok (Z.of_nat (List.length items))
  | VDict entries => Ok (Z.of_nat (List.length entries))
  | VStr s => Ok (Z.of_nat (String.length s))
  | VNone | VBool _ | VInt _ | VFloat _ => Raise TypeError
  end.

Definition index (v : pyval) (i : nat) : result pyval :=
  match v with
  | VList items | VTuple items =>
      match nth_error items i with
      | Some x => Ok x
      | None => Raise IndexError
      end
  | VStr s =>
      match nth_error (chars s) i with
      | Some x => Ok x
      | None => Raise IndexError
      end
  | VDict _ => Raise KeyError
  | VNone | VBool _ | VInt _ | VFloat _ => Raise TypeError
  end.

(** [bool(v)] *)
Definition truthy (v : pyval) : bool :=
  match v with
  | VNone => false
  | VBool b => b
  | VInt n => negb (n =? 0)%Z
  | VFloat (S754_zero _) => false
  | VFloat _ => true
  | VStr "" => false
  | VStr _ => true
  | VList [] | VTuple [] | VDict [] => false
  | VList _ | VTuple _ | VDict _ => true
  end.

(** [v / d] for an [int] divisor. *)
Definition truediv_int (v : pyval) (d : Z) : result spec_float :=
  match v with
  | VInt n => Float.int_truediv n d
  | VBool b => Float.int_truediv (if b then 1 else 0) d
  | VFloat x => (y <- Float.of_int d ;; Float.truediv x y)%res
  | _ => Raise TypeError
  end.

(** [x * n] for a [float] and an [int]. *)
Definition mul_int (x : spec_float) (n : Z) : result spec_float :=
  (y <- Float.of_int n ;; Ok (Float.mul x y))%res.

End Py.

(** ** The regular expression of the fallback parser

    A pattern is a sequence of literal characters, greedy stars [c*] and
    captured lazy stars [(c*?)] over a character class, matched with the
    backtracking order of [re]: a greedy star tries the longest run first,
    a lazy one the shortest. *)

Inductive char_class : Type :=
| CSpace          (* \s *)
| CDot.           (* . *)

Definition class_matches (cl : char_class) (c : ascii) : bool :=
  match cl with
  | CSpace => Char.isspace c
  | CDot => negb (Ascii.eqb c Str.lf)
  end.

Inductive re_item : Type :=
| Lit (c : ascii)
| Star (cl : char_class)
| CaptureLazy (cl : char_class).

Fixpoint lits (s : string) : list re_item :=
  match s with
  | "" => []
  | String c s' => Lit c :: lits s'
  end.

(** What a match returns: the captured groups and the text left. *)
Definition match_result : Type := list string * string.

(** [c*] followed by [k]: the longest run first. *)
Fixpoint greedy_star (cl : char_class) (k : string -> option match_result)
  (s : string) : option match_result :=
  match s with
  | String a s' =>
      if class_matches cl a then
        match greedy_star cl k s' with
        | Some r => Some r
        | None => k s
        end
      else k s
  | "" => k s
  end.

(** [(c*?)] followed by [k]: the shortest run first; [taken] is the run so
    far, last character first. *)
Fixpoint lazy_star (cl : char_class) (k : string -> string -> option match_result)
  (s taken : string) : option match_result :=
  match k s taken with
  | Some r => Some r
  | None =>
      match s with
      | String a s' =>
          if class_matches cl a then lazy_star cl k s' (String a taken) else None
      | "" => None
      end
  end.

(** [re.match] of the items at the start of [s]. *)
Fixpoint re_match (p : list re_item) (s : string) (groups : list string)
  {struct p} : option match_result :=
  match p with
  | [] => Some (groups, s)
  | Lit c :: p' =>
      match s with
      | String a s' => if Ascii.eqb a c then re_match p' s' groups else None
      | "" => None
      end
  | Star cl :: p' =>
      greedy_star cl (fun rest => re_match p' rest groups) s
  | CaptureLazy cl :: p' =>
      lazy_star cl
        (fun rest taken => re_match p' rest (groups ++ [Str.rev taken])) s ""
  end.

(** [re.findall]: scan for the leftmost match, resume after it. *)
Fixpoint re_findall (p : list re_item) (fuel : nat) (s : string) : list (list string) :=
  match fuel with
  | O => []
  | S fuel' =>
      match re_match p s [] with
      | Some (groups, rest) =>
          if (String.length rest <? String.length s)%nat
          then groups :: re_findall p fuel' rest
          else match s with
               | "" => [groups]
               | String _ s' => groups :: re_findall p fuel' s'
               end
      | None =>
          match s with
          | "" => []
          | String _ s' => re_findall p fuel' s'
          end
      end
  end.

Definition dquote : ascii := "034"%char.

(** ["bbox_2d":\s*\[(.*?)\],\s*"text_content":\s*"(.*?)"] *)
Definition box_pattern : list re_item :=
  Lit dquote :: lits "bbox_2d" ++ [Lit dquote; Lit ":"; Star CSpace; Lit "["]
  ++ [CaptureLazy CDot; Lit "]"; Lit ","; Star CSpace; Lit dquote]
  ++ lits "text_content" ++ [Lit dquote; Lit ":"; Star CSpace; Lit dquote]
  ++ [CaptureLazy CDot; Lit dquote].

Definition findall_boxes (s : string) : list (list string) :=
  re_findall box_pattern (S (String.length s)) s.

(** [s.split(',')] *)
Fixpoint split_commas (s : string) : list string :=
  match s with
  | "" => [""]
  | String c s' =>
      if Ascii.eqb c "," then "" :: split_commas s'
      else match split_commas s' with
           | t :: rest => String c t :: rest
           | [] => [String c ""]
           end
  end.

Definition q (s : string) : string := String dquote (s ++ String dquote "").

(** ** os.path (POSIX) *)

Module Path.

(** The text before and after the last [sep] of [s]. *)
Fixpoint rsplit (sep : ascii) (s : string) : option (string * string) :=
  match s with
  | "" => None
  | String a s' =>
      match rsplit sep s' with
      | Some (h, t) => Some (String a h, t)
      | None => if Ascii.eqb a sep then Some ("", s') else None
      end
  end.

Definition is_slash (c : ascii) : bool := Ascii.eqb c "/".
Definition is_dot (c : ascii) : bool := Ascii.eqb c ".".

Fixpoint lstrip_slashes (s : string) : string :=
  match s with
  | String c s' => if is_slash c then lstrip_slashes s' else s
  | "" => ""
  end.

Definition rstrip_slashes (s : string) : string :=
  Str.rev (lstrip_slashes (Str.rev s)).

Definition basename (p : string) : string :=
  match rsplit "/" p with
  | Some (_, t) => t
  | None => p
  end.

Definition dirname (p : string) : string :=
  match rsplit "/" p with
  | Some (h, _) =>
      if Str.all is_slash h then h ++ "/" else rstrip_slashes h
  | None => ""
  end.

(** [os.path.splitext]: the extension starts at the last dot of the last
    component, unless only dots precede it there. *)
Definition splitext (p : string) : string * string :=
  let '(dir, base) :=
    match rsplit "/" p with
    | Some (h, t) => (h ++ "/", t)
    | None => ("", p)
    end in
  match rsplit "." base with
  | Some (stem, e) =>
      if Str.all is_dot stem then (p, "")
      else (dir ++ stem, String "." e)
  | None => (p, "")
  end.

Definition join (a b : string) : string :=
  match b with
  | String "/" _ => b
  | _ =>
      match a with
      | "" => b
      | _ => match Str.rev a with
             | String "/" _ => a ++ b
             | _ => a ++ "/" ++ b
             end
      end
  end.

(** [p.endswith(suffix)] *)
Definition endswith (p suffix : string) : bool :=
  if Str.strip_prefix (Str.rev suffix) (Str.rev p) is Some _ then true else false.

End Path.

(** ** Images, the file system and the remote services *)

Record font : Type := { font_file : option string; font_size : Z }.

Inductive draw_op : Type :=
| Rectangle (x1 y1 x2 y2 : Z)
| Text (x y : Z) (content : string) (f : font).

(** An image: the raster it was loaded from, its size as
    [(width, height)], and what has been drawn over it since. *)
Record picture : Type := {
  pic_raster : string;
  pic_size : Z * Z;
  pic_drawn : list draw_op
}.

(** A file is an image or a paginated document, one picture per page. *)
Inductive file : Type :=
| ImageFile (pic : picture)
| PdfFile (pages : list picture).

Inductive remote_call : Type :=
| Detection (image_path : string)
| Translation (text : pyval).

Record world : Type := {
  files : gmap string file;
  remote_calls : list remote_call
}.

(** The collaborators the sources call and do not define. *)
Record env : Type := {
  (** [os.getenv("MODELSCOPE_API_KEY")] when the module is imported *)
  api_key : option string;
  (** the C library's [pow(x, 0.5)] *)
  libm_pow_half : spec_float -> spec_float;
  json_loads : string -> result pyval;
  literal_eval : string -> result pyval;
  (** [ImageFont.truetype(file, size)] *)
  truetype : option string -> Z -> result font;
  (** the vision model's answer for the page stored at a path *)
  detection_service : string -> result string;
  (** the language model's answer for a text *)
  translation_service : pyval -> result pyval;
  (** what [os.makedirs] or [Image.save] raises at a path, if anything *)
  write_failure : string -> option exn;
  (** what [display(Markdown(text))] raises, if anything: IPython reads a
      text that starts with [http] as a URL and fetches it, and a text that
      names something on disk as a file name and reads that; the second
      argument is the file stored under the text as a path, if any *)
  display_failure : string -> option file -> option exn
}.

(** [not MODELSCOPE_API_KEY]: unset or empty. *)
Definition key_missing (E : env) : bool :=
  match api_key E with
  | None | Some "" => true
  | Some _ => false
  end.

(** ** Stateful code *)

Definition ST (S A : Type) : Type := S -> result A * S.

Definition ret {S A} (a : A) : ST S A := fun s => (Ok a, s).

Definition raise {S A} (e : exn) : ST S A := fun s => (Raise e, s).

Definition bind {S A B} (m : ST S A) (k : A -> ST S B) : ST S B :=
  fun s =>
    match m s with
    | (Ok a, s') => k a s'
    | (Raise e, s') => (Raise e, s')
    end.

Definition lift_result {S A} (r : result A) : ST S A := fun s => (r, s).

(** [try: body  except <classes>: handler]; an exception outside
    [handles] passes through. *)
Definition try_except {S A} (body : ST S A) (handles : exn -> bool)
  (handler : exn -> ST S A) : ST S A :=
  fun s =>
    match body s with
    | (Ok a, s') => (Ok a, s')
    | (Raise e, s') => if handles e then handler e s' else (Raise e, s')
    end.

Definition any_exception (e : exn) : bool := true.

Declare Scope st_scope.
Delimit Scope st_scope with st.
Notation "x <~ m ;; k" := (bind m (fun x => k))
  (at level 100, m at next level, right associativity) : st_scope.
Notation "m ;;; k" := (bind m (fun _ => k))
  (at level 100, right associativity) : st_scope.

Fixpoint for_each {S A} (body : A -> ST S unit) (l : list A) : ST S unit :=
  match l with
  | [] => ret tt
  | x :: l' => (body x ;;; for_each body l')%st
  end.

Definition M : Type -> Type := ST world.

(** [Image.open(path)] *)
Definition image_open (path : string) : M picture :=
  fun w =>
    match files w !! path with
    | Some (ImageFile pic) => (Ok pic, w)
    | Some (PdfFile _) | None => (Raise OSError, w)
    end.

(** [os.makedirs(dir, exist_ok=True)]: the empty name is refused with
    [FileNotFoundError] on every file system. *)
Definition makedirs (E : env) (dir : string) : M unit :=
  fun w =>
    if String.eqb dir "" then (Raise OSError, w)
    else
      match write_failure E dir with
      | Some e => (Raise e, w)
      | None => (Ok tt, w)
      end.

(** [os.makedirs(os.path.dirname(os.path.abspath(path)), exist_ok=True)]:
    the directory of an absolute path is never the empty name, so the call
    fails only as the file system says.  The model keeps the path
    relative. *)
Definition makedirs_parent (E : env) (path : string) : M unit :=
  fun w =>
    match write_failure E (Path.dirname path) with
    | Some e => (Raise e, w)
    | None => (Ok tt, w)
    end.

(** [open(path, "rb").read()] *)
Definition read_file (path : string) : M file :=
  fun w =>
    match files w !! path with
    | Some f => (Ok f, w)
    | None => (Raise OSError, w)
    end.

(** [display(Markdown(text))] *)
Definition display_markdown (E : env) (text : string) : M unit :=
  fun w =>
    match display_failure E text (files w !! text) with
    | Some e => (Raise e, w)
    | None => (Ok tt, w)
    end.

(** [os.path.exists(path)] *)
Definition path_exists (path : string) (w : world) : bool :=
  bool_decide (is_Some (files w !! path)).

(** [image.save(path)] *)
Definition image_save (E : env) (pic : picture) (path : string) : M unit :=
  fun w =>
    match write_failure E path with
    | Some e => (Raise e, w)
    | None => (Ok tt, {| files := <[path := ImageFile pic]> (files w);
                         remote_calls := remote_calls w |})
    end.

(** [shutil.copy(src, dst)] *)
Definition shutil_copy (E : env) (src dst : string) : M unit :=
  fun w =>
    match files w !! src with
    | None => (Raise OSError, w)
    | Some f =>
        match write_failure E dst with
        | Some e => (Raise e, w)
        | None => (Ok tt, {| files := <[dst := f]> (files w);
                             remote_calls := remote_calls w |})
        end
    end.

Definition call_remote {A} (c : remote_call) (answer : result A) : M A :=
  fun w => (answer, {| files := files w; remote_calls := remote_calls w ++ [c] |}).

(** ** qwen_utils *)

Definition prompt : string :=
  "Spotting all the sentence in the image with line-level. "
  ++ "Avoid word-by-word output. And output in JSON format.".

(** The names bound at module level in qwen_utils.py: its imports, its
    constants and its functions. *)
Definition qwen_utils_globals : list string :=
  [ "json"; "random"; "io"; "ast"; "Image"; "ImageDraw"; "ImageFont";
    "ImageColor"; "Markdown"; "display"; "OpenAI"; "os"; "base64";
    "smart_resize"; "re"; "sys";
    "min_pixels"; "max_pixels"; "prompt"; "image_path"; "MODELSCOPE_API_KEY";
    "parse_json"; "translateWithAPI"; "get_font"; "plot_text_bounding_boxes";
    "save_image"; "encode_image"; "inference_with_api"; "main";
    "natural_sort_key"; "batch_process_images" ].

(** Evaluating a name that is not a local variable of the function. *)
Definition global_name {S} (name : string) : ST S unit :=
  if existsb (String.eqb name) qwen_utils_globals then ret tt
  else raise (NameError name).

(** *** parse_json *)

Definition fence_opener : string := "```json".
Definition fence : string := "```".

Fixpoint parse_json_scan (lines : list string) : option string :=
  match lines with
  | [] => None
  | line :: rest =>
      if String.eqb line fence_opener
      then Some (Str.before_first fence (Str.join Str.nl rest))
      else parse_json_scan rest
  end.

Definition parse_json (json_output : string) : string :=
  match parse_json_scan (Str.splitlines json_output) with
  | Some payload => payload
  | None => json_output
  end.

(** *** translateWithAPI *)

Definition translateWithAPI (E : env) (raw : pyval) : M pyval :=
  if key_missing E then ret raw
  else call_remote (Translation raw) (translation_service E raw).

(** *** get_font and the font of plot_text_bounding_boxes *)

Definition font_paths : list string :=
  [ "/System/Library/Fonts/SF-Pro.ttf";
    "/System/Library/Fonts/Helvetica.ttc";
    "/Library/Fonts/Arial.ttf";
    "/System/Library/Fonts/SFNSText.ttf" ].

Fixpoint get_font_from (E : env) (paths : list string) (size : Z) : result font :=
  match paths with
  | [] => truetype E None size
  | path :: rest =>
      match truetype E (Some path) size with
      | Ok f => Ok f
      | Raise e => if is_OSError e then get_font_from E rest size else Raise e
      end
  end.

Definition get_font (E : env) (size : Z) : result font :=
  get_font_from E font_paths size.

Definition load_font (E : env) : result font :=
  match truetype E (Some "/Library/Fonts/NotoSansCJK-Regular.ttc") 50 with
  | Ok f => Ok f
  | Raise e => if is_OSError e then get_font E 40 else Raise e
  end.

(** *** The parsing strategies of plot_text_bounding_boxes *)

Inductive strategy : Type :=
| StrictJson       (* json.loads *)
| RegexScan        (* re.findall and int *)
| LiteralEval.     (* ast.literal_eval *)

Definition box_of_match (m : list string) : result pyval :=
  match m with
  | [group1; group2] =>
      (coords <- rmap (fun x => py_int (Str.strip x)) (split_commas group1) ;;
       Ok (VDict [("bbox_2d", VList (List.map VInt coords));
                  ("text_content", VStr group2)]))%res
  | _ => Raise IndexError
  end.

Definition regex_boxes (json_data : string) : result pyval :=
  (boxes <- rmap box_of_match (findall_boxes json_data) ;; Ok (VList boxes))%res.

(** The inner [try]: [json.loads], and under
    [except json.JSONDecodeError] the regular expression. *)
Definition strict_or_regex (E : env) (json_data : string)
  : list strategy * result pyval :=
  match json_loads E json_data with
  | Ok v => ([StrictJson], Ok v)
  | Raise e =>
      if is_JSONDecodeError e then ([StrictJson; RegexScan], regex_boxes json_data)
      else ([StrictJson], Raise e)
  end.

(** The strategies tried, in order, and the records; [None] is the
    [return img] of the innermost handler. *)
Definition parse_boxes (E : env) (json_data : string)
  : list strategy * option pyval :=
  let json_data := Str.replace_colon_eq json_data in
  match strict_or_regex E json_data with
  | (tried, Ok v) => (tried, Some v)
  | (tried, Raise _) =>
      match literal_eval E json_data with
      | Ok v => ((tried ++ [LiteralEval])%list, Some v)
      | Raise _ => ((tried ++ [LiteralEval])%list, None)
      end
  end.

(** *** The drawing loop *)

Definition canvas : Type := picture * world.

Definition lift_world {A} (m : M A) : ST canvas A :=
  fun s =>
    let '(r, w') := m (snd s) in (r, (fst s, w')).

Definition draw (op : draw_op) : ST canvas unit :=
  fun s =>
    let img := fst s in
    (Ok tt, ({| pic_raster := pic_raster img;
                pic_size := pic_size img;
                pic_drawn := (pic_drawn img ++ [op])%list |}, snd s)).

(** [draw.text(xy, text, font=font)]: the text has to be a [str]. *)
Definition draw_text (x y : Z) (text : pyval) (f : font) : ST canvas unit :=
  match text with
  | VStr s => draw (Text x y s f)
  | _ => raise TypeError
  end.

(** The test that skips a record; [Some bbox] when the record goes on. *)
Definition checked_bbox (bounding_box : pyval) : result (option pyval) :=
  (present <- Py.contains "bbox_2d" bounding_box ;;
   if negb present then Ok None
   else
     bbox <- Py.getitem bounding_box "bbox_2d" ;;
     if negb (Py.is_list bbox) then Ok None
     else
       n <- Py.len bbox ;;
       if (n <? 4)%Z then Ok None else Ok (Some bbox))%res.

(** [int(bbox[i] / input_dim * dim)] *)
Definition rescale (bbox : pyval) (i : nat) (input_dim dim : Z) : result Z :=
  (v <- Py.index bbox i ;;
   ratio <- Py.truediv_int v input_dim ;;
   x <- Py.mul_int ratio dim ;;
   Float.to_int x)%res.

(** The four corners after the two swaps: [(x1, y1, x2, y2)]. *)
Definition box_corners (bbox : pyval) (width height input_width input_height : Z)
  : result (Z * Z * Z * Z) :=
  (abs_y1 <- rescale bbox 1 input_height height ;;
   abs_x1 <- rescale bbox 0 input_width width ;;
   abs_y2 <- rescale bbox 3 input_height height ;;
   abs_x2 <- rescale bbox 2 input_width width ;;
   let '(abs_x1, abs_x2) :=
     if (abs_x1 >? abs_x2)%Z then (abs_x2, abs_x1) else (abs_x1, abs_x2) in
   let '(abs_y1, abs_y2) :=
     if (abs_y1 >? abs_y2)%Z then (abs_y2, abs_y1) else (abs_y1, abs_y2) in
   Ok (abs_x1, abs_y1, abs_x2, abs_y2))%res.

(** The text of a record that gets drawn, if any. *)
Definition text_to_draw (bounding_box : pyval) : result (option pyval) :=
  (present <- Py.contains "text_content" bounding_box ;;
   if negb present then Ok None
   else
     text <- Py.getitem bounding_box "text_content" ;;
     Ok (if Py.truthy text then Some text else None))%res.

Definition draw_box (E : env) (f : font)
  (width height input_width input_height : Z) (bounding_box : pyval)
  : ST canvas unit :=
  (checked <~ lift_result (checked_bbox bounding_box) ;;
   match checked with
   | None => ret tt
   | Some bbox =>
       corners <~ lift_result
                    (box_corners bbox width height input_width input_height) ;;
       let '(abs_x1, abs_y1, abs_x2, abs_y2) := corners in
       draw (Rectangle abs_x1 abs_y1 abs_x2 abs_y2) ;;;
       text <~ lift_result (text_to_draw bounding_box) ;;
       match text with
       | None => ret tt
       | Some content =>
           try_except
             (translated <~ lift_world (translateWithAPI E content) ;;
              draw_text abs_x1 abs_y2 translated f)
             any_exception
             (fun _ => draw_text abs_x1 abs_y2 content f)
       end
   end)%st.

Definition plot_body (E : env) (response : string)
  (width height input_width input_height : Z) : ST canvas unit :=
  let json_data := parse_json response in
  (f <~ lift_result (load_font E) ;;
   match snd (parse_boxes E json_data) with
   | None => ret tt
   | Some parsed_boxes =>
       boxes <~ lift_result (Py.iterate parsed_boxes) ;;
       for_each (draw_box E f width height input_width input_height) boxes
   end)%st.

Definition plot_text_bounding_boxes (E : env) (image_path response : string)
  (input_width input_height : Z) : M picture :=
  (img <~ image_open image_path ;;
   let '(width, height) := pic_size img in
   fun w =>
     let '(_, (img', w')) :=
       try_except (plot_body E response width height input_width input_height)
         any_exception (fun _ => ret tt) (img, w) in
     (Ok img', w'))%st.

(** *** save_image, encode_image, inference_with_api *)

Definition save_image (E : env) (image : picture) (output_path : string) : M string :=
  (makedirs_parent E output_path ;;;
   image_save E image output_path ;;;
   ret output_path)%st.

(** The bytes of the file, whatever the file is. *)
Definition encode_image (image_path : string) : M file :=
  read_file image_path.

Definition image_suffixes : list string := [".png"; ".jpg"; ".jpeg"; ".webp"].

(** The data URL's media type: [url] stays unbound for any other
    extension. *)
Definition media_type (image_ext : string) : option string :=
  if String.eqb image_ext ".webp" then Some "image/webp"
  else if String.eqb image_ext ".jpeg" || String.eqb image_ext ".jpg" then Some "image/jpeg"
  else if String.eqb image_ext ".png" then Some "image/png"
  else None.

Definition inference_with_api (E : env) (image_path : string) : M string :=
  if key_missing E then raise ValueError
  else if negb (existsb (Path.endswith image_path) image_suffixes) then raise ValueError
  else
    (_ <~ encode_image image_path ;;
     let image_ext := snd (Path.splitext image_path) in
     match media_type image_ext with
     | None => raise (UnboundLocalError "url")
     | Some _ => call_remote (Detection image_path) (detection_service E image_path)
     end)%st.

(** *** main *)

(** [if pdf_name:] *)
Definition given (name : option string) : option string :=
  match name with
  | None | Some "" => None
  | Some n => Some n
  end.

(** Where the page goes when the caller names no output path. *)
Definition default_output_dir (image_path : string) (pdf_name : option string) : string :=
  match given pdf_name with
  | Some name => Path.join "outputs" name
  | None => Path.dirname image_path
  end.

Definition default_output_path (image_path : string) (pdf_name : option string) : string :=
  let file_name := Path.basename image_path in
  let '(base_name, ext) := Path.splitext file_name in
  Path.join (default_output_dir image_path pdf_name) (base_name ++ "_translated" ++ ext).

(** The local variable [output_path] lives next to the world, so that the
    handler of [main] sees what the [try] block assigned. *)
Definition frame : Type := option string * world.

Definition in_world {A} (m : M A) : ST frame A :=
  fun s =>
    let '(r, w') := m (snd s) in (r, (fst s, w')).

(** [if output_path is None: ...] of both branches of [main]. *)
Definition resolve_output_path (E : env) (image_path : string)
  (pdf_name : option string) : ST frame string :=
  fun s =>
    match fst s with
    | Some p => (Ok p, s)
    | None =>
        let assign := fun w => (Ok (default_output_path image_path pdf_name),
                                (Some (default_output_path image_path pdf_name), w)) in
        match given pdf_name with
        | Some name =>
            match makedirs E (Path.join "outputs" name) (snd s) with
            | (Ok _, w) => assign w
            | (Raise e, w) => (Raise e, (None, w))
            end
        | None => assign (snd s)
        end
    end.

Definition main_try (E : env) (image_path : string) (pdf_name : option string)
  : ST frame string :=
  (image <~ in_world (image_open image_path) ;;
   let '(width, height) := pic_size image in
   dims <~ lift_result
             (smart_resize (libm_pow_half E) height width min_pixels max_pixels) ;;
   let '(input_height, input_width) := dims in
   response <~ in_world (inference_with_api E image_path) ;;
   in_world (display_markdown E response) ;;;
   modified_image <~ in_world (plot_text_bounding_boxes E image_path response
                                 input_width input_height) ;;
   output_path <~ resolve_output_path E image_path pdf_name ;;
   in_world (save_image E modified_image output_path))%st.

Definition main_except (E : env) (image_path : string) (pdf_name : option string)
  : ST frame string :=
  (output_path <~ resolve_output_path E image_path pdf_name ;;
   global_name "shutil" ;;;
   in_world (shutil_copy E image_path output_path) ;;;
   ret output_path)%st.

Definition main (E : env) (image_path : string) (output_path pdf_name : option string)
  : M string :=
  fun w =>
    let '(r, (_, w')) :=
      try_except (main_try E image_path pdf_name) any_exception
        (fun _ => main_except E image_path pdf_name) (output_path, w) in
    (r, w').

(** *** batch_process_images *)

Fixpoint process_pages (E : env) (pdf_name : option string) (image_paths : list string)
  : M (list string) :=
  match image_paths with
  | [] => ret []
  | image_path :: rest =>
      (output_path <~ main E image_path None pdf_name ;;
       translated_paths <~ process_pages E pdf_name rest ;;
       ret (output_path :: translated_paths))%st
  end.

Definition batch_process_images (E : env) (image_paths : list string)
  (pdf_name : option string) (output_dir : string) : M (list string) :=
  ((match given pdf_name with
    | Some name => makedirs E (Path.join output_dir name)
    | None => ret tt
    end) ;;;
   image_paths <~ lift_result (sorted_natural image_paths) ;;
   translated_paths <~ process_pages E pdf_name image_paths ;;
   lift_result (sorted_natural translated_paths))%st.

(** ** pdf_utils.convert_pdf_to_images *)

Definition decimal (n : nat) : string :=
  NilEmpty.string_of_uint (Nat.to_uint n).

Definition page_image_name (pdf_filename : string) (page_number : nat) : string :=
  pdf_filename ++ "_page_" ++ decimal (page_number + 1) ++ ".png".

Fixpoint save_pages (E : env) (pdf_filename output_dir : string)
  (page_number : nat) (pages : list picture) : M (list string) :=
  match pages with
  | [] => ret []
  | pix :: rest =>
      let image_path := Path.join output_dir (page_image_name pdf_filename page_number) in
      (image_save E pix image_path ;;;
       image_paths <~ save_pages E pdf_filename output_dir (S page_number) rest ;;
       ret (image_path :: image_paths))%st
  end.

Definition convert_pdf_to_images (E : env) (pdf_path output_dir : string)
  : M (list string) :=
  fun w =>
    match files w !! pdf_path with
    | None => (Raise OSError, w)
    | Some document =>
        let pdf_filename := fst (Path.splitext (Path.basename pdf_path)) in
        let pages :=
          match document with
          | PdfFile pages => pages
          | ImageFile pic => [pic]
          end in
        (makedirs E output_dir ;;;
         save_pages E pdf_filename output_dir O pages)%st w
    end.

(** ** pdf_generator.images_to_pdf *)

(** The pages drawn on the canvas, one per image that exists. *)
Fixpoint pdf_pages (image_paths : list string) : M (list picture) :=
  match image_paths with
  | [] => ret []
  | img_path :: rest =>
      fun w =>
        if path_exists img_path w then
          (pic <~ image_open img_path ;;
           pages <~ pdf_pages rest ;;
           ret (pic :: pages))%st w
        else pdf_pages rest w
  end.

Definition canvas_save (E : env) (pages : list picture) (path : string) : M unit :=
  fun w =>
    match write_failure E path with
    | Some e => (Raise e, w)
    | None => (Ok tt, {| files := <[path := PdfFile pages]> (files w);
                         remote_calls := remote_calls w |})
    end.

(** [images_to_pdf(image_paths, output_pdf_path)] with no page size given:
    the canvas starts at the size of the first image. *)
Definition images_to_pdf (E : env) (image_paths : list string) (output_pdf_path : string)
  : M string :=
  (makedirs E (Path.dirname output_pdf_path) ;;;
   image_paths <~ lift_result (sorted_natural image_paths) ;;
   (match image_paths with
    | first :: _ => (_ <~ image_open first ;; ret tt)
    | [] => ret tt
    end) ;;;
   pages <~ pdf_pages image_paths ;;
   canvas_save E pages output_pdf_path ;;;
   ret output_pdf_path)%st.

(** ** main.py *)

Definition check_environment (E : env) : bool := negb (key_missing E).

(** What [argparse] hands over. *)
Record cli_args : Type := {
  pdf_path : option string;
  output : string;
  web : bool
}.

(** How the command-line run ends. *)
Inductive outcome : Type :=
| Returned
| WebLaunched
| Exit (code : Z)
| Uncaught (e : exn).

Definition translate_pdf (E : env) (path pdf_name out output_subdir : string)
  : M string :=
  (image_paths <~ convert_pdf_to_images E path (Path.join "imgs" pdf_name) ;;
   translated_paths <~ batch_process_images E image_paths (Some pdf_name) out ;;
   let output_pdf_path := Path.join output_subdir (pdf_name ++ "_translated.pdf") in
   translated_paths <~ lift_result (sorted_natural translated_paths) ;;
   images_to_pdf E translated_paths output_pdf_path)%st.

Definition cli_main (E : env) (args : cli_args) (w : world) : outcome * world :=
  if negb (check_environment E) then (Exit 1, w)
  else
    match pdf_path args with
    | None | Some "" => (WebLaunched, w)
    | Some path =>
        if web args then (WebLaunched, w)
        else if negb (path_exists path w) then (Exit 1, w)
        else
          let pdf_name := fst (Path.splitext (Path.basename path)) in
          let output_subdir := Path.join (output args) pdf_name in
          match (makedirs E (output args) ;;; makedirs E output_subdir)%st w with
          | (Raise e, w1) => (Uncaught e, w1)
          | (Ok _, w1) =>
              match translate_pdf E path pdf_name (output args) output_subdir w1 with
              | (Ok _, w2) => (Returned, w2)
              | (Raise _, w2) => (Exit 1, w2)
              end
          end
    end.

(** ** A reader for plain JSON

    [Json.loads] agrees with [json.loads] on the texts it accepts: arrays,
    objects, [true], [false], [null], integers, and strings without escape
    sequences.  It is the [json_loads] of the environments in which the
    examples below run; the theorems hold for any [json_loads]. *)

Module Json.

Definition is_ws (c : ascii) : bool :=
  Ascii.eqb c " " || Ascii.eqb c "009" || Ascii.eqb c "010" || Ascii.eqb c "013".

Fixpoint skip_ws (s : string) : string :=
  match s with
  | String c s' => if is_ws c then skip_ws s' else s
  | "" => ""
  end.

(** The characters up to the closing quote. *)
Fixpoint string_body (s : string) : option (string * string) :=
  match s with
  | "" => None
  | String c s' =>
      if Ascii.eqb c dquote then Some ("", s')
      else if Ascii.eqb c "\" || (Char.code c <? 32)%N then None
      else match string_body s' with
           | Some (t, rest) => Some (String c t, rest)
           | None => None
           end
  end.

Fixpoint digits (acc : Z) (s : string) : Z * string :=
  match s with
  | String c s' =>
      if Char.re_digit c then digits (10 * acc + Char.digit_value c) s' else (acc, s)
  | "" => (acc, s)
  end.

Definition starts_fraction (s : string) : bool :=
  match s with
  | String c _ => Ascii.eqb c "." || Ascii.eqb c "e" || Ascii.eqb c "E"
  | "" => false
  end.

Definition natural (s : string) : option (Z * string) :=
  match s with
  | String "0" s' => if starts_fraction s' then None else Some (0, s')
  | String c _ =>
      if Char.re_digit c then
        let '(n, rest) := digits 0 s in
        if starts_fraction rest then None else Some (n, rest)
      else None
  | "" => None
  end.

Fixpoint set_entry (k : string) (v : pyval) (entries : list (string * pyval))
  : list (string * pyval) :=
  match entries with
  | [] => [(k, v)]
  | (k', v') :: rest =>
      if String.eqb k k' then (k, v) :: rest else (k', v') :: set_entry k v rest
  end.

Fixpoint value (fuel : nat) (s : string) : option (pyval * string) :=
  match fuel with
  | O => None
  | S fuel' =>
      match s with
      | String "[" r =>
          match skip_ws r with
          | String "]" rest => Some (VList [], rest)
          | r' => elements fuel' r' []
          end
      | String "{" r =>
          match skip_ws r with
          | String "}" rest => Some (VDict [], rest)
          | r' => members fuel' r' []
          end
      | String "-" r =>
          match natural r with
          | Some (n, rest) => Some (VInt (- n), rest)
          | None => None
          end
      | _ =>
          if Str.strip_prefix "true" s is Some rest then Some (VBool true, rest)
          else if Str.strip_prefix "false" s is Some rest then Some (VBool false, rest)
          else if Str.strip_prefix "null" s is Some rest then Some (VNone, rest)
          else
            match s with
            | String c r =>
                if Ascii.eqb c dquote then
                  match string_body r with
                  | Some (t, rest) => Some (VStr t, rest)
                  | None => None
                  end
                else
                  match natural s with
                  | Some (n, rest) => Some (VInt n, rest)
                  | None => None
                  end
            | "" => None
            end
      end
  end
with elements (fuel : nat) (s : string) (acc : list pyval) : option (pyval * string) :=
  match fuel with
  | O => None
  | S fuel' =>
      match value fuel' s with
      | Some (v, r) =>
          match skip_ws r with
          | String "," r' => elements fuel' (skip_ws r') (acc ++ [v])%list
          | String "]" rest => Some (VList (acc ++ [v]), rest)
          | _ => None
          end
      | None => None
      end
  end
with members (fuel : nat) (s : string) (acc : list (string * pyval))
  : option (pyval * string) :=
  match fuel with
  | O => None
  | S fuel' =>
      match s with
      | String c r =>
          if Ascii.eqb c dquote then
            match string_body r with
            | Some (k, r1) =>
                match skip_ws r1 with
                | String ":" r2 =>
                    match value fuel' (skip_ws r2) with
                    | Some (v, r3) =>
                        match skip_ws r3 with
                        | String "," r4 => members fuel' (skip_ws r4) (set_entry k v acc)
                        | String "}" rest => Some (VDict (set_entry k v acc), rest)
                        | _ => None
                        end
                    | None => None
                    end
                | _ => None
                end
            | None => None
            end
          else None
      | "" => None
      end
  end.

Definition loads (s : string) : result pyval :=
  match value (2 * String.length s + 2) (skip_ws s) with
  | Some (v, rest) =>
      match skip_ws rest with
      | "" => Ok v
      | _ => Raise JSONDecodeError
      end
  | None => Raise JSONDecodeError
  end.

End Json.

(** ** A concrete environment

    Two pages of a document on disk, every font installed, the services
    answering from a fixed table. *)

Module Demo.

Definition page (raster : string) (width height : Z) : file :=
  ImageFile {| pic_raster := raster; pic_size := (width, height); pic_drawn := [] |}.

Definition page1 : string := "imgs/deck/deck_page_1.png".
Definition page2 : string := "imgs/deck/deck_page_2.png".

Definition disk : world :=
  {| files := <[page1 := page "deck#1" 1000 800]>
              (<[page2 := page "deck#2" 1000 800]> ∅);
     remote_calls := [] |}.

Definition box (coords text : string) : string :=
  "{" ++ q "bbox_2d" ++ ": [" ++ coords ++ "], " ++ q "text_content" ++ ": "
  ++ q text ++ "}".

(** The vision model finds one line on page 1 and fails on page 2. *)
Definition detect (image_path : string) : result string :=
  if String.eqb image_path page1 then Ok ("[" ++ box "100, 200, 500, 260" "ni hao" ++ "]")
  else Raise RemoteError.

Definition translate (text : pyval) : result pyval :=
  match text with
  | VStr "ni hao" => Ok (VStr "hello")
  | _ => Raise RemoteError
  end.

(** IPython on this machine: a text that starts with [http] is no URL it
    can fetch, and a file of pixels or pages is no text it can decode. *)
Definition display (text : string) (found : option file) : option exn :=
  match Str.strip_prefix "http" text, found with
  | Some _, _ => Some ValueError
  | None, Some _ => Some ValueError
  | None, None => None
  end.

Definition with_key (key : option string) : env :=
  {| api_key := key;
     libm_pow_half := Float.sqrt;
     json_loads := Json.loads;
     literal_eval := fun _ => Raise SyntaxError;
     truetype := fun file size => Ok {| font_file := file; font_size := size |};
     detection_service := detect;
     translation_service := translate;
     write_failure := fun _ => None;
     display_failure := display |}.

Definition configured : env := with_key (Some "sk-demo").
Definition unconfigured : env := with_key None.

Definition noto : font :=
  {| font_file := Some "/Library/Fonts/NotoSansCJK-Regular.ttc"; font_size := 50 |}.

End Demo.

Definition drawn_on (r : result string * world) (path : string) : option (list draw_op) :=
  match files (snd r) !! path with
  | Some (ImageFile pic) => Some (pic_drawn pic)
  | _ => None
  end.

Module Office.

(** A two-page document on disk, next to nothing else. *)
Definition document : string := "deck.pdf".

Definition disk : world :=
  {| files := {[ document :=
                   PdfFile [ {| pic_raster := "deck#1"; pic_size := (1000, 800);
                                pic_drawn := [] |};
                             {| pic_raster := "deck#2"; pic_size := (1000, 800);
                                pic_drawn := [] |} ] ]};
     remote_calls := [] |}.

Definition args : cli_args :=
  {| pdf_path := Some document; output := "outputs"; web := false |}.

Definition pdf_at (r : outcome * world) (path : string) : option (list (list draw_op)) :=
  match files (snd r) !! path with
  | Some (PdfFile pages) => Some (List.map pic_drawn pages)
  | _ => None
  end.

End Office.

(** * The vocabulary of the properties *)

(** *** The credential check of the command line *)

(** The environment [E] with another credential. *)
Definition set_key (E : env) (key : option string) : env :=
  {| api_key := key;
     libm_pow_half := libm_pow_half E;
     json_loads := json_loads E;
     literal_eval := literal_eval E;
     truetype := truetype E;
     detection_service := detection_service E;
     translation_service := translation_service E;
     write_failure := write_failure E;
     display_failure := display_failure E |}.

(** A call ignores the credential when it runs the same with and without
    one, everything else in the environment being equal. *)
Definition ignores_credential {A} (call : env -> M A) : Prop :=
  forall (E : env) (key : string) (w : world),
    call (set_key E None) w = call (set_key E (Some key)) w.

Definition demo_args : cli_args :=
  {| pdf_path := Some "deck.pdf"; output := "outputs"; web := false |}.

(** *** natural_sort_key on digits that are not decimal *)

(** U+00B2, SUPERSCRIPT TWO: a digit for [str.isdigit], not for [\d]. *)
Definition superscript_two : string := String "178" "".

(** The page images of a document named [plan1] superscript two [2.pdf]. *)
Definition superscript_page (n : string) : string :=
  "imgs/plan1" ++ superscript_two ++ "2/plan1" ++ superscript_two ++ "2_page_"
  ++ n ++ ".png".

(** *** smart_resize against its contract *)

(** Truncation as the contract has it: the quotient rounded towards
    zero, for a float of sign [s], mantissa [m] and exponent [e]. *)
Definition truncated (x : spec_float) : result Z :=
  match x with
  | S754_nan => Raise ValueError
  | S754_infinity _ => Raise OverflowError
  | S754_zero _ => Ok 0
  | S754_finite s m e =>
      Ok (Z.quot (cond_Zopp s (Zpos m) * 2 ^ Z.max e 0) (2 ^ Z.max (- e) 0))
  end.

(** One dimension times the scale, truncated. *)
Definition scaled_and_truncated (dim : Z) (scale : spec_float) : result Z :=
  (d <- Float.of_int dim ;; truncated (Float.mul d scale))%res.

(** The contract's words for the two scaling cases: the scale is the
    square root of [bound / current pixels]; each dimension is multiplied by
    it and truncated on its own. *)
Definition scaled_by_sqrt (libm_pow_half : spec_float -> spec_float)
  (height width bound : Z) : result (Z * Z) :=
  (ratio <- Float.int_truediv bound (height * width) ;;
   scale <- Float.pow_half libm_pow_half ratio ;;
   new_height <- scaled_and_truncated height scale ;;
   new_width <- scaled_and_truncated width scale ;;
   Ok (new_height, new_width))%res.

(** *** The drawing loop, record by record *)

Definition add_ops (img : picture) (ops : list draw_op) : picture :=
  {| pic_raster := pic_raster img;
     pic_size := pic_size img;
     pic_drawn := (pic_drawn img ++ ops)%list |}.

Definition is_rectangle (op : draw_op) : bool :=
  match op with
  | Rectangle _ _ _ _ => true
  | Text _ _ _ _ => false
  end.

(** The boxes outlined on a picture: one per processed record. *)
Definition rectangles (img : picture) : list draw_op :=
  List.filter is_rectangle (pic_drawn img).

(** What is written under a box: the translation when the service
    answered with a text, the original text otherwise. *)
Definition shown_text (answer : result pyval) (original : string) : string :=
  match answer with
  | Ok (VStr translated) => translated
  | _ => original
  end.

(** The records the loop passes over. *)
Definition bbox_malformed (r : pyval) : bool :=
  match r with
  | VDict entries =>
      match Py.lookup "bbox_2d" entries with
      | None => true
      | Some (VList items) => (List.length items <? 4)%nat
      | Some _ => true
      end
  | _ => false
  end.

(** The text of a record as the data model has it: absent, or a string. *)
Definition text_field (entries : list (string * pyval)) : option (option string) :=
  match Py.lookup "text_content" entries with
  | None => Some None
  | Some (VStr t) => Some (Some t)
  | Some _ => None
  end.

Module Farewell.

(** A record whose text the demo translation service fails on. *)
Definition entries : list (string * pyval) :=
  [("bbox_2d", VList [VInt 100; VInt 200; VInt 500; VInt 260]);
   ("text_content", VStr "zai jian")].

Definition blank : picture :=
  {| pic_raster := "deck#1"; pic_size := (1000, 800); pic_drawn := [] |}.

Definition called : world :=
  {| files := files Demo.disk; remote_calls := [Translation (VStr "zai jian")] |}.

End Farewell.

(** *** The parsing chain *)

Module Garbled.

(** An answer that is no JSON text, whose box the regular expression finds
    but cannot convert, and that is no Python literal either. *)
Definition response : string :=
  q "bbox_2d" ++ ": [1.5, 2, 3, 4], " ++ q "text_content" ++ ": " ++ q "ni hao".

Definition blank : picture :=
  {| pic_raster := "deck#1"; pic_size := (1000, 800); pic_drawn := [] |}.

End Garbled.

Module Literal.

(** An answer in the syntax of Python literals, with single quotes: no
    JSON text, nothing the regular expression matches, and a list of one
    record for [ast.literal_eval]. *)
Definition response : string :=
  "[{'bbox_2d': [100, 200, 500, 260], 'text_content': 'ni hao'}]".

Definition record : pyval :=
  VDict [("bbox_2d", VList [VInt 100; VInt 200; VInt 500; VInt 260]);
         ("text_content", VStr "ni hao")].

(** The demo environment with an [ast.literal_eval] that reads the
    answer. *)
Definition reader : env :=
  {| api_key := Some "sk-demo";
     libm_pow_half := Float.sqrt;
     json_loads := Json.loads;
     literal_eval := fun s => if String.eqb s response then Ok (VList [record])
                              else Raise SyntaxError;
     truetype := fun file size => Ok {| font_file := file; font_size := size |};
     detection_service := Demo.detect;
     translation_service := Demo.translate;
     write_failure := fun _ => None;
     display_failure := Demo.display |}.

Definition blank : picture :=
  {| pic_raster := "deck#1"; pic_size := (1000, 800); pic_drawn := [] |}.

End Literal.

(** *** Validation of the records *)

Definition is_number (v : pyval) : bool :=
  match v with
  | VInt _ | VFloat _ => true
  | _ => false
  end.

(** The data model's invariant: a bounding box that is a list of exactly
    four numbers. *)
Definition exactly_four_numbers (r : pyval) : bool :=
  match r with
  | VDict entries =>
      match Py.lookup "bbox_2d" entries with
      | Some (VList items) =>
          (List.length items =? 4)%nat && forallb is_number items
      | _ => false
      end
  | _ => false
  end.

(** The claim as the specification has it: whatever breaks the invariant
    is passed over, and the loop goes on from the same canvas. *)
Definition skips_unless_four_numbers : Prop :=
  forall (E : env) (f : font) (width height input_width input_height : Z)
         (r : pyval) (s : canvas),
    exactly_four_numbers r = false ->
    draw_box E f width height input_width input_height r s = (Ok tt, s).

Module Wide.

(** A record with five components. *)
Definition record : pyval :=
  VDict [("bbox_2d", VList [VInt 100; VInt 200; VInt 500; VInt 260; VInt 7])].

Definition blank : picture :=
  {| pic_raster := "deck#1"; pic_size := (1000, 800); pic_drawn := [] |}.

End Wide.

(** The outline of a record that is processed: its bounding box is a list
    of at least four components, the first four rescale to pixel
    coordinates, and its text is absent or a string. *)
Definition outline (width height input_width input_height : Z) (r : pyval)
  : option draw_op :=
  match r with
  | VDict entries =>
      match Py.lookup "bbox_2d" entries, text_field entries with
      | Some (VList items), Some _ =>
          if (4 <=? List.length items)%nat then
            match box_corners (VList items) width height input_width input_height with
            | Ok (x1, y1, x2, y2) => Some (Rectangle x1 y1 x2 y2)
            | Raise _ => None
            end
          else None
      | _, _ => None
      end
  | _ => None
  end.

Module Mixed.

(** Three records; the second has no bounding box. *)
Definition response : string :=
  "[" ++ Demo.box "100, 200, 500, 260" "ni hao" ++ ", {" ++ q "text_content" ++ ": "
  ++ q "lost" ++ "}, " ++ Demo.box "700, 300, 650, 100" "zai jian" ++ "]".

Definition boxes : list pyval :=
  [ VDict [("bbox_2d", VList [VInt 100; VInt 200; VInt 500; VInt 260]);
           ("text_content", VStr "ni hao")];
    VDict [("text_content", VStr "lost")];
    VDict [("bbox_2d", VList [VInt 700; VInt 300; VInt 650; VInt 100]);
           ("text_content", VStr "zai jian")] ].

Definition blank : picture :=
  {| pic_raster := "deck#1"; pic_size := (1000, 800); pic_drawn := [] |}.

End Mixed.

Module Stray.

Definition bare_box (coords : string) : string :=
  "{" ++ q "bbox_2d" ++ ": [" ++ coords ++ "]}".

(** Three records; the bounding box of the second is a list of four
    strings. *)
Definition response : string :=
  "[" ++ bare_box "100, 200, 500, 260" ++ ", "
  ++ bare_box (q "a" ++ ", " ++ q "b" ++ ", " ++ q "c" ++ ", " ++ q "d") ++ ", "
  ++ bare_box "700, 300, 650, 100" ++ "]".

Definition first : pyval :=
  VDict [("bbox_2d", VList [VInt 100; VInt 200; VInt 500; VInt 260])].

Definition second : pyval :=
  VDict [("bbox_2d", VList [VStr "a"; VStr "b"; VStr "c"; VStr "d"])].

Definition third : pyval :=
  VDict [("bbox_2d", VList [VInt 700; VInt 300; VInt 650; VInt 100])].

Definition blank : picture :=
  {| pic_raster := "deck#1"; pic_size := (1000, 800); pic_drawn := [] |}.

End Stray.

(** *** The order of the keys *)

(** [key_elem_lt] made total: an [int] sorts before a [str].  On keys of
    the same shape the two agree, and [<] never raises. *)
Definition key_elem_ltb (a b : key_elem) : bool :=
  match a, b with
  | KInt m, KInt n => (m <? n)%Z
  | KText s, KText t => Str.ltb s t
  | KInt _, KText _ => true
  | KText _, KInt _ => false
  end.

Fixpoint key_ltb (a b : list key_elem) : bool :=
  match a, b with
  | [], [] => false
  | [], _ :: _ => true
  | _ :: _, [] => false
  | x :: a', y :: b' =>
      if key_elem_eqb x y then key_ltb a' b' else key_elem_ltb x y
  end.

(** [a <= b] on keys: [b < a] does not hold. *)
Definition key_leb (a b : list key_elem) : bool := negb (key_ltb b a).

(** The shape of a key: keys of one parity, alternately text and number. *)
Fixpoint alternates (want_text : bool) (k : list key_elem) : bool :=
  match k with
  | [] => true
  | KText _ :: rest => want_text && alternates false rest
  | KInt _ :: rest => negb want_text && alternates true rest
  end.

(** *** The shape of the keys of natural_sort_key *)

Definition is_text (t : string) : bool :=
  Str.all (fun c => negb (Char.re_digit c)) t.

Definition is_digit_run (d : string) : bool :=
  match d with
  | "" => false
  | _ => Str.all Char.re_digit d
  end.

Fixpoint pieces_alternate (want_text : bool) (pieces : list string) : bool :=
  match pieces with
  | [] => true
  | p :: rest =>
      (if want_text then is_text p else is_digit_run p)
      && pieces_alternate (negb want_text) rest
  end.

(** *** [sorted] as an insertion sort *)

Section InsertionSortDefs.
Context {A K : Type}.
Variable ltb : K -> K -> bool.
Variable good : K -> Prop.

Fixpoint insert_pure (x : K * A) (l : list (K * A)) : list (K * A) :=
  match l with
  | [] => [x]
  | y :: l' =>
      if ltb (fst x) (fst y) then x :: y :: l' else y :: insert_pure x l'
  end.

Fixpoint sort_pure (done todo : list (K * A)) : list (K * A) :=
  match todo with
  | [] => done
  | x :: todo' => sort_pure (insert_pure x done) todo'
  end.

Definition good_item (x : K * A) : Prop := good (fst x).

(** [x] may stand before [y]. *)
Definition item_le (x y : K * A) : Prop := ltb (fst y) (fst x) = false.

End InsertionSortDefs.

(** *** Sorting paths by their natural key *)

(** [p] may stand before [q]: both have a key, and the key of [q] is not
    below the key of [p]. *)
Definition natural_le (p q : string) : Prop :=
  exists kp kq,
    natural_sort_key p = Ok kp /\ natural_sort_key q = Ok kq
    /\ key_ltb kq kp = false.

Definition has_key (p : string) : Prop := is_Ok (natural_sort_key p) = true.

(** A path decorated with its own key. *)
Definition keyed (x : list key_elem * string) : Prop :=
  natural_sort_key (snd x) = Ok (fst x).

Definition well_shaped (k : list key_elem) : Prop := alternates true k = true.

(** *** What drawing on a page leaves alone *)

(** From [w] to [w']: the same files, and only translation calls added. *)
Definition grows (w w' : world) : Prop :=
  files w' = files w
  /\ exists texts,
       remote_calls w' = (remote_calls w ++ List.map Translation texts)%list.


(** *** A page that goes through *)

(** The pages detection was asked for, in the order of the calls. *)
Definition detections (calls : list remote_call) : list string :=
  omap (fun c => match c with
                 | Detection p => Some p
                 | Translation _ => None
                 end) calls.





(** Nothing fails to be written. *)
Definition writable (E : env) : Prop := forall path, write_failure E path = None.


(** *** batch_process_images *)

Definition output_of (pdf_name : option string) (p : string) : string :=
  default_output_path p pdf_name.


Module Appendix.

(** A page and an appendix to it; the vision model finds no text. *)
Definition page : string := "imgs/deck/page_1.png".
Definition extra : string := "imgs/deck/page_1_a.png".

Definition disk : world :=
  {| files := <[page := Demo.page "deck#1" 1000 800]>
              (<[extra := Demo.page "deck#1a" 1000 800]> ∅);
     remote_calls := [] |}.

Definition silent : env :=
  {| api_key := Some "sk-demo";
     libm_pow_half := Float.sqrt;
     json_loads := Json.loads;
     literal_eval := fun _ => Raise SyntaxError;
     truetype := fun file size => Ok {| font_file := file; font_size := size |};
     detection_service := fun _ => Ok "[]";
     translation_service := Demo.translate;
     write_failure := fun _ => None;
     display_failure := Demo.display |}.

End Appendix.

Module Deck.

(** Five pages as the rasterizer names them, listed out of order. *)
Definition page (n : nat) : string :=
  Path.join "imgs/deck" (page_image_name "deck" (n - 1)).

Definition shuffled : list string := [page 10; page 2; page 11; page 1; page 3].

Definition in_page_order : list string := [page 1; page 2; page 3; page 10; page 11].

Definition disk : world :=
  {| files := list_to_map
                (List.map (fun p => (p, Demo.page p 1000 800)) shuffled);
     remote_calls := [] |}.

End Deck.

(** *** A line feed after the payload *)



(** *** The code fence around a payload *)

(** The fence opener on a line, the payload, and the fence closer on a
    line of its own. *)
Definition wrap_in_fence (payload : string) : string :=
  fence_opener ++ Str.nl ++ payload ++ Str.nl ++ fence.

(** The only line boundary in the text is the line feed. *)
Definition lf_only (s : string) : bool :=
  Str.all (fun c => negb (Char.is_linebreak c) || Ascii.eqb c Str.lf) s.



Module Quoted.

(** One record whose text holds three backquotes. *)
Definition payload : string :=
  "[" ++ Demo.box "1, 2, 3, 4" "a```b" ++ "]".

Definition record : pyval :=
  VDict [("bbox_2d", VList [VInt 1; VInt 2; VInt 3; VInt 4]);
         ("text_content", VStr "a```b")].

End Quoted.

Module Fenced.

(** The answer of the demo's vision model for page 1. *)
Definition payload : string := "[" ++ Demo.box "100, 200, 500, 260" "ni hao" ++ "]".

Definition record : pyval :=
  VDict [("bbox_2d", VList [VInt 100; VInt 200; VInt 500; VInt 260]);
         ("text_content", VStr "ni hao")].

End Fenced.

(** *** Names whose key is defined *)

(** No character of the name is a digit for [str.isdigit] without being
    one for [\d]. *)
Definition plain (s : string) : bool :=
  Str.all (fun c => implb (Char.isdigit c) (Char.re_digit c)) s.

(** The name has no more characters than [int] takes digits. *)
Definition short (s : string) : Prop :=
  (Z.of_nat (String.length s) <= int_max_str_digits)%Z.

Ltac shortness := unfold short, int_max_str_digits; simpl; lia.

(** *** Names with a number in them *)

(** The last character of the text is a decimal digit. *)
Fixpoint ends_with_digit (s : string) : bool :=
  match s with
  | "" => false
  | String c "" => Char.re_digit c
  | String _ s' => ends_with_digit s'
  end.

Definition starts_with_digit (s : string) : bool :=
  match s with
  | String c _ => Char.re_digit c
  | "" => false
  end.

(** A name made of a text, the number [n] as [str(n)] writes it, and a
    text. *)
Definition numbered (before : string) (n : nat) (after : string) : string :=
  before ++ decimal n ++ after.

(** *** Text around the fenced block *)

(** The text [rest] with the lines [before] in front of it, each closed by
    a line feed. *)
Definition lines_before (before : list string) (rest : string) : string :=
  fold_right (fun l acc => l ++ Str.nl ++ acc) rest before.

(** A line that holds no line boundary and is not the fence opener. *)
Definition ordinary_line (l : string) : Prop :=
  Str.all (fun c => negb (Char.is_linebreak c)) l = true /\ l <> fence_opener.

(** *** What the drawing loop adds to a picture *)

(** A rectangle is upright when its first corner is the upper left one. *)
Definition upright (op : draw_op) : Prop :=
  match op with
  | Rectangle x1 y1 x2 y2 => x1 <= x2 /\ y1 <= y2
  | Text _ _ _ _ => True
  end.

(** A step of the drawing code only adds upright outlines and texts to the
    picture, and lets the world grow. *)
Definition careful {A} (m : ST canvas A) : Prop :=
  forall img w r img' w',
    m (img, w) = (r, (img', w')) ->
    (exists ops, img' = add_ops img ops /\ Forall upright ops) /\ grows w w'.

(** *** Paths *)

Definition no_slash (s : string) : bool :=
  Str.all (fun c => negb (Path.is_slash c)) s.

Definition starts_with_slash (s : string) : bool :=
  match s with
  | String c _ => Path.is_slash c
  | "" => false
  end.

Definition ends_with_slash (s : string) : bool :=
  starts_with_slash (Str.rev s).

(** *** What main returns *)

(** The output path of [main]: the one it is given, or the default one. *)
Definition output_path_of (image_path : string) (output_path pdf_name : option string)
  : string :=
  match output_path with
  | Some path => path
  | None => default_output_path image_path pdf_name
  end.

(** What the calls made for a page can be when the page fails: none, or
    the one to the vision model. *)
Definition asked_at_most_once (image_path : string) (w w' : world) : Prop :=
  detections (remote_calls w') = detections (remote_calls w)
  \/ detections (remote_calls w')
     = (detections (remote_calls w) ++ [image_path])%list.

Module Bare.

(** A machine on which Arial is the only font installed. *)
Definition arial_only (file : option string) (size : Z) : result font :=
  match file with
  | Some path =>
      if String.eqb path "/Library/Fonts/Arial.ttf"
      then Ok {| font_file := file; font_size := size |}
      else Raise OSError
  | None => Raise OSError
  end.

Definition machine : env :=
  {| api_key := Some "sk-demo";
     libm_pow_half := Float.sqrt;
     json_loads := Json.loads;
     literal_eval := fun _ => Raise SyntaxError;
     truetype := arial_only;
     detection_service := Demo.detect;
     translation_service := Demo.translate;
     write_failure := fun _ => None;
     display_failure := Demo.display |}.

End Bare.

Module Greeting.

(** A record whose text the demo translation service knows. *)
Definition entries : list (string * pyval) :=
  [("bbox_2d", VList [VInt 100; VInt 200; VInt 500; VInt 260]);
   ("text_content", VStr "ni hao")].

End Greeting.

(** *** The pages of a document *)

(** The name of a document without directory and extension. *)
Definition stem (pdf_path : string) : string :=
  fst (Path.splitext (Path.basename pdf_path)).


(** The path of the image of page [i], counted from 0. *)
Definition page_path (output_dir pdf_filename : string) (i : nat) : string :=
  Path.join output_dir (page_image_name pdf_filename i).

(** The paths of the images of [n] pages, from page [first] on. *)
Definition page_paths (output_dir pdf_filename : string) (first n : nat) : list string :=
  List.map (page_path output_dir pdf_filename) (seq first n).

(** *** The images that make up a document *)






Module Trio.

(** The images of a document of three pages, the last one listed first;
    the vision model finds no text on them. *)
Definition listed : list string :=
  [ page_path "imgs/deck" "deck" 2; page_path "imgs/deck" "deck" 0;
    page_path "imgs/deck" "deck" 1 ].

Definition disk : world :=
  {| files := list_to_map (List.map (fun p => (p, Demo.page p 1000 800)) listed);
     remote_calls := [] |}.

End Trio.

(** *** At the limits of the interpreter and of the libraries *)

(** A run of [n] sevens. *)
Fixpoint sevens (n : nat) : string :=
  match n with
  | O => ""
  | S n' => String "7" (sevens n')
  end.

(** The longest run of digits [int] takes, and the shortest it refuses. *)
Definition longest_number : string := sevens (N.to_nat 4300).
Definition too_long_a_number : string := sevens (N.to_nat 4301).

Module Linked.

(** The vision model answers with a sentence that starts with [http]. *)
Definition answering : env :=
  {| api_key := Some "sk-demo";
     libm_pow_half := Float.sqrt;
     json_loads := Json.loads;
     literal_eval := fun _ => Raise SyntaxError;
     truetype := fun file size => Ok {| font_file := file; font_size := size |};
     detection_service := fun _ => Ok "http is used on this slide";
     translation_service := Demo.translate;
     write_failure := fun _ => None;
     display_failure := Demo.display |}.

End Linked.

(** * Checks of the model on concrete inputs *)

Example natural_sort_key_ex :
  natural_sort_key "Page_10.png" = Ok [KText "page_"; KInt 10; KText ".png"].
Proof. reflexivity. Qed.

Example sorted_pages_ex :
  sorted_natural ["page_2"; "page_10"; "page_1"] = Ok ["page_1"; "page_2"; "page_10"].
Proof. reflexivity. Qed.

Example smart_resize_in_range :
  smart_resize Float.sqrt 800 1000 min_pixels max_pixels = Ok (800, 1000).
Proof. reflexivity. Qed.

Example smart_resize_up :
  smart_resize Float.sqrt 300 400 min_pixels max_pixels = Ok (548, 731).
Proof. vm_compute. reflexivity. Qed.

Example smart_resize_down :
  smart_resize Float.sqrt 3000 4000 min_pixels max_pixels = Ok (1097, 1463).
Proof. vm_compute. reflexivity. Qed.

Example findall_boxes_ex :
  findall_boxes ("garbage {" ++ q "bbox_2d" ++ ": [1, 2,3 ,4], " ++ q "text_content"
                 ++ ":" ++ q "hi" ++ "} trailing " ++ q "bbox_2d" ++ ":[5],"
                 ++ q "text_content" ++ ": " ++ q "" ++ "...")
  = [["1, 2,3 ,4"; "hi"]; ["5"; ""]].
Proof. vm_compute. reflexivity. Qed.

Example splitext_ex :
  Path.splitext "imgs/doc.v2/doc.v2_page_3.png" = ("imgs/doc.v2/doc.v2_page_3", ".png")
  /\ Path.splitext "dir/.hidden" = ("dir/.hidden", "")
  /\ Path.basename "imgs/doc/doc_page_3.png" = "doc_page_3.png"
  /\ Path.dirname "imgs/doc/doc_page_3.png" = "imgs/doc"
  /\ Path.dirname "/doc.png" = "/"
  /\ Path.join "outputs" "doc" = "outputs/doc"
  /\ Path.join "" "doc_translated.png" = "doc_translated.png".
Proof. vm_compute. repeat split. Qed.

Example json_loads_ex :
  Json.loads ("[{" ++ q "bbox_2d" ++ ": [1, 2, -3, 40], " ++ q "text_content"
              ++ ": " ++ q "hello" ++ "}, {}, [], null, true]" ++ Str.nl)
  = Ok (VList [VDict [("bbox_2d", VList [VInt 1; VInt 2; VInt (-3); VInt 40]);
                      ("text_content", VStr "hello")];
               VDict []; VList []; VNone; VBool true]).
Proof. vm_compute. reflexivity. Qed.

Example json_loads_rejects :
  Json.loads "[1, 2" = Raise JSONDecodeError
  /\ Json.loads (q "bbox_2d" ++ ": [1]") = Raise JSONDecodeError
  /\ Json.loads "[01]" = Raise JSONDecodeError
  /\ Json.loads "" = Raise JSONDecodeError.
Proof. vm_compute. repeat split. Qed.

Example main_page1 :
  let r := main Demo.configured Demo.page1 None (Some "deck") Demo.disk in
  fst r = Ok "outputs/deck/deck_page_1_translated.png"
  /\ drawn_on r "outputs/deck/deck_page_1_translated.png"
     = Some [Rectangle 100 200 500 260; Text 100 260 "hello" Demo.noto]
  /\ remote_calls (snd r) = [Detection Demo.page1; Translation (VStr "ni hao")].
Proof. vm_compute. repeat split. Qed.

Example re_split_digits_ex :
  re_split_digits "12ab3" = [""; "12"; "ab"; "3"; ""]
  /\ re_split_digits "page" = ["page"]
  /\ re_split_digits "" = [""].
Proof. repeat split. Qed.

Example py_int_ex :
  py_int " +1_000 " = Ok 1000
  /\ py_int "-7" = Ok (-7)
  /\ py_int "1.5" = Raise ValueError
  /\ py_int "1__0" = Raise ValueError
  /\ py_int "" = Raise ValueError.
Proof. vm_compute. repeat split. Qed.

(** [int] takes 4300 digits and refuses 4301; so does the key of a name
    with such a run, and the sort of the page images under a directory of
    that name. *)
Example py_int_limit_ex :
  is_Ok (py_int longest_number) = true
  /\ py_int too_long_a_number = Raise ValueError
  /\ is_Ok (natural_sort_key ("page_" ++ longest_number ++ ".png")) = true
  /\ natural_sort_key ("page_" ++ too_long_a_number ++ ".png") = Raise ValueError
  /\ sorted_natural [Path.join too_long_a_number "deck_page_1.png"] = Raise ValueError.
Proof. vm_compute. repeat split. Qed.

Example parse_json_ex :
  parse_json ("Here you go:" ++ Str.nl ++ "```json" ++ Str.nl ++ "[1," ++ Str.nl
              ++ " 2]" ++ Str.nl ++ "```" ++ Str.nl ++ "Bye.")
  = "[1," ++ Str.nl ++ " 2]" ++ Str.nl
  /\ parse_json "[1, 2]" = "[1, 2]"
  /\ Str.replace_colon_eq "a:=b::==" = "a:b::=".
Proof. vm_compute. repeat split. Qed.

(** The whole run: both pages come back in the output document, the first
    with the one box the vision model found, when detection answers for
    every page; the run exits with status 1 when it fails for one. *)
Example cli_main_ex :
  let quiet := cli_main Appendix.silent Office.args Office.disk in
  fst quiet = Returned
  /\ Office.pdf_at quiet "outputs/deck/deck_translated.pdf" = Some [[]; []]
  /\ fst (cli_main Demo.configured Office.args Office.disk) = Exit 1.
Proof. vm_compute. repeat split. Qed.

(** [os.makedirs] refuses the empty name: a document written under a bare
    file name, pages converted into the empty directory and a run with the
    empty output directory all raise before anything is written. *)
Example makedirs_empty_ex :
  images_to_pdf Appendix.silent [Demo.page1] "deck.pdf" Demo.disk
  = (Raise OSError, Demo.disk)
  /\ convert_pdf_to_images Appendix.silent Office.document "" Office.disk
     = (Raise OSError, Office.disk)
  /\ cli_main Appendix.silent
       {| pdf_path := Some Office.document; output := ""; web := false |} Office.disk
     = (Uncaught OSError, Office.disk).
Proof. vm_compute. repeat split. Qed.

(** An answer that [display(Markdown(...))] refuses ends the page: the
    handler of [main] raises [NameError], nothing is written, and the one
    call to the vision model was made. *)
Example display_failure_ex :
  main Linked.answering Demo.page1 None (Some "deck") Demo.disk
  = (Raise (NameError "shutil"),
     {| files := files Demo.disk; remote_calls := [Detection Demo.page1] |}).
Proof. vm_compute. reflexivity. Qed.

(** A file that is no image is still read and sent to the vision model,
    when its name has an accepted suffix. *)
Example encode_image_ex :
  inference_with_api Appendix.silent "scan.png"
    {| files := {[ "scan.png" := PdfFile [] ]}; remote_calls := [] |}
  = (Ok "[]", {| files := {[ "scan.png" := PdfFile [] ]};
                 remote_calls := [Detection "scan.png"] |}).
Proof. vm_compute. reflexivity. Qed.

(** * Properties *)

(** ** translateWithAPI without a credential *)

(** C10. With MODELSCOPE_API_KEY unset, [translateWithAPI] returns its
    input string unchanged: it does not raise, and the world it leaves is
    the world it found, so no call reached the remote translation service. *)
Theorem translateWithAPI_unset_key_identity :
  forall (E : env) (raw : string) (w : world),
    api_key E = None ->
    translateWithAPI E (VStr raw) w = (Ok (VStr raw), w).
Proof.
  intros E raw w Hkey. unfold translateWithAPI, key_missing.
  rewrite Hkey. reflexivity.
Qed.

(** The identity at the demo text, in the environment without a key. *)
Lemma translateWithAPI_unset_key_identity_witness :
  api_key Demo.unconfigured = None
  /\ translateWithAPI Demo.unconfigured (VStr "ni hao") Demo.disk
     = (Ok (VStr "ni hao"), Demo.disk).
Proof.
  split; [reflexivity |].
  apply (translateWithAPI_unset_key_identity Demo.unconfigured "ni hao" Demo.disk).
  reflexivity.
Defined.

Lemma translateWithAPI_with_key (E : env) (raw : pyval) (w : world) :
  key_missing E = false ->
  translateWithAPI E raw w
  = (translation_service E raw,
     {| files := files w; remote_calls := remote_calls w ++ [Translation raw] |}).
Proof.
  intros Hkey. unfold translateWithAPI. rewrite Hkey. reflexivity.
Qed.

Lemma translateWithAPI_missing_key (E : env) (raw : pyval) (w : world) :
  key_missing E = true -> translateWithAPI E raw w = (Ok raw, w).
Proof.
  intros Hkey. unfold translateWithAPI. rewrite Hkey. reflexivity.
Qed.

Lemma inference_missing_key (E : env) (image_path : string) (w : world) :
  key_missing E = true -> inference_with_api E image_path w = (Raise ValueError, w).
Proof.
  intros Hkey. unfold inference_with_api. rewrite Hkey. reflexivity.
Qed.

(** ** The credential check of the command line *)

(** C9, counterexample.  The translation call does react to the missing
    credential: without one it hands the text back and contacts nobody,
    with one it contacts the service. *)
Lemma translation_call_checks_credential :
  ~ ignores_credential (fun E => translateWithAPI E (VStr "ni hao")).
Proof.
  intros H.
  specialize (H Demo.configured "sk-demo" Demo.disk).
  apply (f_equal (fun r => List.length (remote_calls (snd r)))) in H.
  vm_compute in H. discriminate H.
Qed.

(** C9, amended.  Without a credential the command-line run exits with
    status 1 before any work on a page: the world is untouched, so nothing
    was written and no service was called.  The per-page calls check the
    credential on their own as well: the translation call hands its input
    back and the detection call raises [ValueError], both without a remote
    call. *)
Theorem missing_credential_stops_the_run :
  forall (E : env) (args : cli_args) (w : world),
    key_missing E = true ->
    cli_main E args w = (Exit 1, w)
    /\ (forall raw w', translateWithAPI E raw w' = (Ok raw, w'))
    /\ (forall image_path w',
          inference_with_api E image_path w' = (Raise ValueError, w')).
Proof.
  intros E args w Hkey. split; [| split].
  - unfold cli_main, check_environment. rewrite Hkey. reflexivity.
  - intros raw w'. apply translateWithAPI_missing_key, Hkey.
  - intros image_path w'. apply inference_missing_key, Hkey.
Qed.

(** The run of the demo document without a key. *)
Lemma missing_credential_stops_the_run_witness :
  key_missing Demo.unconfigured = true
  /\ cli_main Demo.unconfigured demo_args Demo.disk = (Exit 1, Demo.disk).
Proof.
  split; [reflexivity |].
  apply (missing_credential_stops_the_run Demo.unconfigured demo_args Demo.disk).
  reflexivity.
Defined.

(** ** The fallback of main *)

Lemma try_except_raise {S A} (body : ST S A) (handler : exn -> ST S A) (s s' : S) (e : exn) :
  body s = (Raise e, s') ->
  try_except body any_exception handler s = handler e s'.
Proof. intros H. unfold try_except. rewrite H. reflexivity. Qed.

Lemma try_except_ok {S A} (body : ST S A) (handles : exn -> bool)
  (handler : exn -> ST S A) (s s' : S) (a : A) :
  body s = (Ok a, s') ->
  try_except body handles handler s = (Ok a, s').
Proof. intros H. unfold try_except. rewrite H. reflexivity. Qed.

(** The handler of [main] never gets to its copy: [shutil] is not a name
    of the module. *)
Lemma main_except_raises (E : env) (image_path : string) (pdf_name : option string)
  (s : frame) :
  exists e s', main_except E image_path pdf_name s = (Raise e, s').
Proof.
  unfold main_except, bind.
  destruct (resolve_output_path E image_path pdf_name s) as [[p | e] s1].
  - exists (NameError "shutil"), s1. reflexivity.
  - exists e, s1. reflexivity.
Qed.

(** Whenever the [try] block of [main] raises, [main] raises as well. *)
Lemma main_propagates (E : env) (image_path : string) (output_path pdf_name : option string)
  (w : world) (e : exn) (s : frame) :
  main_try E image_path pdf_name (output_path, w) = (Raise e, s) ->
  exists e', fst (main E image_path output_path pdf_name w) = Raise e'.
Proof.
  intros Hbody. unfold main.
  rewrite (try_except_raise _ _ _ _ _ Hbody).
  destruct (main_except_raises E image_path pdf_name s) as (e' & [o w'] & He).
  rewrite He. exists e'. reflexivity.
Qed.

(** C1, at the failing input.  Detection raises on page 2; [main] then
    raises [NameError] for [shutil] instead of returning the path of a copy,
    and leaves no output file behind. *)
Theorem main_detection_failure_raises :
  main Demo.configured Demo.page2 None (Some "deck") Demo.disk
  = (Raise (NameError "shutil"),
     {| files := files Demo.disk; remote_calls := [Detection Demo.page2] |}).
Proof. vm_compute. reflexivity. Qed.

(** ** natural_sort_key on digits that are not decimal *)

(** C3, at the failing input.  [re.split] leaves the superscript in a text
    piece, [isdigit] takes that piece for a number and [int] rejects it: the
    key of such a name is not defined, and sorting a list that holds one
    raises [ValueError]. *)
Theorem natural_sort_key_superscript_raises :
  re_split_digits superscript_two = [superscript_two]
  /\ Str.isdigit superscript_two = true
  /\ natural_sort_key superscript_two = Raise ValueError
  /\ natural_sort_key (superscript_page "1") = Raise ValueError
  /\ sorted_natural [superscript_page "2"; superscript_page "1"] = Raise ValueError.
Proof. vm_compute. repeat split. Qed.

(** ** smart_resize against its contract *)

(** [int(x)] truncates. *)
Lemma to_int_truncates (x : spec_float) : Float.to_int x = truncated x.
Proof.
  destruct x as [s | s | | s m e]; try reflexivity.
  unfold Float.to_int, truncated. f_equal.
  destruct (Z.leb_spec 0 e) as [He | He].
  - rewrite Z.max_l, Z.max_r by lia. rewrite Z.pow_0_r, Z.quot_1_r.
    rewrite Z.shiftl_mul_pow2 by lia.
    destruct s; simpl cond_Zopp; lia.
  - rewrite Z.max_r, Z.max_l by lia. rewrite Z.pow_0_r, Z.mul_1_r.
    rewrite Z.shiftr_div_pow2 by lia.
    assert (Hp : 0 < 2 ^ (- e)) by (apply Z.pow_pos_nonneg; lia).
    destruct s; simpl cond_Zopp.
    + change (Z.neg m) with (- Z.pos m).
      rewrite Z.quot_opp_l by lia. rewrite Z.quot_div_nonneg by lia. reflexivity.
    + rewrite Z.quot_div_nonneg by lia. reflexivity.
Qed.

Lemma scale_dim_truncates (dim : Z) (scale : spec_float) :
  scale_dim dim scale = scaled_and_truncated dim scale.
Proof.
  unfold scale_dim, scaled_and_truncated.
  destruct (Float.of_int dim); simpl; [apply to_int_truncates | reflexivity].
Qed.

(** C4. For positive dimensions and bounds [0 < min_pixels <= max_pixels]:
    inside the interval the dimensions come back unchanged; below
    [min_pixels] both are scaled by the square root of
    [min_pixels / (height * width)], above [max_pixels] by that of
    [max_pixels / (height * width)], each product truncated independently. *)
Theorem smart_resize_contract :
  forall (pow : spec_float -> spec_float) (height width min_pixels max_pixels : Z),
    0 < height -> 0 < width -> 0 < min_pixels -> min_pixels <= max_pixels ->
    (min_pixels <= height * width <= max_pixels ->
       smart_resize pow height width min_pixels max_pixels = Ok (height, width))
    /\ (height * width < min_pixels ->
          smart_resize pow height width min_pixels max_pixels
          = scaled_by_sqrt pow height width min_pixels)
    /\ (max_pixels < height * width ->
          smart_resize pow height width min_pixels max_pixels
          = scaled_by_sqrt pow height width max_pixels).
Proof.
  intros pow h w mn mx Hh Hw Hmn Hle. unfold smart_resize, scaled_by_sqrt.
  repeat split; intros Hcur.
  - destruct Hcur as [H1 H2].
    apply Z.leb_le in H1. apply Z.leb_le in H2. rewrite H1, H2. reflexivity.
  - assert (H1 : (mn <=? h * w)%Z = false) by (apply Z.leb_gt; lia).
    assert (H2 : (h * w <? mn)%Z = true) by (apply Z.ltb_lt; lia).
    rewrite H1, H2. cbn [andb].
    destruct (Float.int_truediv mn (h * w)) as [ratio |]; [| reflexivity].
    cbn [rbind].
    destruct (Float.pow_half pow ratio) as [scale |]; [| reflexivity].
    cbn [rbind]. rewrite !scale_dim_truncates. reflexivity.
  - assert (H1 : (h * w <=? mx)%Z = false) by (apply Z.leb_gt; lia).
    assert (H2 : (h * w <? mn)%Z = false) by (apply Z.ltb_ge; lia).
    rewrite H1, H2, andb_false_r.
    destruct (Float.int_truediv mx (h * w)) as [ratio |]; [| reflexivity].
    cbn [rbind].
    destruct (Float.pow_half pow ratio) as [scale |]; [| reflexivity].
    cbn [rbind]. rewrite !scale_dim_truncates. reflexivity.
Qed.

(** The three cases at the default bounds: a page inside the interval,
    one below it and one above it. *)
Lemma smart_resize_contract_witness :
  smart_resize Float.sqrt 800 1000 min_pixels max_pixels = Ok (800, 1000)
  /\ smart_resize Float.sqrt 300 400 min_pixels max_pixels
     = scaled_by_sqrt Float.sqrt 300 400 min_pixels
  /\ scaled_by_sqrt Float.sqrt 300 400 min_pixels = Ok (548, 731)
  /\ smart_resize Float.sqrt 3000 4000 min_pixels max_pixels
     = scaled_by_sqrt Float.sqrt 3000 4000 max_pixels
  /\ scaled_by_sqrt Float.sqrt 3000 4000 max_pixels = Ok (1097, 1463).
Proof.
  split; [| split; [| split; [| split]]].
  - apply (smart_resize_contract Float.sqrt 800 1000 min_pixels max_pixels);
      unfold min_pixels, max_pixels; lia.
  - apply (smart_resize_contract Float.sqrt 300 400 min_pixels max_pixels);
      unfold min_pixels, max_pixels; lia.
  - vm_compute. reflexivity.
  - apply (smart_resize_contract Float.sqrt 3000 4000 min_pixels max_pixels);
      unfold min_pixels, max_pixels; lia.
  - vm_compute. reflexivity.
Defined.

(** ** The drawing loop, record by record *)

Lemma add_ops_nil (img : picture) : add_ops img [] = img.
Proof. destruct img. unfold add_ops. simpl. rewrite app_nil_r. reflexivity. Qed.

Lemma add_ops_app (img : picture) (a b : list draw_op) :
  add_ops (add_ops img a) b = add_ops img (a ++ b).
Proof. unfold add_ops. simpl. rewrite app_assoc. reflexivity. Qed.

Lemma draw_add (op : draw_op) (img : picture) (w : world) :
  draw op (img, w) = (Ok tt, (add_ops img [op], w)).
Proof. reflexivity. Qed.

Lemma draw_translated (E : env) (f : font) (x y : Z) (t : string) (img : picture)
  (w w1 : world) (answer : result pyval) :
  translateWithAPI E (VStr t) w = (answer, w1) ->
  try_except
    (translated <~ lift_world (translateWithAPI E (VStr t)) ;;
     draw_text x y translated f)%st
    any_exception (fun _ => draw_text x y (VStr t) f) (img, w)
  = (Ok tt, (add_ops img [Text x y (shown_text answer t) f], w1)).
Proof.
  intros Htr. unfold try_except, bind, lift_world. simpl. rewrite Htr.
  destruct answer as [v | e]; simpl; [| reflexivity].
  destruct v; reflexivity.
Qed.

Lemma checked_bbox_dict (entries : list (string * pyval)) (items : list pyval) :
  Py.lookup "bbox_2d" entries = Some (VList items) ->
  (4 <= List.length items)%nat ->
  checked_bbox (VDict entries) = Ok (Some (VList items)).
Proof.
  intros Hl Hn. unfold checked_bbox. simpl. rewrite Hl. simpl.
  destruct (Z.ltb_spec (Z.of_nat (List.length items)) 4); [lia | reflexivity].
Qed.

Lemma draw_box_skips (E : env) (f : font) (width height input_width input_height : Z)
  (r : pyval) (s : canvas) :
  bbox_malformed r = true ->
  draw_box E f width height input_width input_height r s = (Ok tt, s).
Proof.
  intros Hbad. destruct r as [| | | | | | | entries]; try discriminate Hbad.
  unfold draw_box, bind, lift_result, checked_bbox. simpl in *.
  destruct (Py.lookup "bbox_2d" entries) as [b |] eqn:Hl; [| reflexivity].
  simpl. destruct b; try reflexivity. simpl.
  apply Nat.ltb_lt in Hbad.
  destruct (Z.ltb_spec (Z.of_nat (List.length items)) 4); [reflexivity | lia].
Qed.

Lemma text_to_draw_field (entries : list (string * pyval)) (t : option string) :
  text_field entries = Some t ->
  text_to_draw (VDict entries)
  = Ok (match t with
        | Some (String c s) => Some (VStr (String c s))
        | _ => None
        end).
Proof.
  unfold text_field, text_to_draw. simpl.
  destruct (Py.lookup "text_content" entries) as [v |] eqn:Hl; simpl.
  - destruct v; intros H; try discriminate H. injection H as <-.
    destruct s; reflexivity.
  - intros H. injection H as <-. reflexivity.
Qed.

(** What [draw_box] does with a record that passes the test and whose
    corners can be computed. *)
Lemma draw_box_draws (E : env) (f : font) (width height input_width input_height : Z)
  (entries : list (string * pyval)) (items : list pyval) (t : option string)
  (x1 y1 x2 y2 : Z) (img : picture) (w : world) :
  Py.lookup "bbox_2d" entries = Some (VList items) ->
  (4 <= List.length items)%nat ->
  box_corners (VList items) width height input_width input_height = Ok (x1, y1, x2, y2) ->
  text_field entries = Some t ->
  draw_box E f width height input_width input_height (VDict entries) (img, w)
  = match t with
    | Some (String c s) =>
        let r := translateWithAPI E (VStr (String c s)) w in
        (Ok tt, (add_ops img [Rectangle x1 y1 x2 y2;
                              Text x1 y2 (shown_text (fst r) (String c s)) f], snd r))
    | _ => (Ok tt, (add_ops img [Rectangle x1 y1 x2 y2], w))
    end.
Proof.
  intros Hl Hn Hc Ht. unfold draw_box.
  unfold bind at 1. unfold lift_result at 1.
  rewrite (checked_bbox_dict _ _ Hl Hn).
  unfold bind at 1. unfold lift_result at 1. rewrite Hc.
  unfold bind at 1. rewrite draw_add.
  unfold bind at 1. unfold lift_result at 1.
  rewrite (text_to_draw_field _ _ Ht).
  destruct t as [[| c s] |]; try reflexivity.
  destruct (translateWithAPI E (VStr (String c s)) w) as [answer w1] eqn:Htr.
  rewrite (draw_translated E f x1 y2 (String c s) _ w w1 answer Htr).
  rewrite add_ops_app. reflexivity.
Qed.

(** C8. For a record that passes the test, with corners [(x1, y1, x2, y2)]
    and a non-empty text: when the translation call raises, the box is
    outlined and the original text is drawn at [(x1, y2)], where the
    translation would have gone; the loop then goes on with the records
    after it. *)
Theorem translation_failure_draws_original :
  forall (E : env) (f : font) (width height input_width input_height : Z)
         (entries : list (string * pyval)) (items : list pyval)
         (c : ascii) (s : string) (x1 y1 x2 y2 : Z)
         (img : picture) (w w1 : world) (e : exn) (rest : list pyval),
    Py.lookup "bbox_2d" entries = Some (VList items) ->
    (4 <= List.length items)%nat ->
    box_corners (VList items) width height input_width input_height
    = Ok (x1, y1, x2, y2) ->
    Py.lookup "text_content" entries = Some (VStr (String c s)) ->
    translateWithAPI E (VStr (String c s)) w = (Raise e, w1) ->
    let body := draw_box E f width height input_width input_height in
    let after := (add_ops img [Rectangle x1 y1 x2 y2; Text x1 y2 (String c s) f], w1) in
    body (VDict entries) (img, w) = (Ok tt, after)
    /\ for_each body (VDict entries :: rest) (img, w) = for_each body rest after.
Proof.
  intros E f width height iw ih entries items c s x1 y1 x2 y2 img w w1 e rest
    Hl Hn Hc Ht Htr body after.
  assert (Hbox : body (VDict entries) (img, w) = (Ok tt, after)).
  { unfold body.
    rewrite (draw_box_draws E f width height iw ih entries items
               (Some (String c s)) x1 y1 x2 y2 img w Hl Hn Hc).
    - rewrite Htr. reflexivity.
    - unfold text_field. rewrite Ht. reflexivity. }
  split; [exact Hbox |].
  simpl for_each. unfold bind at 1. rewrite Hbox. reflexivity.
Qed.

(** A record whose translation fails in the demo environment. *)
Lemma translation_failure_draws_original_witness :
  draw_box Demo.configured Demo.noto 1000 800 1000 800 (VDict Farewell.entries)
    (Farewell.blank, Demo.disk)
  = (Ok tt, (add_ops Farewell.blank
               [Rectangle 100 200 500 260; Text 100 260 "zai jian" Demo.noto],
             Farewell.called)).
Proof.
  apply (translation_failure_draws_original Demo.configured Demo.noto
           1000 800 1000 800 Farewell.entries
           [VInt 100; VInt 200; VInt 500; VInt 260] "z" "ai jian"
           100 200 500 260 Farewell.blank Demo.disk Farewell.called RemoteError []).
  - reflexivity.
  - simpl. lia.
  - vm_compute. reflexivity.
  - reflexivity.
  - reflexivity.
Defined.

(** ** The parsing chain *)

Lemma plot_with_image (E : env) (image_path response : string)
  (input_width input_height : Z) (img : picture) (w : world) :
  files w !! image_path = Some (ImageFile img) ->
  plot_text_bounding_boxes E image_path response input_width input_height w
  = let r := try_except
               (plot_body E response (fst (pic_size img)) (snd (pic_size img))
                  input_width input_height)
               any_exception (fun _ => ret tt) (img, w) in
    (Ok (fst (snd r)), snd (snd r)).
Proof.
  intros Hf. unfold plot_text_bounding_boxes, bind, image_open. rewrite Hf.
  destruct (pic_size img) as [width height]. simpl fst. simpl snd.
  destruct (try_except _ _ _ _) as [r [img' w']]. reflexivity.
Qed.

(** Once the image is open, [plot_text_bounding_boxes] returns. *)
Lemma plot_returns (E : env) (image_path response : string)
  (input_width input_height : Z) (img : picture) (w : world) :
  files w !! image_path = Some (ImageFile img) ->
  exists img' w',
    plot_text_bounding_boxes E image_path response input_width input_height w
    = (Ok img', w').
Proof.
  intros Hf. rewrite (plot_with_image _ _ _ _ _ _ _ Hf). eauto.
Qed.

Lemma plot_unparsed (E : env) (image_path response : string)
  (input_width input_height : Z) (img : picture) (w : world) :
  files w !! image_path = Some (ImageFile img) ->
  snd (parse_boxes E (parse_json response)) = None ->
  plot_text_bounding_boxes E image_path response input_width input_height w
  = (Ok img, w).
Proof.
  intros Hf Hp. rewrite (plot_with_image _ _ _ _ _ _ _ Hf).
  unfold try_except, plot_body, bind, lift_result.
  destruct (load_font E) as [f | e]; [| reflexivity].
  rewrite Hp. reflexivity.
Qed.

Ltac in_order :=
  repeat first [apply sublist_nil_l | apply sublist_skip | apply sublist_cons].

(** The chain as the code runs it: the strict parse alone when it
    succeeds; the regular expression when the strict parse raised
    [JSONDecodeError]; the literal evaluation when the regular expression
    step raised.  The strategies tried are always taken in that order.  When
    the last strategy fails too there are no records: the page image comes
    back as it was opened, nothing else has changed, and no exception leaves
    [plot_text_bounding_boxes]. *)
Lemma parse_boxes_cases (E : env) (image_path response : string)
  (input_width input_height : Z) (img : picture) (w : world) :
  files w !! image_path = Some (ImageFile img) ->
  let json_data := parse_json response in
  let cleaned := Str.replace_colon_eq json_data in
  (forall v, json_loads E cleaned = Ok v ->
             parse_boxes E json_data = ([StrictJson], Some v))
  /\ (forall v, json_loads E cleaned = Raise JSONDecodeError ->
                regex_boxes cleaned = Ok v ->
                parse_boxes E json_data = ([StrictJson; RegexScan], Some v))
  /\ (forall e v, json_loads E cleaned = Raise JSONDecodeError ->
                  regex_boxes cleaned = Raise e ->
                  literal_eval E cleaned = Ok v ->
                  parse_boxes E json_data
                  = ([StrictJson; RegexScan; LiteralEval], Some v))
  /\ (forall e e', json_loads E cleaned = Raise JSONDecodeError ->
                   regex_boxes cleaned = Raise e ->
                   literal_eval E cleaned = Raise e' ->
                   parse_boxes E json_data
                   = ([StrictJson; RegexScan; LiteralEval], None))
  /\ sublist (fst (parse_boxes E json_data)) [StrictJson; RegexScan; LiteralEval]
  /\ (snd (parse_boxes E json_data) = None ->
      plot_text_bounding_boxes E image_path response input_width input_height w
      = (Ok img, w))
  /\ (exists img' w',
        plot_text_bounding_boxes E image_path response input_width input_height w
        = (Ok img', w')).
Proof.
  intros Hf json_data cleaned.
  unfold parse_boxes, strict_or_regex. fold cleaned.
  repeat split.
  - intros v Hj. rewrite Hj. reflexivity.
  - intros v Hj Hr. rewrite Hj. simpl. rewrite Hr. reflexivity.
  - intros e v Hj Hr Hl. rewrite Hj. simpl. rewrite Hr, Hl. reflexivity.
  - intros e e' Hj Hr Hl. rewrite Hj. simpl. rewrite Hr, Hl. reflexivity.
  - destruct (json_loads E cleaned) as [v | e].
    + simpl. in_order.
    + destruct (is_JSONDecodeError e).
      * destruct (regex_boxes cleaned).
        -- simpl. in_order.
        -- destruct (literal_eval E cleaned); simpl; in_order.
      * destruct (literal_eval E cleaned); simpl; in_order.
  - intros Hnone.
    apply (plot_unparsed E image_path response input_width input_height img w Hf Hnone).
  - apply (plot_returns E image_path response input_width input_height img w Hf).
Qed.

(** An answer on which every strategy fails. *)
Example garbled_answer_is_left_alone :
  parse_boxes Demo.configured (parse_json Garbled.response)
  = ([StrictJson; RegexScan; LiteralEval], None)
  /\ plot_text_bounding_boxes Demo.configured Demo.page1 Garbled.response 1000 800 Demo.disk
     = (Ok Garbled.blank, Demo.disk).
Proof. split; vm_compute; reflexivity. Qed.

(** With no records there is nothing to draw. *)
Lemma plot_no_records (E : env) (image_path response : string)
  (input_width input_height : Z) (img : picture) (w : world) :
  files w !! image_path = Some (ImageFile img) ->
  snd (parse_boxes E (parse_json response)) = Some (VList []) ->
  plot_text_bounding_boxes E image_path response input_width input_height w
  = (Ok img, w).
Proof.
  intros Hf Hp. rewrite (plot_with_image _ _ _ _ _ _ _ Hf).
  unfold try_except, plot_body, bind, lift_result.
  destruct (load_font E) as [f | e]; [| reflexivity].
  rewrite Hp. reflexivity.
Qed.

(** C7.  The literal evaluation does not follow a scan that found
    nothing.  When the strict parse raises [JSONDecodeError] and the regular
    expression matches nowhere in the text, the chain ends after the second
    strategy with an empty list of records: [ast.literal_eval] is not
    attempted, whatever it would return, and the page image comes back as it
    was opened. *)
Theorem empty_scan_ends_the_chain :
  forall (E : env) (image_path response : string) (input_width input_height : Z)
         (img : picture) (w : world),
    files w !! image_path = Some (ImageFile img) ->
    let cleaned := Str.replace_colon_eq (parse_json response) in
    json_loads E cleaned = Raise JSONDecodeError ->
    findall_boxes cleaned = [] ->
    parse_boxes E (parse_json response) = ([StrictJson; RegexScan], Some (VList []))
    /\ plot_text_bounding_boxes E image_path response input_width input_height w
       = (Ok img, w).
Proof.
  intros E image_path response iw ih img w Hf cleaned Hjson Hscan.
  assert (Hp : parse_boxes E (parse_json response)
               = ([StrictJson; RegexScan], Some (VList []))).
  { unfold parse_boxes, strict_or_regex, regex_boxes. fold cleaned.
    rewrite Hjson. simpl. rewrite Hscan. reflexivity. }
  split; [exact Hp |].
  apply (plot_no_records E image_path response iw ih img w Hf).
  rewrite Hp. reflexivity.
Qed.

(** The answer in literal syntax: [ast.literal_eval] reads its one record,
    and the page comes back without an outline. *)
Lemma empty_scan_ends_the_chain_witness :
  literal_eval Literal.reader (Str.replace_colon_eq (parse_json Literal.response))
  = Ok (VList [Literal.record])
  /\ parse_boxes Literal.reader (parse_json Literal.response)
     = ([StrictJson; RegexScan], Some (VList []))
  /\ plot_text_bounding_boxes Literal.reader Demo.page1 Literal.response 1000 800 Demo.disk
     = (Ok Literal.blank, Demo.disk).
Proof.
  split; [reflexivity |].
  apply (empty_scan_ends_the_chain Literal.reader Demo.page1 Literal.response 1000 800
           Literal.blank Demo.disk).
  - vm_compute. reflexivity.
  - vm_compute. reflexivity.
  - vm_compute. reflexivity.
Defined.

(** ** Validation of the records *)

(** A box of five components breaks the invariant of the data model and
    is drawn all the same, from its first four components. *)
Lemma five_components_are_drawn :
  exactly_four_numbers Wide.record = false
  /\ draw_box Demo.configured Demo.noto 1000 800 1000 800 Wide.record
       (Wide.blank, Demo.disk)
     = (Ok tt, (add_ops Wide.blank [Rectangle 100 200 500 260], Demo.disk))
  /\ ~ skips_unless_four_numbers.
Proof.
  assert (Hdraw : draw_box Demo.configured Demo.noto 1000 800 1000 800 Wide.record
                    (Wide.blank, Demo.disk)
                  = (Ok tt, (add_ops Wide.blank [Rectangle 100 200 500 260], Demo.disk)))
    by (vm_compute; reflexivity).
  split; [reflexivity |]. split; [exact Hdraw |].
  intros Hclaim.
  specialize (Hclaim Demo.configured Demo.noto 1000 800 1000 800 Wide.record
                (Wide.blank, Demo.disk) eq_refl).
  rewrite Hdraw in Hclaim.
  apply (f_equal (fun r => List.length (pic_drawn (fst (snd r))))) in Hclaim.
  vm_compute in Hclaim. discriminate Hclaim.
Qed.

Lemma outline_malformed (width height input_width input_height : Z) (r : pyval) :
  bbox_malformed r = true -> outline width height input_width input_height r = None.
Proof.
  destruct r as [| | | | | | | entries]; try reflexivity.
  cbn -[Nat.leb Nat.ltb box_corners].
  destruct (Py.lookup "bbox_2d" entries) as [[| | | | | items | |] |]; try reflexivity.
  intros H. apply Nat.ltb_lt in H.
  destruct (text_field entries); [| reflexivity].
  destruct (Nat.leb_spec 4 (List.length items)); [lia | reflexivity].
Qed.

Lemma rectangles_add (img : picture) (ops : list draw_op) :
  rectangles (add_ops img ops) = (rectangles img ++ List.filter is_rectangle ops)%list.
Proof. unfold rectangles, add_ops. simpl. apply List.filter_app. Qed.

Lemma draw_box_outline (E : env) (f : font) (width height input_width input_height : Z)
  (r : pyval) (op : draw_op) (img : picture) (w : world) :
  outline width height input_width input_height r = Some op ->
  exists img' w',
    draw_box E f width height input_width input_height r (img, w) = (Ok tt, (img', w'))
    /\ rectangles img' = (rectangles img ++ [op])%list.
Proof.
  intros Hop.
  destruct r as [| | | | | | | entries]; try discriminate Hop.
  unfold outline in Hop.
  destruct (Py.lookup "bbox_2d" entries) as [[| | | | | items | |] |] eqn:Hl;
    try discriminate Hop.
  destruct (text_field entries) as [t |] eqn:Ht; try discriminate Hop.
  destruct (Nat.leb_spec 4 (List.length items)) as [Hn | Hn]; try discriminate Hop.
  destruct (box_corners (VList items) width height input_width input_height)
    as [[[[x1 y1] x2] y2] | e] eqn:Hc; try discriminate Hop.
  injection Hop as <-.
  rewrite (draw_box_draws E f width height input_width input_height entries items t
             x1 y1 x2 y2 img w Hl Hn Hc Ht).
  destruct t as [[| c s] |]; eexists; eexists; (split; [reflexivity |]);
    rewrite rectangles_add; reflexivity.
Qed.

(** The loop over records that are each either passed over or processed. *)
Lemma for_each_outlines (E : env) (f : font) (width height input_width input_height : Z)
  (boxes : list pyval) :
  Forall (fun r => bbox_malformed r = true
                   \/ is_Some (outline width height input_width input_height r)) boxes ->
  forall (img : picture) (w : world),
  exists img' w',
    for_each (draw_box E f width height input_width input_height) boxes (img, w)
    = (Ok tt, (img', w'))
    /\ rectangles img'
       = (rectangles img ++ omap (outline width height input_width input_height) boxes)%list.
Proof.
  induction 1 as [| r boxes Hr _ IH]; intros img w.
  - exists img, w. simpl. rewrite app_nil_r. split; reflexivity.
  - simpl for_each. unfold bind at 1.
    destruct Hr as [Hbad | [op Hop]].
    + rewrite (draw_box_skips E f _ _ _ _ r (img, w) Hbad).
      destruct (IH img w) as (img' & w' & Hrun & Hrects).
      exists img', w'. split; [exact Hrun |].
      rewrite Hrects. simpl. rewrite (outline_malformed _ _ _ _ r Hbad). reflexivity.
    + destruct (draw_box_outline E f _ _ _ _ r op img w Hop) as (img1 & w1 & Hbox & Hr1).
      rewrite Hbox.
      destruct (IH img1 w1) as (img' & w' & Hrun & Hrects).
      exists img', w'. split; [exact Hrun |].
      rewrite Hrects, Hr1. simpl. rewrite Hop. simpl.
      rewrite <- app_assoc. reflexivity.
Qed.

(** Records that are each passed over or outlined: the outlines on the
    returned image are those of the outlined records, in order, one for
    each, and no exception is raised. *)
Lemma outlined_records (E : env) (image_path response : string)
  (input_width input_height : Z) (img : picture) (w : world) (f : font)
  (boxes : list pyval) :
  files w !! image_path = Some (ImageFile img) ->
  load_font E = Ok f ->
  snd (parse_boxes E (parse_json response)) = Some (VList boxes) ->
  Forall (fun r => bbox_malformed r = true
                   \/ is_Some (outline (fst (pic_size img)) (snd (pic_size img))
                                 input_width input_height r)) boxes ->
  exists img' w',
    plot_text_bounding_boxes E image_path response input_width input_height w
    = (Ok img', w')
    /\ rectangles img'
       = (rectangles img
          ++ omap (outline (fst (pic_size img)) (snd (pic_size img))
                     input_width input_height) boxes)%list.
Proof.
  intros Hf Hfont Hparse Hall.
  rewrite (plot_with_image _ _ _ _ _ _ _ Hf).
  destruct (for_each_outlines E f _ _ input_width input_height boxes Hall img w)
    as (img' & w' & Hrun & Hrects).
  exists img', w'.
  assert (Hbody : plot_body E response (fst (pic_size img)) (snd (pic_size img))
                    input_width input_height (img, w)
                  = (Ok tt, (img', w'))).
  { unfold plot_body, bind, lift_result. rewrite Hfont, Hparse. simpl. exact Hrun. }
  unfold try_except. rewrite Hbody. simpl.
  split; [reflexivity | exact Hrects].
Qed.

(** Three records, the second without a bounding box: two outlines. *)
Example missing_box_is_passed_over :
  exists img' w',
    plot_text_bounding_boxes Demo.configured Demo.page1 Mixed.response 1000 800 Demo.disk
    = (Ok img', w')
    /\ rectangles img' = [Rectangle 100 200 500 260; Rectangle 650 100 700 300].
Proof. eexists. eexists. split; vm_compute; reflexivity. Qed.

(** The loop ends at the first record on which its body raises. *)
Lemma for_each_stops {S A} (body : A -> ST S unit) (before after : list A) (bad : A)
  (s s1 s2 : S) (e : exn) :
  for_each body before s = (Ok tt, s1) ->
  body bad s1 = (Raise e, s2) ->
  for_each body (before ++ bad :: after)%list s = (Raise e, s2).
Proof.
  revert s. induction before as [| x before IH]; intros s Hbefore Hbad.
  - cbn [for_each] in Hbefore. unfold ret in Hbefore. injection Hbefore as <-.
    cbn [app for_each]. unfold bind. rewrite Hbad. reflexivity.
  - cbn [app for_each] in *. unfold bind in *.
    destruct (body x s) as [[[] | e'] s'] eqn:Hx; [| discriminate Hbefore].
    apply (IH s' Hbefore Hbad).
Qed.

(** The components of a bounding box are not tested to be numbers: a
    record whose box is a list of four strings passes the test, and the
    rescaling raises on it before anything is drawn. *)
Lemma draw_box_on_strings (E : env) (f : font) (width height input_width input_height : Z)
  (entries : list (string * pyval)) (a b c d : string) (rest : list pyval) (s : canvas) :
  Py.lookup "bbox_2d" entries = Some (VList (VStr a :: VStr b :: VStr c :: VStr d :: rest)) ->
  draw_box E f width height input_width input_height (VDict entries) s
  = (Raise TypeError, s).
Proof.
  intros Hl. unfold draw_box.
  unfold bind at 1. unfold lift_result at 1.
  rewrite (checked_bbox_dict _ _ Hl) by (simpl; lia).
  unfold bind at 1. unfold lift_result at 1. reflexivity.
Qed.

(** C6.  The records are not validated independently.  A record on which
    the body of the loop raises, such as one whose bounding box is a list of
    four strings, is not passed over: it ends the loop.  The image returned
    is the one drawn up to that point, the records after it are never looked
    at, and no exception leaves [plot_text_bounding_boxes]. *)
Theorem malformed_record_ends_the_loop :
  forall (E : env) (image_path response : string) (input_width input_height : Z)
         (img img1 img2 : picture) (w w1 w2 : world) (f : font)
         (before after : list pyval) (bad : pyval) (e : exn),
    files w !! image_path = Some (ImageFile img) ->
    load_font E = Ok f ->
    snd (parse_boxes E (parse_json response)) = Some (VList (before ++ bad :: after)) ->
    let body := draw_box E f (fst (pic_size img)) (snd (pic_size img))
                  input_width input_height in
    for_each body before (img, w) = (Ok tt, (img1, w1)) ->
    body bad (img1, w1) = (Raise e, (img2, w2)) ->
    plot_text_bounding_boxes E image_path response input_width input_height w
    = (Ok img2, w2).
Proof.
  intros E image_path response iw ih img img1 img2 w w1 w2 f before after bad e
    Hf Hfont Hparse body Hbefore Hbad.
  rewrite (plot_with_image _ _ _ _ _ _ _ Hf).
  assert (Hbody : plot_body E response (fst (pic_size img)) (snd (pic_size img)) iw ih
                    (img, w)
                  = (Raise e, (img2, w2))).
  { unfold plot_body, bind, lift_result. rewrite Hfont, Hparse. simpl.
    apply (for_each_stops body before after bad (img, w) (img1, w1) (img2, w2) e);
      assumption. }
  unfold try_except. rewrite Hbody. reflexivity.
Qed.

(** Three records, the box of the second a list of four strings: one
    outline, where two records are well formed. *)
Lemma malformed_record_ends_the_loop_witness :
  snd (parse_boxes Demo.configured (parse_json Stray.response))
  = Some (VList [Stray.first; Stray.second; Stray.third])
  /\ plot_text_bounding_boxes Demo.configured Demo.page1 Stray.response 1000 800 Demo.disk
     = (Ok (add_ops Stray.blank [Rectangle 100 200 500 260]), Demo.disk).
Proof.
  assert (Hparse : snd (parse_boxes Demo.configured (parse_json Stray.response))
                   = Some (VList ([Stray.first] ++ Stray.second :: [Stray.third])))
    by (vm_compute; reflexivity).
  split; [exact Hparse |].
  apply (malformed_record_ends_the_loop Demo.configured Demo.page1 Stray.response
           1000 800 Stray.blank (add_ops Stray.blank [Rectangle 100 200 500 260])
           (add_ops Stray.blank [Rectangle 100 200 500 260])
           Demo.disk Demo.disk Demo.disk Demo.noto
           [Stray.first] [Stray.third] Stray.second TypeError).
  - vm_compute. reflexivity.
  - reflexivity.
  - exact Hparse.
  - vm_compute. reflexivity.
  - apply (draw_box_on_strings Demo.configured Demo.noto _ _ _ _ _ "a" "b" "c" "d" []).
    reflexivity.
Defined.

(** ** The order of the keys *)

Lemma code_inj (a b : ascii) : Char.code a = Char.code b -> a = b.
Proof.
  unfold Char.code. intros H.
  rewrite <- (ascii_N_embedding a), <- (ascii_N_embedding b), H. reflexivity.
Qed.

Lemma char_ltb_lt (a b : ascii) : Char.ltb a b = true <-> (Char.code a < Char.code b)%N.
Proof. unfold Char.ltb. apply N.ltb_lt. Qed.

Lemma char_ltb_ge (a b : ascii) : Char.ltb a b = false <-> (Char.code b <= Char.code a)%N.
Proof. unfold Char.ltb. apply N.ltb_ge. Qed.

Ltac char_order :=
  repeat match goal with
         | H : Char.ltb _ _ = true |- _ => apply char_ltb_lt in H
         | H : Char.ltb _ _ = false |- _ => apply char_ltb_ge in H
         | |- Char.ltb _ _ = true => apply char_ltb_lt
         | |- Char.ltb _ _ = false => apply char_ltb_ge
         end.

Lemma str_ltb_asym (a b : string) : Str.ltb a b = true -> Str.ltb b a = false.
Proof.
  revert b. induction a as [| x a IH]; intros [| y b]; simpl; try congruence.
  destruct (Char.ltb x y) eqn:Hxy, (Char.ltb y x) eqn:Hyx; try congruence.
  - char_order. lia.
  - apply IH.
Qed.

Lemma str_ltb_total (a b : string) :
  Str.ltb a b = false -> Str.ltb b a = false -> a = b.
Proof.
  revert b. induction a as [| x a IH]; intros [| y b]; simpl; try congruence.
  destruct (Char.ltb x y) eqn:Hxy, (Char.ltb y x) eqn:Hyx; try congruence.
  intros H1 H2. rewrite (IH b H1 H2). f_equal.
  apply code_inj. char_order. lia.
Qed.

Lemma str_ltb_trans (a b c : string) :
  Str.ltb a b = true -> Str.ltb b c = true -> Str.ltb a c = true.
Proof.
  revert b c. induction a as [| x a IH]; intros [| y b] [| z c]; simpl; try congruence.
  destruct (Char.ltb x y) eqn:Hxy.
  - intros _.
    destruct (Char.ltb y z) eqn:Hyz.
    + intros _. assert (Hxz : Char.ltb x z = true) by (char_order; lia).
      rewrite Hxz. reflexivity.
    + destruct (Char.ltb z y) eqn:Hzy; [congruence |].
      intros _. assert (Hxz : Char.ltb x z = true) by (char_order; lia).
      rewrite Hxz. reflexivity.
  - destruct (Char.ltb y x) eqn:Hyx; [congruence |].
    intros Hab.
    destruct (Char.ltb y z) eqn:Hyz.
    + intros _. assert (Hxz : Char.ltb x z = true) by (char_order; lia).
      rewrite Hxz. reflexivity.
    + destruct (Char.ltb z y) eqn:Hzy; [congruence |].
      intros Hbc.
      assert (Hxz : Char.ltb x z = false) by (char_order; lia).
      assert (Hzx : Char.ltb z x = false) by (char_order; lia).
      rewrite Hxz, Hzx. apply (IH b c Hab Hbc).
Qed.

Lemma key_elem_eqb_eq (x y : key_elem) : key_elem_eqb x y = true <-> x = y.
Proof.
  destruct x as [m | s], y as [n | t]; simpl; split; try congruence.
  - intros H. apply Z.eqb_eq in H. congruence.
  - intros H. injection H as ->. apply Z.eqb_refl.
  - intros H. apply String.eqb_eq in H. congruence.
  - intros H. injection H as ->. apply String.eqb_refl.
Qed.

Lemma key_elem_eqb_sym (x y : key_elem) : key_elem_eqb x y = key_elem_eqb y x.
Proof.
  destruct x as [m | s], y as [n | t]; simpl; try reflexivity.
  - apply Z.eqb_sym.
  - apply String.eqb_sym.
Qed.

Lemma key_elem_ltb_asym (x y : key_elem) :
  key_elem_ltb x y = true -> key_elem_ltb y x = false.
Proof.
  destruct x as [m | s], y as [n | t]; simpl; try congruence.
  - intros H. apply Z.ltb_lt in H. apply Z.ltb_ge. lia.
  - apply str_ltb_asym.
Qed.

Lemma key_elem_ltb_total (x y : key_elem) :
  key_elem_ltb x y = false -> key_elem_ltb y x = false -> x = y.
Proof.
  destruct x as [m | s], y as [n | t]; simpl; try congruence.
  - intros H1 H2. apply Z.ltb_ge in H1. apply Z.ltb_ge in H2. f_equal. lia.
  - intros H1 H2. f_equal. apply str_ltb_total; assumption.
Qed.

Lemma key_elem_ltb_trans (x y z : key_elem) :
  key_elem_ltb x y = true -> key_elem_ltb y z = true -> key_elem_ltb x z = true.
Proof.
  destruct x as [m | s], y as [n | t], z as [k | u]; simpl; try congruence.
  - intros H1 H2. apply Z.ltb_lt in H1. apply Z.ltb_lt in H2. apply Z.ltb_lt. lia.
  - apply str_ltb_trans.
Qed.

Lemma key_elem_ltb_irrefl (x : key_elem) : key_elem_ltb x x = false.
Proof.
  destruct (key_elem_ltb x x) eqn:H; [| reflexivity].
  rewrite (key_elem_ltb_asym x x H) in H. discriminate H.
Qed.

Lemma key_ltb_asym (a b : list key_elem) : key_ltb a b = true -> key_ltb b a = false.
Proof.
  revert b. induction a as [| x a IH]; intros [| y b]; simpl; try congruence.
  rewrite (key_elem_eqb_sym y x).
  destruct (key_elem_eqb x y); [apply IH | apply key_elem_ltb_asym].
Qed.

Lemma key_ltb_total (a b : list key_elem) :
  key_ltb a b = false -> key_ltb b a = false -> a = b.
Proof.
  revert b. induction a as [| x a IH]; intros [| y b]; simpl; try congruence.
  rewrite (key_elem_eqb_sym y x).
  destruct (key_elem_eqb x y) eqn:Hxy.
  - apply key_elem_eqb_eq in Hxy. subst y. intros H1 H2. f_equal. apply IH; assumption.
  - intros H1 H2. rewrite (key_elem_ltb_total x y H1 H2) in Hxy.
    assert (key_elem_eqb y y = true) by (apply key_elem_eqb_eq; reflexivity).
    congruence.
Qed.

Lemma key_ltb_trans (a b c : list key_elem) :
  key_ltb a b = true -> key_ltb b c = true -> key_ltb a c = true.
Proof.
  revert b c. induction a as [| x a IH]; intros [| y b] [| z c]; simpl; try congruence.
  destruct (key_elem_eqb x y) eqn:Hxy.
  - apply key_elem_eqb_eq in Hxy. subst y.
    destruct (key_elem_eqb x z); [apply IH | congruence].
  - intros Hlt.
    destruct (key_elem_eqb y z) eqn:Hyz.
    + apply key_elem_eqb_eq in Hyz. subst z. rewrite Hxy. intros _. exact Hlt.
    + intros Hlt'.
      pose proof (key_elem_ltb_trans x y z Hlt Hlt') as Hxz.
      destruct (key_elem_eqb x z) eqn:Hxz'; [| exact Hxz].
      apply key_elem_eqb_eq in Hxz'. subst z.
      rewrite (key_elem_ltb_asym x y Hlt) in Hlt'. discriminate Hlt'.
Qed.

Lemma key_leb_trans (a b c : list key_elem) :
  key_leb a b = true -> key_leb b c = true -> key_leb a c = true.
Proof.
  unfold key_leb. rewrite !negb_true_iff. intros Hba Hcb.
  destruct (key_ltb c a) eqn:Hca; [| reflexivity].
  destruct (key_ltb a b) eqn:Hab.
  - rewrite (key_ltb_trans c a b Hca Hab) in Hcb. discriminate Hcb.
  - rewrite (key_ltb_total a b Hab Hba) in Hca. congruence.
Qed.

(** Between keys of the same shape [<] never raises. *)
Lemma key_lt_same_shape (a b : list key_elem) (want_text : bool) :
  alternates want_text a = true -> alternates want_text b = true ->
  key_lt a b = Ok (key_ltb a b).
Proof.
  revert b want_text.
  induction a as [| x a IH]; intros [| y b] want_text; simpl; try reflexivity.
  destruct x as [m | s], y as [n | t], want_text; simpl; try congruence.
  - intros Ha Hb. destruct (m =? n)%Z; [apply (IH b true Ha Hb) | reflexivity].
  - intros Ha Hb. destruct (String.eqb s t); [apply (IH b false Ha Hb) | reflexivity].
Qed.

(** ** The shape of the keys of natural_sort_key *)

(** [re.split] returns a text, then digit runs and texts in turn. *)
Lemma re_split_digits_shape (s : string) :
  exists t more,
    re_split_digits s = t :: more
    /\ is_text t = true /\ pieces_alternate false more = true.
Proof.
  induction s as [| c s (t & more & Hs & Ht & Hmore)].
  - exists "", []. repeat split.
  - simpl. rewrite Hs. destruct (Char.re_digit c) eqn:Hc.
    + destruct t as [| a t].
      * destruct more as [| d more'].
        -- exists "", [String c ""; ""]. simpl. rewrite Hc. repeat split.
        -- exists "", (String c d :: more'). split; [reflexivity |].
           split; [reflexivity |].
           simpl in Hmore. apply andb_true_iff in Hmore as [Hd Hrest].
           simpl. rewrite Hc, Hrest, andb_true_r. simpl.
           destruct d; [discriminate Hd | exact Hd].
      * exists "", (String c "" :: String a t :: more).
        split; [reflexivity |]. split; [reflexivity |].
        cbn [pieces_alternate negb is_digit_run Str.all].
        rewrite Hc, Ht, Hmore. reflexivity.
    + exists (String c t), more. split; [reflexivity |].
      split; [| exact Hmore].
      unfold is_text in *. cbn [Str.all]. rewrite Hc. exact Ht.
Qed.

Lemma all_rev_onto (p : ascii -> bool) (s acc : string) :
  Str.all p (Str.rev_onto s acc) = Str.all p s && Str.all p acc.
Proof.
  revert acc. induction s as [| c s IH]; intros acc; simpl; [reflexivity |].
  rewrite IH. simpl. destruct (p c), (Str.all p s); reflexivity.
Qed.

Lemma all_lstrip (p : ascii -> bool) (s : string) :
  Str.all p s = true -> Str.all p (Str.lstrip s) = true.
Proof.
  induction s as [| c s IH]; simpl; [reflexivity |].
  intros H. destruct (Char.isspace c); [| exact H].
  apply andb_true_iff in H as [_ H]. apply IH, H.
Qed.

Lemma all_strip (p : ascii -> bool) (s : string) :
  Str.all p s = true -> Str.all p (Str.strip s) = true.
Proof.
  intros H. unfold Str.strip, Str.rev.
  rewrite all_rev_onto, andb_true_r. apply all_lstrip.
  rewrite all_rev_onto, andb_true_r. apply all_lstrip, H.
Qed.

Lemma int_digits_text (acc : Z) (d : string) :
  is_text d = true -> int_digits acc false d = None.
Proof.
  destruct d as [| c d]; [reflexivity |]. simpl.
  intros H. apply andb_true_iff in H as [Hc _].
  apply negb_true_iff in Hc. rewrite Hc.
  destruct (Ascii.eqb c "_"); reflexivity.
Qed.

(** A text without decimal digits is no number for [int]. *)
Lemma py_int_text (t : string) : is_text t = true -> py_int t = Raise ValueError.
Proof.
  intros Ht. unfold py_int.
  pose proof (all_strip _ t Ht) as Hbody. fold (is_text (Str.strip t)) in Hbody.
  destruct (Str.strip t) as [| c r] eqn:Hs.
  - reflexivity.
  - assert (Hr : is_text r = true).
    { unfold is_text in Hbody. simpl in Hbody.
      apply andb_true_iff in Hbody as [_ Hr]. exact Hr. }
    destruct (Ascii.eqb c "-").
    + rewrite (int_digits_text 0 r Hr). reflexivity.
    + destruct (Ascii.eqb c "+").
      * rewrite (int_digits_text 0 r Hr). reflexivity.
      * rewrite (int_digits_text 0 (String c r) Hbody). reflexivity.
Qed.

Lemma key_of_text (t : string) (x : key_elem) :
  is_text t = true -> key_of_piece t = Ok x -> exists u, x = KText u.
Proof.
  intros Ht. unfold key_of_piece.
  destruct (Str.isdigit t).
  - rewrite (py_int_text t Ht). discriminate.
  - intros H. injection H as <-. eauto.
Qed.

Lemma all_re_digit_isdigit (d : string) :
  Str.all Char.re_digit d = true -> Str.all Char.isdigit d = true.
Proof.
  induction d as [| c d IH]; simpl; [reflexivity |].
  intros H. apply andb_true_iff in H as [Hc Hd].
  rewrite (IH Hd). unfold Char.isdigit. rewrite Hc. reflexivity.
Qed.

Lemma key_of_digit_run (d : string) (x : key_elem) :
  is_digit_run d = true -> key_of_piece d = Ok x -> exists n, x = KInt n.
Proof.
  intros Hd. unfold key_of_piece.
  assert (Hdigit : Str.isdigit d = true).
  { destruct d; [discriminate Hd |]. apply all_re_digit_isdigit, Hd. }
  rewrite Hdigit. destruct (py_int d) as [n | e]; simpl; [| discriminate].
  intros H. injection H as <-. eauto.
Qed.

Lemma keys_alternate (pieces : list string) :
  forall (want_text : bool) (k : list key_elem),
    pieces_alternate want_text pieces = true ->
    rmap key_of_piece pieces = Ok k ->
    alternates want_text k = true.
Proof.
  induction pieces as [| p rest IH]; intros want_text k Hp Hk; simpl in *.
  - injection Hk as <-. reflexivity.
  - apply andb_true_iff in Hp as [Hhead Hrest].
    destruct (key_of_piece p) as [x |] eqn:Hx; simpl in Hk; [| discriminate Hk].
    destruct (rmap key_of_piece rest) as [xs |] eqn:Hxs; simpl in Hk; [| discriminate Hk].
    injection Hk as <-.
    pose proof (IH (negb want_text) xs Hrest eq_refl) as Htail.
    destruct want_text.
    + destruct (key_of_text p x Hhead Hx) as [u ->]. simpl. exact Htail.
    + destruct (key_of_digit_run p x Hhead Hx) as [n ->]. simpl. exact Htail.
Qed.

(** Every key that [natural_sort_key] returns starts with a text and
    alternates from there. *)
Lemma natural_sort_key_shape (s : string) (k : list key_elem) :
  natural_sort_key s = Ok k -> alternates true k = true.
Proof.
  unfold natural_sort_key. intros Hk.
  destruct (re_split_digits_shape s) as (t & more & Hs & Ht & Hmore).
  apply (keys_alternate (re_split_digits s) true k); [| exact Hk].
  rewrite Hs. simpl. rewrite Ht, Hmore. reflexivity.
Qed.

(** Any two keys of [natural_sort_key] can be compared. *)
Lemma natural_keys_comparable (s t : string) (ks kt : list key_elem) :
  natural_sort_key s = Ok ks -> natural_sort_key t = Ok kt ->
  key_lt ks kt = Ok (key_ltb ks kt).
Proof.
  intros Hs Ht.
  apply (key_lt_same_shape ks kt true);
    eauto using natural_sort_key_shape.
Qed.

(** ** [sorted] as an insertion sort *)

Section InsertionSort.
Context {A K : Type}.
Variable lt : K -> K -> result bool.
Variable ltb : K -> K -> bool.
Variable good : K -> Prop.
Hypothesis lt_good : forall a b, good a -> good b -> lt a b = Ok (ltb a b).

Lemma insert_sorted_pure (x : K * A) (l : list (K * A)) :
  good_item good x -> Forall (good_item good) l ->
  insert_sorted lt x l = Ok (insert_pure ltb x l).
Proof.
  intros Hx. induction 1 as [| y l Hy _ IH]; simpl; [reflexivity |].
  rewrite (lt_good _ _ Hx Hy). simpl.
  destruct (ltb (fst x) (fst y)); [reflexivity |].
  rewrite IH. reflexivity.
Qed.

Lemma insert_pure_perm (x : K * A) (l : list (K * A)) :
  Permutation (x :: l) (insert_pure ltb x l).
Proof.
  induction l as [| y l IH]; simpl; [reflexivity |].
  destruct (ltb (fst x) (fst y)); [reflexivity |].
  rewrite perm_swap. apply perm_skip, IH.
Qed.

Lemma insert_pure_good (x : K * A) (l : list (K * A)) :
  good_item good x -> Forall (good_item good) l ->
  Forall (good_item good) (insert_pure ltb x l).
Proof.
  intros Hx Hl.
  apply (Permutation_Forall (insert_pure_perm x l)).
  constructor; assumption.
Qed.

Lemma sort_decorated_pure (todo : list (K * A)) :
  forall done,
    Forall (good_item good) done -> Forall (good_item good) todo ->
    sort_decorated lt done todo = Ok (sort_pure ltb done todo).
Proof.
  induction todo as [| x todo IH]; intros done Hdone Htodo; simpl; [reflexivity |].
  inversion Htodo as [| ? ? Hx Hrest]; subst.
  rewrite (insert_sorted_pure x done Hx Hdone). simpl.
  apply IH; [apply insert_pure_good; assumption | exact Hrest].
Qed.

Lemma sort_pure_perm (todo : list (K * A)) :
  forall done, Permutation (done ++ todo) (sort_pure ltb done todo).
Proof.
  induction todo as [| x todo IH]; intros done; simpl.
  - rewrite app_nil_r. reflexivity.
  - rewrite <- IH. rewrite <- Permutation_middle.
    apply (Permutation_app_tail todo (insert_pure_perm x done)).
Qed.

Hypothesis ltb_asym : forall a b, ltb a b = true -> ltb b a = false.
Hypothesis leb_trans :
  forall a b c, ltb b a = false -> ltb c b = false -> ltb c a = false.

Lemma insert_pure_sorted (x : K * A) (l : list (K * A)) :
  StronglySorted (item_le ltb) l ->
  StronglySorted (item_le ltb) (insert_pure ltb x l).
Proof.
  induction 1 as [| y l Hl IH Hy]; simpl.
  - repeat constructor.
  - destruct (ltb (fst x) (fst y)) eqn:Hxy.
    + constructor; [constructor; assumption |].
      constructor; [apply ltb_asym, Hxy |].
      eapply List.Forall_impl; [| exact Hy].
      intros z Hz. unfold item_le in *.
      apply (leb_trans (fst x) (fst y) (fst z)); [apply ltb_asym, Hxy | exact Hz].
    + constructor; [exact IH |].
      apply (Permutation_Forall (insert_pure_perm x l)).
      constructor; [exact Hxy | exact Hy].
Qed.

Lemma sort_pure_sorted (todo : list (K * A)) :
  forall done,
    StronglySorted (item_le ltb) done ->
    StronglySorted (item_le ltb) (sort_pure ltb done todo).
Proof.
  induction todo as [| x todo IH]; intros done Hdone; simpl; [exact Hdone |].
  apply IH, insert_pure_sorted, Hdone.
Qed.

Lemma insert_pure_last (x : K * A) (l : list (K * A)) :
  Forall (fun y => item_le ltb y x) l -> insert_pure ltb x l = (l ++ [x])%list.
Proof.
  induction 1 as [| y l Hy _ IH]; simpl; [reflexivity |].
  unfold item_le in Hy. rewrite Hy, IH. reflexivity.
Qed.

Lemma sorted_before (l1 l2 : list (K * A)) (x : K * A) :
  StronglySorted (item_le ltb) (l1 ++ x :: l2) -> Forall (fun y => item_le ltb y x) l1.
Proof.
  induction l1 as [| y l1 IH]; simpl; intros H; [constructor |].
  inversion H as [| ? ? Hrest Hall]; subst.
  constructor; [| apply IH, Hrest].
  apply Forall_app in Hall as [_ Hall].
  inversion Hall; assumption.
Qed.

(** Sorting what is sorted already changes nothing. *)
Lemma sort_pure_id (todo : list (K * A)) :
  forall done,
    StronglySorted (item_le ltb) (done ++ todo) ->
    sort_pure ltb done todo = (done ++ todo)%list.
Proof.
  induction todo as [| x todo IH]; intros done H; simpl.
  - rewrite app_nil_r. reflexivity.
  - rewrite (insert_pure_last x done (sorted_before done todo x H)).
    rewrite IH; rewrite <- app_assoc; [reflexivity | exact H].
Qed.

End InsertionSort.

(** ** Sorting paths by their natural key *)

Lemma key_lt_well_shaped (a b : list key_elem) :
  well_shaped a -> well_shaped b -> key_lt a b = Ok (key_ltb a b).
Proof. apply key_lt_same_shape. Qed.

Lemma key_ltb_le_trans (a b c : list key_elem) :
  key_ltb b a = false -> key_ltb c b = false -> key_ltb c a = false.
Proof.
  intros H1 H2. apply negb_true_iff.
  apply (key_leb_trans a b c); unfold key_leb; apply negb_true_iff; assumption.
Qed.

Lemma keyed_good (x : list key_elem * string) :
  keyed x -> good_item well_shaped x.
Proof. apply natural_sort_key_shape. Qed.

Lemma decorate (paths : list string) :
  Forall has_key paths ->
  exists keys,
    rmap natural_sort_key paths = Ok keys
    /\ Forall keyed (combine keys paths)
    /\ List.map snd (combine keys paths) = paths.
Proof.
  induction 1 as [| p paths Hp _ (keys & Hkeys & Hdec & Hsnd)].
  - exists []. repeat split. constructor.
  - unfold has_key in Hp.
    destruct (natural_sort_key p) as [k |] eqn:Hk; [| discriminate Hp].
    exists (k :: keys). simpl. rewrite Hk, Hkeys. simpl.
    split; [reflexivity |]. split; [| rewrite Hsnd; reflexivity].
    constructor; [exact Hk | exact Hdec].
Qed.

Lemma sorted_items_paths (r : list (list key_elem * string)) :
  Forall keyed r ->
  StronglySorted (item_le key_ltb) r ->
  StronglySorted natural_le (List.map snd r).
Proof.
  intros Hkeyed. induction 1 as [| x r Hr IH Hx]; simpl; [constructor |].
  inversion Hkeyed as [| ? ? Hkx Hkr]; subst.
  constructor; [apply IH, Hkr |].
  apply Forall_map. clear IH Hr.
  induction Hx as [| y r Hy _ IH']; [constructor |].
  inversion Hkr as [| ? ? Hky Hkr']; subst.
  constructor; [| apply IH'; [constructor |]; assumption].
  exists (fst x), (fst y). repeat split; assumption.
Qed.

Lemma sorted_paths_items (dec : list (list key_elem * string)) :
  Forall keyed dec ->
  StronglySorted natural_le (List.map snd dec) ->
  StronglySorted (item_le key_ltb) dec.
Proof.
  induction 1 as [| x dec Hkx Hkeyed IH]; simpl; intros Hs; [constructor |].
  inversion Hs as [| ? ? Hrest Hx]; subst.
  constructor; [apply IH, Hrest |].
  apply Forall_map in Hx. clear IH Hrest Hs.
  induction Hkeyed as [| y dec Hky _ IH']; [constructor |].
  inversion Hx as [| ? ? (kp & kq & Hp & Hq & Hle) Hx']; subst.
  constructor; [| apply IH', Hx'].
  unfold keyed in Hkx, Hky. unfold item_le.
  rewrite Hkx in Hp. rewrite Hky in Hq.
  injection Hp as ->. injection Hq as ->. exact Hle.
Qed.

(** [sorted(paths, key=natural_sort_key)] returns when every path has a
    key; the result holds the same paths, in the order of their keys. *)
Lemma sorted_natural_sorts (paths : list string) :
  Forall has_key paths ->
  exists ordered,
    sorted_natural paths = Ok ordered
    /\ Permutation paths ordered
    /\ StronglySorted natural_le ordered.
Proof.
  intros Hkeys.
  destruct (decorate paths Hkeys) as (keys & Hrmap & Hdec & Hsnd).
  pose proof (Forall_impl _ _ _ Hdec keyed_good) as Hgood.
  exists (List.map snd (sort_pure key_ltb [] (combine keys paths))).
  split; [| split].
  - unfold sorted_natural, sorted. rewrite Hrmap. simpl.
    rewrite (sort_decorated_pure key_lt key_ltb well_shaped key_lt_well_shaped
               (combine keys paths) [] (List.Forall_nil _) Hgood).
    reflexivity.
  - rewrite <- Hsnd at 1.
    apply Permutation_map, (sort_pure_perm key_ltb (combine keys paths) []).
  - apply sorted_items_paths.
    + apply (Permutation_Forall (sort_pure_perm key_ltb (combine keys paths) [])).
      exact Hdec.
    + apply (sort_pure_sorted key_ltb key_ltb_asym key_ltb_le_trans).
      constructor.
Qed.

(** Sorting paths that stand in the order of their keys returns them as
    they are. *)
Lemma sorted_natural_id (paths : list string) :
  Forall has_key paths ->
  StronglySorted natural_le paths ->
  sorted_natural paths = Ok paths.
Proof.
  intros Hkeys Hsorted.
  destruct (decorate paths Hkeys) as (keys & Hrmap & Hdec & Hsnd).
  pose proof (Forall_impl _ _ _ Hdec keyed_good) as Hgood.
  unfold sorted_natural, sorted. rewrite Hrmap. simpl.
  rewrite (sort_decorated_pure key_lt key_ltb well_shaped key_lt_well_shaped
             (combine keys paths) [] (List.Forall_nil _) Hgood).
  simpl. rewrite (sort_pure_id key_ltb (combine keys paths) []).
  - simpl. rewrite Hsnd. reflexivity.
  - simpl. apply sorted_paths_items; [exact Hdec |]. rewrite Hsnd. exact Hsorted.
Qed.

(** ** What drawing on a page leaves alone *)

Lemma grows_refl (w : world) : grows w w.
Proof. split; [reflexivity |]. exists []. simpl. rewrite app_nil_r. reflexivity. Qed.

Lemma grows_trans (w1 w2 w3 : world) : grows w1 w2 -> grows w2 w3 -> grows w1 w3.
Proof.
  intros [Hf1 [t1 Hc1]] [Hf2 [t2 Hc2]]. split; [congruence |].
  exists (t1 ++ t2)%list. rewrite Hc2, Hc1, List.map_app, app_assoc. reflexivity.
Qed.










Lemma translate_grows (E : env) (raw : pyval) (w w' : world) (r : result pyval) :
  translateWithAPI E raw w = (r, w') -> grows w w'.
Proof.
  unfold translateWithAPI. destruct (key_missing E).
  - intros H. injection H as <- <-. apply grows_refl.
  - intros H. injection H as <- <-. split; [reflexivity |].
    exists [raw]. reflexivity.
Qed.





(** ** A page that goes through *)

Lemma detections_app (a b : list remote_call) :
  detections (a ++ b) = (detections a ++ detections b)%list.
Proof. apply omap_app. Qed.

Lemma detections_translations (texts : list pyval) :
  detections (List.map Translation texts) = [].
Proof. induction texts as [| t texts IH]; simpl; [reflexivity | exact IH]. Qed.


Lemma makedirs_ok (E : env) (dir : string) (w : world) :
  dir <> "" ->
  write_failure E dir = None ->
  makedirs E dir w = (Ok tt, w).
Proof.
  intros Hdir Hw. unfold makedirs.
  destruct (String.eqb_spec dir "") as [Heq | _]; [contradiction |].
  rewrite Hw. reflexivity.
Qed.

Lemma makedirs_empty (E : env) (w : world) : makedirs E "" w = (Raise OSError, w).
Proof. reflexivity. Qed.










(** ** batch_process_images *)








(** ** A line feed after the payload *)
















(** ** The code fence around a payload *)


Lemma splitlines_lf (r : string) :
  Str.splitlines (String Str.lf r) = "" :: Str.splitlines r.
Proof. reflexivity. Qed.

Lemma splitlines_other (c : ascii) (r : string) :
  Char.is_linebreak c = false ->
  Str.splitlines (String c r)
  = match Str.splitlines r with
    | [] => [String c ""]
    | l :: ls => String c l :: ls
    end.
Proof. intros H. cbn [Str.splitlines]. rewrite H. reflexivity. Qed.

Lemma splitlines_nil (s : string) : Str.splitlines s = [] -> s = "".
Proof.
  destruct s as [| c s]; [reflexivity |]. cbn [Str.splitlines].
  destruct (Char.is_linebreak c); [discriminate |].
  destruct (Str.splitlines s); discriminate.
Qed.

Lemma lf_only_cons (c : ascii) (s : string) :
  lf_only (String c s) = true ->
  (Char.is_linebreak c = false \/ c = Str.lf) /\ lf_only s = true.
Proof.
  unfold lf_only. cbn [Str.all]. intros H.
  apply andb_true_iff in H as [Hc Hs]. split; [| exact Hs].
  apply orb_true_iff in Hc as [Hc | Hc].
  - left. apply negb_true_iff, Hc.
  - right. apply Ascii.eqb_eq, Hc.
Qed.

Lemma join_cons_char (c : ascii) (l : string) (ls : list string) :
  Str.join Str.nl (String c l :: ls) = String c (Str.join Str.nl (l :: ls)).
Proof. destruct ls; reflexivity. Qed.

Lemma join_empty_line (l : string) (ls : list string) :
  Str.join Str.nl ("" :: l :: ls) = String Str.lf (Str.join Str.nl (l :: ls)).
Proof. reflexivity. Qed.


Lemma splitlines_first_line (l r : string) :
  Str.all (fun c => negb (Char.is_linebreak c)) l = true ->
  Str.splitlines (l ++ Str.nl ++ r) = l :: Str.splitlines r.
Proof.
  induction l as [| c l IH]; intros Hl.
  - apply splitlines_lf.
  - cbn [Str.all] in Hl. apply andb_true_iff in Hl as [Hc Hl].
    apply negb_true_iff in Hc.
    change (String c l ++ Str.nl ++ r) with (String c (l ++ Str.nl ++ r)).
    rewrite (splitlines_other c _ Hc), (IH Hl). reflexivity.
Qed.

Lemma strip_prefix_nl (f s t : string) :
  Str.all (fun c => negb (Ascii.eqb c Str.lf)) f = true ->
  Str.strip_prefix f s = None ->
  Str.strip_prefix f (s ++ Str.nl ++ t) = None.
Proof.
  revert s. induction f as [| x f IH]; intros s Hf Hs; [discriminate Hs |].
  cbn [Str.all] in Hf. apply andb_true_iff in Hf as [Hx Hf].
  apply negb_true_iff in Hx.
  destruct s as [| a s].
  - change ("" ++ Str.nl ++ t) with (String Str.lf t).
    cbn [Str.strip_prefix]. rewrite Hx. reflexivity.
  - change (String a s ++ Str.nl ++ t) with (String a (s ++ Str.nl ++ t)).
    cbn [Str.strip_prefix] in *.
    destruct (Ascii.eqb x a); [apply (IH s Hf Hs) | reflexivity].
Qed.

Lemma contains_cons (f : string) (c : ascii) (s : string) :
  Str.contains f (String c s) = false ->
  Str.strip_prefix f (String c s) = None /\ Str.contains f s = false.
Proof.
  cbn [Str.contains].
  destruct (Str.strip_prefix f (String c s)); [discriminate |].
  intros H. split; [reflexivity | exact H].
Qed.


Lemma strip_prefix_app (f a b r : string) :
  Str.strip_prefix f a = Some r -> Str.strip_prefix f (a ++ b) = Some (r ++ b).
Proof.
  revert a. induction f as [| x f IH]; intros a H.
  - destruct a; injection H as <-; reflexivity.
  - destruct a as [| y a]; [discriminate H |].
    change (String y a ++ b) with (String y (a ++ b)).
    cbn [Str.strip_prefix] in *.
    destruct (Ascii.eqb x y); [apply (IH a H) | discriminate H].
Qed.

Lemma not_opener (l rest : string) :
  Str.strip_prefix fence (l ++ rest) = None -> String.eqb l fence_opener = false.
Proof.
  intros H. destruct (String.eqb_spec l fence_opener) as [-> |]; [| reflexivity].
  rewrite (strip_prefix_app fence fence_opener rest "json" eq_refl) in H.
  discriminate H.
Qed.

Lemma first_line_prefix (s l : string) (ls : list string) :
  Str.splitlines s = l :: ls -> exists rest, s = l ++ rest.
Proof.
  revert l ls. induction s as [| c s IH]; intros l ls; [discriminate |].
  cbn [Str.splitlines]. destruct (Char.is_linebreak c).
  - intros H. injection H as <- _. exists (String c s). reflexivity.
  - destruct (Str.splitlines s) as [| l' ls'] eqn:Hlines.
    + intros H. injection H as <- _. exists s. reflexivity.
    + intros H. injection H as <- _.
      destruct (IH l' ls' eq_refl) as [rest ->]. exists rest. reflexivity.
Qed.







(** ** Names whose key is defined *)

Lemma rev_onto_twice (s a b : string) :
  Str.rev_onto (Str.rev_onto s a) b = Str.rev_onto a (s ++ b).
Proof.
  revert a. induction s as [| c s IH]; intros a; [reflexivity |].
  change (String c s ++ b) with (String c (s ++ b)).
  cbn [Str.rev_onto]. rewrite IH. reflexivity.
Qed.

Lemma append_empty (s : string) : s ++ "" = s.
Proof.
  induction s as [| c s IH]; [reflexivity |].
  change (String c s ++ "") with (String c (s ++ "")). rewrite IH. reflexivity.
Qed.

Lemma rev_rev (s : string) : Str.rev (Str.rev s) = s.
Proof. unfold Str.rev. rewrite rev_onto_twice. cbn [Str.rev_onto]. apply append_empty. Qed.

Lemma lstrip_no_space (s : string) :
  Str.all (fun c => negb (Char.isspace c)) s = true -> Str.lstrip s = s.
Proof.
  destruct s as [| c s]; [reflexivity |]. simpl. intros H.
  apply andb_true_iff in H as [Hc _]. apply negb_true_iff in Hc.
  rewrite Hc. reflexivity.
Qed.

Lemma strip_no_space (s : string) :
  Str.all (fun c => negb (Char.isspace c)) s = true -> Str.strip s = s.
Proof.
  intros H. unfold Str.strip. rewrite (lstrip_no_space s H).
  rewrite lstrip_no_space; [apply rev_rev |].
  unfold Str.rev. rewrite all_rev_onto, H. reflexivity.
Qed.

Lemma re_digit_code (c : ascii) :
  Char.re_digit c = true <-> (48 <= Char.code c <= 57)%N.
Proof.
  unfold Char.re_digit. rewrite andb_true_iff, !N.leb_le. reflexivity.
Qed.

Lemma digit_not_space (c : ascii) : Char.re_digit c = true -> Char.isspace c = false.
Proof.
  intros H. apply re_digit_code in H. unfold Char.isspace. cbv zeta.
  repeat match goal with
         | |- context [(?a <=? ?b)%N] => destruct (N.leb_spec a b)
         | |- context [(?a =? ?b)%N] => destruct (N.eqb_spec a b)
         end; simpl; try reflexivity; lia.
Qed.

Lemma digit_not_sign (c : ascii) (sign : ascii) :
  Char.re_digit sign = false -> Char.re_digit c = true -> Ascii.eqb c sign = false.
Proof.
  intros Hs Hc. destruct (Ascii.eqb_spec c sign) as [-> |]; [congruence | reflexivity].
Qed.

Lemma digits_no_space (d : string) :
  Str.all Char.re_digit d = true ->
  Str.all (fun c => negb (Char.isspace c)) d = true.
Proof.
  induction d as [| c d IH]; simpl; [reflexivity |].
  intros H. apply andb_true_iff in H as [Hc Hd].
  rewrite (digit_not_space c Hc), (IH Hd). reflexivity.
Qed.

Lemma int_digits_run (d : string) :
  Str.all Char.re_digit d = true ->
  forall acc, exists n, int_digits acc true d = Some n.
Proof.
  induction d as [| c d IH]; simpl; intros H acc; [eauto |].
  apply andb_true_iff in H as [Hc Hd]. rewrite Hc. apply (IH Hd).
Qed.

Lemma count_digits_length (s : string) : (count_digits s <= String.length s)%nat.
Proof.
  induction s as [| c s IH]; simpl; [lia |].
  destruct (Char.re_digit c); lia.
Qed.

(** A short text is within the limit on the digits. *)
Lemma short_within_limit (s : string) :
  short s -> (int_max_str_digits <? Z.of_nat (count_digits s))%Z = false.
Proof.
  unfold short. intros Hs. apply Z.ltb_ge.
  pose proof (count_digits_length s). lia.
Qed.

(** [int] accepts every run of decimal digits within the limit. *)
Lemma py_int_digit_run (d : string) :
  is_digit_run d = true -> short d -> exists n, py_int d = Ok n.
Proof.
  intros Hd Hshort. destruct d as [| c d]; [discriminate Hd |].
  assert (Hall : Str.all Char.re_digit (String c d) = true) by exact Hd.
  cbn [is_digit_run Str.all] in Hd.
  apply andb_true_iff in Hd as [Hc Hrest].
  unfold py_int. rewrite (strip_no_space (String c d) (digits_no_space _ Hall)).
  rewrite (digit_not_sign c "-" eq_refl Hc), (digit_not_sign c "+" eq_refl Hc).
  rewrite (short_within_limit _ Hshort).
  cbn [int_digits]. rewrite Hc.
  destruct (int_digits_run d Hrest (10 * 0 + Char.digit_value c)) as [n Hn].
  rewrite Hn. eauto.
Qed.

Lemma key_of_piece_plain (want_text : bool) (piece : string) :
  plain piece = true ->
  short piece ->
  (if want_text then is_text piece else is_digit_run piece) = true ->
  exists x, key_of_piece piece = Ok x.
Proof.
  intros Hplain Hshort Hkind. unfold key_of_piece. destruct want_text.
  - assert (Hnot : Str.isdigit piece = false).
    { destruct piece as [| c t]; [reflexivity |].
      unfold plain, is_text in *. cbn [Str.all Str.isdigit] in *.
      apply andb_true_iff in Hplain as [Hc _].
      apply andb_true_iff in Hkind as [Hd _].
      apply negb_true_iff in Hd. rewrite Hd in Hc.
      destruct (Char.isdigit c); [discriminate Hc | reflexivity]. }
    rewrite Hnot. eauto.
  - destruct (py_int_digit_run piece Hkind Hshort) as [n Hn].
    destruct (Str.isdigit piece); [rewrite Hn; simpl |]; eauto.
Qed.

(** No piece of the split is longer than the text. *)
Lemma re_split_digits_length (s : string) :
  Forall (fun piece => (String.length piece <= String.length s)%nat)
    (re_split_digits s).
Proof.
  induction s as [| c s IH].
  - apply List.Forall_cons; [simpl; lia | apply List.Forall_nil].
  - assert (Hgrow : forall l : list string,
               Forall (fun piece => (String.length piece <= String.length s)%nat) l ->
               Forall (fun piece => (String.length piece <= String.length (String c s))%nat) l).
    { intros l Hl. eapply List.Forall_impl; [| exact Hl].
      intros piece Hp. cbv beta in Hp. simpl. lia. }
    cbn [re_split_digits].
    destruct (Char.re_digit c).
    + destruct (re_split_digits s) as [| t more].
      * repeat (apply List.Forall_cons; [simpl; lia |]); apply List.Forall_nil.
      * inversion IH as [| ? ? Ht Hmore]; subst.
        destruct t as [| a t].
        -- destruct more as [| d more'].
           ++ repeat (apply List.Forall_cons; [simpl; lia |]); apply List.Forall_nil.
           ++ inversion Hmore as [| ? ? Hd Hmore']; subst.
              apply List.Forall_cons; [simpl; lia |].
              apply List.Forall_cons; [simpl; lia | apply Hgrow, Hmore'].
        -- apply List.Forall_cons; [simpl; lia |].
           apply List.Forall_cons; [simpl; lia |]. apply Hgrow, IH.
    + destruct (re_split_digits s) as [| t more].
      * repeat (apply List.Forall_cons; [simpl; lia |]); apply List.Forall_nil.
      * inversion IH as [| ? ? Ht Hmore]; subst.
        apply List.Forall_cons; [simpl; lia | apply Hgrow, Hmore].
Qed.

Lemma re_split_digits_short (s : string) :
  short s -> Forall short (re_split_digits s).
Proof.
  intros Hs. eapply List.Forall_impl; [| apply re_split_digits_length].
  unfold short in *. intros piece Hp. cbv beta in Hp. lia.
Qed.

Lemma re_split_digits_plain (s : string) :
  plain s = true -> Forall (fun piece => plain piece = true) (re_split_digits s).
Proof.
  induction s as [| c s IH]; intros Hs.
  - repeat constructor.
  - unfold plain in Hs. cbn [Str.all] in Hs.
    apply andb_true_iff in Hs as [Hc Hs]. specialize (IH Hs).
    assert (Hone : plain (String c "") = true)
      by (unfold plain; cbn [Str.all]; rewrite Hc; reflexivity).
    assert (Hcons : forall t, plain t = true -> plain (String c t) = true).
    { intros t Ht. unfold plain in *. cbn [Str.all]. rewrite Hc, Ht. reflexivity. }
    cbn [re_split_digits].
    destruct (Char.re_digit c).
    + destruct (re_split_digits s) as [| t more].
      * repeat constructor; assumption.
      * inversion IH as [| ? ? Ht Hmore]; subst.
        destruct t as [| a t].
        -- destruct more as [| d more'].
           ++ repeat constructor; assumption.
           ++ inversion Hmore as [| ? ? Hd Hmore']; subst.
              constructor; [reflexivity |].
              constructor; [apply Hcons, Hd | exact Hmore'].
        -- constructor; [reflexivity |].
           constructor; [exact Hone |]. exact IH.
    + destruct (re_split_digits s) as [| t more].
      * repeat constructor; assumption.
      * inversion IH as [| ? ? Ht Hmore]; subst.
        constructor; [apply Hcons, Ht | exact Hmore].
Qed.

Lemma keys_defined (pieces : list string) :
  forall want_text,
    Forall (fun piece => plain piece = true) pieces ->
    Forall short pieces ->
    pieces_alternate want_text pieces = true ->
    exists k, rmap key_of_piece pieces = Ok k.
Proof.
  induction pieces as [| piece rest IH]; intros want_text Hplain Hshort Halt.
  - exists []. reflexivity.
  - inversion Hplain as [| ? ? Hp Hrest]; subst.
    inversion Hshort as [| ? ? Hs Hshorts]; subst.
    cbn [pieces_alternate] in Halt. apply andb_true_iff in Halt as [Hkind Halt].
    destruct (key_of_piece_plain want_text piece Hp Hs Hkind) as [x Hx].
    destruct (IH (negb want_text) Hrest Hshorts Halt) as [k Hk].
    exists (x :: k). simpl. rewrite Hx, Hk. reflexivity.
Qed.

(** A short name without such a character has its key. *)
Lemma natural_sort_key_defined (s : string) : plain s = true -> short s -> has_key s.
Proof.
  intros Hs Hshort. unfold has_key, natural_sort_key.
  destruct (re_split_digits_shape s) as (t & more & Hsplit & Ht & Hmore).
  destruct (keys_defined (re_split_digits s) true (re_split_digits_plain s Hs)
              (re_split_digits_short s Hshort))
    as [k Hk].
  - rewrite Hsplit. simpl. rewrite Ht, Hmore. reflexivity.
  - rewrite Hk. reflexivity.
Qed.

(** ** The key ignores case *)

Lemma lower_re_digit (c : ascii) : Char.re_digit (Char.lower c) = Char.re_digit c.
Proof. destruct c as [[] [] [] [] [] [] [] []]; reflexivity. Qed.

Lemma lower_isdigit (c : ascii) : Char.isdigit (Char.lower c) = Char.isdigit c.
Proof. destruct c as [[] [] [] [] [] [] [] []]; reflexivity. Qed.

Lemma lower_lower (c : ascii) : Char.lower (Char.lower c) = Char.lower c.
Proof. destruct c as [[] [] [] [] [] [] [] []]; reflexivity. Qed.

Lemma lower_digit (c : ascii) : Char.isdigit c = true -> Char.lower c = c.
Proof. destruct c as [[] [] [] [] [] [] [] []]; intros H; try reflexivity; discriminate H. Qed.

Lemma str_lower_lower (s : string) : Str.lower (Str.lower s) = Str.lower s.
Proof.
  induction s as [| c s IH]; [reflexivity |].
  unfold Str.lower in *. cbn [Str.map]. rewrite lower_lower, IH. reflexivity.
Qed.

Lemma str_lower_digits (s : string) :
  Str.all Char.isdigit s = true -> Str.lower s = s.
Proof.
  induction s as [| c s IH]; [reflexivity |].
  cbn [Str.all]. intros H. apply andb_true_iff in H as [Hc Hs].
  unfold Str.lower in *. cbn [Str.map]. rewrite (lower_digit c Hc), (IH Hs). reflexivity.
Qed.

Lemma all_isdigit_lower (s : string) :
  Str.all Char.isdigit (Str.lower s) = Str.all Char.isdigit s.
Proof.
  induction s as [| c s IH]; [reflexivity |].
  unfold Str.lower in *. cbn [Str.map Str.all]. rewrite lower_isdigit, IH. reflexivity.
Qed.

Lemma isdigit_lower (s : string) : Str.isdigit (Str.lower s) = Str.isdigit s.
Proof.
  destruct s as [| c s]; [reflexivity |].
  exact (all_isdigit_lower (String c s)).
Qed.

Lemma key_of_piece_lower (t : string) : key_of_piece (Str.lower t) = key_of_piece t.
Proof.
  unfold key_of_piece. rewrite isdigit_lower.
  destruct (Str.isdigit t) eqn:Hd.
  - rewrite str_lower_digits; [reflexivity |].
    destruct t; [discriminate Hd | exact Hd].
  - rewrite str_lower_lower. reflexivity.
Qed.

Lemma re_split_digits_lower (s : string) :
  re_split_digits (Str.lower s) = List.map Str.lower (re_split_digits s).
Proof.
  induction s as [| c s IH]; [reflexivity |].
  unfold Str.lower in *. cbn [Str.map re_split_digits].
  rewrite lower_re_digit, IH.
  destruct (Char.re_digit c).
  - destruct (re_split_digits s) as [| t more]; [reflexivity |].
    destruct t as [| a t]; [| reflexivity].
    destruct more as [| d more']; reflexivity.
  - destruct (re_split_digits s) as [| t more]; reflexivity.
Qed.

Lemma rmap_key_lower (pieces : list string) :
  rmap key_of_piece (List.map Str.lower pieces) = rmap key_of_piece pieces.
Proof.
  induction pieces as [| p rest IH]; [reflexivity |].
  cbn [List.map rmap]. rewrite key_of_piece_lower, IH. reflexivity.
Qed.

(** X1.  The key of a name is the key of its lower-case form: names that
    differ in case only are not told apart by the order. *)
Theorem natural_sort_key_ignores_case :
  forall s : string, natural_sort_key (Str.lower s) = natural_sort_key s.
Proof.
  intros s. unfold natural_sort_key.
  rewrite re_split_digits_lower. apply rmap_key_lower.
Qed.

(** ** Numbers in names *)

Lemma string_app_assoc (a b c : string) : (a ++ b) ++ c = a ++ b ++ c.
Proof.
  induction a as [| x a IH]; [reflexivity |].
  change (String x a ++ b) with (String x (a ++ b)).
  change (String x (a ++ b) ++ c) with (String x ((a ++ b) ++ c)).
  change (String x a ++ b ++ c) with (String x (a ++ b ++ c)).
  rewrite IH. reflexivity.
Qed.

Lemma all_app (p : ascii -> bool) (a b : string) :
  Str.all p (a ++ b) = Str.all p a && Str.all p b.
Proof.
  induction a as [| x a IH]; [reflexivity |].
  change (String x a ++ b) with (String x (a ++ b)).
  cbn [Str.all]. rewrite IH, andb_assoc. reflexivity.
Qed.

Lemma uint_digits (d : Decimal.uint) :
  Str.all Char.re_digit (NilEmpty.string_of_uint d) = true.
Proof. induction d; simpl; try reflexivity; exact IHd. Qed.

Lemma to_uint_nonnil (n : nat) : Nat.to_uint n <> Decimal.Nil.
Proof.
  rewrite <- (Unsigned.of_to n), Unsigned.to_of.
  unfold Decimal.unorm. destruct (Decimal.nzhead (Nat.to_uint n)); discriminate.
Qed.

Lemma decimal_digit_run (n : nat) : is_digit_run (decimal n) = true.
Proof.
  unfold decimal, is_digit_run.
  pose proof (to_uint_nonnil n) as Hn. pose proof (uint_digits (Nat.to_uint n)) as Hd.
  destruct (Nat.to_uint n); try exact Hd. contradiction.
Qed.

Lemma int_digits_uint (d : Decimal.uint) :
  forall (acc : nat) (after_digit : bool),
    after_digit = true \/ d <> Decimal.Nil ->
    int_digits (Z.of_nat acc) after_digit (NilEmpty.string_of_uint d)
    = Some (Z.of_nat (Nat.of_uint_acc d acc)).
Proof.
  induction d; intros acc after_digit Hstart;
    [ destruct Hstart as [-> | H]; [reflexivity | contradiction] | .. ];
    cbn [NilEmpty.string_of_uint int_digits Nat.of_uint_acc];
    match goal with
    | |- context [Char.re_digit ?c] =>
        change (Char.re_digit c) with true; cbv iota
    end;
    match goal with
    | |- int_digits ?a true _ = Some (Z.of_nat (Nat.of_uint_acc _ ?b)) =>
        replace a with (Z.of_nat b);
        [ apply IHd; left; reflexivity
        | rewrite ?Nat2Z.inj_succ, Nat.tail_mul_spec, Nat2Z.inj_mul;
          unfold Char.digit_value; simpl; lia ]
    end.
Qed.

(** [int(str(n)) == n], for a number within the limit on the digits *)
Lemma py_int_decimal (n : nat) :
  short (decimal n) -> py_int (decimal n) = Ok (Z.of_nat n).
Proof.
  intros Hshort.
  pose proof (decimal_digit_run n) as Hrun.
  pose proof (short_within_limit _ Hshort) as Hlimit.
  destruct (decimal n) as [| c d] eqn:Hdec; [discriminate Hrun |].
  assert (Hall : Str.all Char.re_digit (String c d) = true) by exact Hrun.
  cbn [is_digit_run Str.all] in Hrun.
  apply andb_true_iff in Hrun as [Hc _].
  unfold py_int. rewrite (strip_no_space (String c d) (digits_no_space _ Hall)).
  rewrite (digit_not_sign c "-" eq_refl Hc), (digit_not_sign c "+" eq_refl Hc).
  rewrite Hlimit.
  rewrite <- Hdec. unfold decimal.
  change 0 with (Z.of_nat 0).
  rewrite int_digits_uint by (right; apply to_uint_nonnil).
  change (Nat.of_uint_acc (Nat.to_uint n) 0) with (Nat.of_uint (Nat.to_uint n)).
  rewrite Unsigned.of_to. reflexivity.
Qed.

Lemma key_of_decimal (n : nat) :
  short (decimal n) -> key_of_piece (decimal n) = Ok (KInt (Z.of_nat n)).
Proof.
  intros Hshort. unfold key_of_piece.
  assert (Hd : Str.isdigit (decimal n) = true).
  { pose proof (decimal_digit_run n) as Hrun.
    destruct (decimal n); [discriminate Hrun |]. apply all_re_digit_isdigit, Hrun. }
  rewrite Hd, (py_int_decimal n Hshort). reflexivity.
Qed.

Lemma re_split_digits_empty (s : string) : re_split_digits s = [""] -> s = "".
Proof.
  destruct s as [| c s]; [reflexivity |]. cbn [re_split_digits].
  destruct (Char.re_digit c).
  - destruct (re_split_digits s) as [| [| a t] [| d more]]; discriminate.
  - destruct (re_split_digits s) as [| t more]; discriminate.
Qed.

Lemma re_split_digits_cons (c : ascii) (s : string) :
  re_split_digits (String c s)
  = if Char.re_digit c then
      match re_split_digits s with
      | "" :: d :: more => "" :: String c d :: more
      | pieces => "" :: String c "" :: pieces
      end
    else
      match re_split_digits s with
      | t :: more => String c t :: more
      | [] => [String c ""]
      end.
Proof. reflexivity. Qed.

(** A run of digits in front of a text that starts with none is a piece
    of its own. *)
Lemma re_split_digit_run (d after : string) :
  is_digit_run d = true ->
  starts_with_digit after = false ->
  re_split_digits (d ++ after) = "" :: d :: re_split_digits after.
Proof.
  intros Hd Hafter. destruct d as [| c d]; [discriminate Hd |].
  cbn [is_digit_run] in Hd. revert c Hd.
  induction d as [| c' d IH]; intros c Hd; cbn [Str.all] in Hd;
    apply andb_true_iff in Hd as [Hc Hd].
  - change (String c "" ++ after) with (String c after).
    cbn [re_split_digits]. rewrite Hc.
    destruct after as [| a after]; [reflexivity |].
    cbn [starts_with_digit] in Hafter. cbn [re_split_digits]. rewrite Hafter.
    destruct (re_split_digits after); reflexivity.
  - change (String c (String c' d) ++ after) with (String c (String c' d ++ after)).
    cbn [re_split_digits]. rewrite Hc.
    change (if Char.re_digit c' then _ else _)
      with (re_split_digits (String c' d ++ after)).
    rewrite (IH c' Hd). reflexivity.
Qed.

(** The pieces of a text, a number and a text: those of the first text,
    the number, those of the second. *)
Lemma re_split_around_number (before d after : string) :
  ends_with_digit before = false ->
  is_digit_run d = true ->
  starts_with_digit after = false ->
  re_split_digits (before ++ d ++ after)
  = (re_split_digits before ++ d :: re_split_digits after)%list.
Proof.
  intros Hbefore Hd Hafter.
  induction before as [| c before IH].
  - change ("" ++ d ++ after) with (d ++ after).
    rewrite (re_split_digit_run d after Hd Hafter). reflexivity.
  - change (String c before ++ d ++ after) with (String c (before ++ d ++ after)).
    destruct before as [| c' before'].
    + cbn [ends_with_digit] in Hbefore.
      change ("" ++ d ++ after) with (d ++ after).
      cbn [re_split_digits]. rewrite Hbefore.
      rewrite (re_split_digit_run d after Hd Hafter). reflexivity.
    + assert (Hrest : ends_with_digit (String c' before') = false) by exact Hbefore.
      specialize (IH Hrest).
      rewrite (re_split_digits_cons c (String c' before' ++ d ++ after)).
      rewrite (re_split_digits_cons c (String c' before')).
      rewrite IH.
      pose proof (re_split_digits_empty (String c' before')) as Hne.
      destruct (re_split_digits_shape (String c' before')) as (t & more & Hs & _ & _).
      rewrite Hs in Hne |- *.
      destruct (Char.re_digit c).
      * destruct t as [| a t]; [| reflexivity].
        destruct more as [| d0 more']; [| reflexivity].
        specialize (Hne eq_refl). discriminate Hne.
      * reflexivity.
Qed.

Lemma rmap_app {A B} (f : A -> result B) (a b : list A) (a' b' : list B) :
  rmap f a = Ok a' -> rmap f b = Ok b' -> rmap f (a ++ b) = Ok (a' ++ b')%list.
Proof.
  revert a'. induction a as [| x a IH]; intros a' Ha Hb; simpl in *.
  - injection Ha as <-. exact Hb.
  - destruct (f x) as [y |]; simpl in *; [| discriminate Ha].
    destruct (rmap f a) as [ys |]; simpl in *; [| discriminate Ha].
    injection Ha as <-. rewrite (IH ys eq_refl Hb). reflexivity.
Qed.

(** The key of a numbered name. *)
Lemma natural_sort_key_numbered (before after : string) (n : nat)
  (kb ka : list key_elem) :
  ends_with_digit before = false ->
  starts_with_digit after = false ->
  natural_sort_key before = Ok kb ->
  natural_sort_key after = Ok ka ->
  short (decimal n) ->
  natural_sort_key (numbered before n after) = Ok (kb ++ KInt (Z.of_nat n) :: ka)%list.
Proof.
  intros Hb Ha Hkb Hka Hn. unfold natural_sort_key, numbered in *.
  rewrite (re_split_around_number before (decimal n) after Hb (decimal_digit_run n) Ha).
  apply rmap_app; [exact Hkb |].
  cbn [rmap]. rewrite (key_of_decimal n Hn), Hka. reflexivity.
Qed.

Lemma key_elem_eqb_refl (x : key_elem) : key_elem_eqb x x = true.
Proof. apply key_elem_eqb_eq. reflexivity. Qed.

Lemma key_lt_irrefl (k : list key_elem) : key_lt k k = Ok false.
Proof.
  induction k as [| x k IH]; [reflexivity |].
  cbn [key_lt]. rewrite key_elem_eqb_refl. exact IH.
Qed.

Lemma key_lt_common_prefix (k a b : list key_elem) :
  key_lt (k ++ a) (k ++ b) = key_lt a b.
Proof.
  induction k as [| x k IH]; [reflexivity |].
  cbn [app key_lt]. rewrite key_elem_eqb_refl. exact IH.
Qed.

Lemma key_ltb_irrefl (k : list key_elem) : key_ltb k k = false.
Proof.
  induction k as [| x k IH]; [reflexivity |].
  cbn [key_ltb]. rewrite key_elem_eqb_refl. exact IH.
Qed.

Lemma key_ltb_common_prefix (k a b : list key_elem) :
  key_ltb (k ++ a) (k ++ b) = key_ltb a b.
Proof.
  induction k as [| x k IH]; [reflexivity |].
  cbn [app key_ltb]. rewrite key_elem_eqb_refl. exact IH.
Qed.

Lemma key_lt_numbers (m n : nat) (k : list key_elem) :
  key_lt (KInt (Z.of_nat m) :: k) (KInt (Z.of_nat n) :: k) = Ok (m <? n)%nat.
Proof.
  cbn [key_lt key_elem_eqb key_elem_lt].
  destruct (Z.eqb_spec (Z.of_nat m) (Z.of_nat n)) as [Heq | Hne].
  - apply Nat2Z.inj in Heq. subst n. rewrite key_lt_irrefl, Nat.ltb_irrefl. reflexivity.
  - f_equal. destruct (Z.ltb_spec (Z.of_nat m) (Z.of_nat n)), (Nat.ltb_spec m n);
      try reflexivity; lia.
Qed.

Lemma key_ltb_numbers (m n : nat) (k : list key_elem) :
  key_ltb (KInt (Z.of_nat m) :: k) (KInt (Z.of_nat n) :: k) = (m <? n)%nat.
Proof.
  cbn [key_ltb key_elem_eqb key_elem_ltb].
  destruct (Z.eqb_spec (Z.of_nat m) (Z.of_nat n)) as [Heq | Hne].
  - apply Nat2Z.inj in Heq. subst n. rewrite key_ltb_irrefl, Nat.ltb_irrefl. reflexivity.
  - destruct (Z.ltb_spec (Z.of_nat m) (Z.of_nat n)), (Nat.ltb_spec m n);
      try reflexivity; lia.
Qed.

(** X2.  Two names that differ in one number compare as the numbers do,
    whatever the number of digits up to the 4300 that [int] takes. *)
Theorem numbered_names_compare_by_number :
  forall (before after : string) (m n : nat),
    ends_with_digit before = false ->
    starts_with_digit after = false ->
    has_key before ->
    has_key after ->
    short (decimal m) ->
    short (decimal n) ->
    exists km kn,
      natural_sort_key (numbered before m after) = Ok km
      /\ natural_sort_key (numbered before n after) = Ok kn
      /\ key_lt km kn = Ok (m <? n)%nat.
Proof.
  intros before after m n Hb Ha Hkb Hka Hm Hn. unfold has_key in Hkb, Hka.
  destruct (natural_sort_key before) as [kb |] eqn:Hbefore; [| discriminate Hkb].
  destruct (natural_sort_key after) as [ka |] eqn:Hafter; [| discriminate Hka].
  exists (kb ++ KInt (Z.of_nat m) :: ka)%list, (kb ++ KInt (Z.of_nat n) :: ka)%list.
  split; [apply natural_sort_key_numbered; assumption |].
  split; [apply natural_sort_key_numbered; assumption |].
  rewrite key_lt_common_prefix. apply key_lt_numbers.
Qed.

Lemma numbered_names_compare_by_number_witness :
  exists km kn,
    natural_sort_key "page_2.png" = Ok km
    /\ natural_sort_key "page_10.png" = Ok kn
    /\ key_lt km kn = Ok true.
Proof.
  apply (numbered_names_compare_by_number "page_" ".png" 2 10);
    first [reflexivity | shortness].
Defined.

(** ** Sorting names whose keys are defined *)

Lemma rmap_ok_forall {A B} (f : A -> result B) (l : list A) (r : list B) :
  rmap f l = Ok r -> Forall (fun x => is_Ok (f x) = true) l.
Proof.
  revert r. induction l as [| x l IH]; intros r H; [constructor |].
  simpl in H. destruct (f x) as [y |] eqn:Hx; simpl in H; [| discriminate H].
  destruct (rmap f l) as [ys |]; simpl in H; [| discriminate H].
  constructor; [rewrite Hx; reflexivity | apply (IH ys eq_refl)].
Qed.

Lemma sorted_natural_has_keys (paths ordered : list string) :
  sorted_natural paths = Ok ordered -> Forall has_key paths.
Proof.
  unfold sorted_natural, sorted. intros H.
  destruct (rmap natural_sort_key paths) as [keys |] eqn:Hkeys; [| discriminate H].
  exact (rmap_ok_forall natural_sort_key paths keys Hkeys).
Qed.

Lemma sorting_again_keeps_order (paths ordered : list string) :
  sorted_natural paths = Ok ordered -> sorted_natural ordered = Ok ordered.
Proof.
  intros H.
  pose proof (sorted_natural_has_keys paths ordered H) as Hkeys.
  destruct (sorted_natural_sorts paths Hkeys) as (ordered' & Hs & Hperm & Hsorted).
  rewrite H in Hs. injection Hs as <-.
  apply sorted_natural_id; [| exact Hsorted].
  apply (Permutation_Forall Hperm), Hkeys.
Qed.

(** X3.  Sorting what [sorted] returned changes nothing: the second and
    the third sort of a run return the list they are given. *)
Theorem sorted_natural_idempotent :
  forall paths ordered : list string,
    sorted_natural paths = Ok ordered ->
    sorted_natural ordered = Ok ordered.
Proof. exact sorting_again_keeps_order. Qed.

Lemma sorted_natural_idempotent_witness :
  sorted_natural ["page_1"; "page_2"; "page_10"] = Ok ["page_1"; "page_2"; "page_10"].
Proof.
  apply (sorted_natural_idempotent ["page_2"; "page_10"; "page_1"]).
  reflexivity.
Defined.

Lemma re_split_text (t : string) : is_text t = true -> re_split_digits t = [t].
Proof.
  induction t as [| c t IH]; [reflexivity |].
  unfold is_text in *. cbn [Str.all]. intros H.
  apply andb_true_iff in H as [Hc Ht]. apply negb_true_iff in Hc.
  cbn [re_split_digits]. rewrite Hc, (IH Ht). reflexivity.
Qed.

Lemma text_not_isdigit (t : string) :
  plain t = true -> is_text t = true -> Str.isdigit t = false.
Proof.
  destruct t as [| c t]; [reflexivity |].
  unfold plain, is_text. cbn [Str.all Str.isdigit]. intros Hp Ht.
  apply andb_true_iff in Hp as [Hc _]. apply andb_true_iff in Ht as [Hd _].
  apply negb_true_iff in Hd. rewrite Hd in Hc.
  destruct (Char.isdigit c); [discriminate Hc | reflexivity].
Qed.

(** X4.  Names of at most 4300 characters without a digit that is not a
    decimal digit always have a key, which starts with a text and
    alternates; such a name without any digit is one text token; and
    sorting such names never raises. *)
Theorem plain_names_sort :
  forall names : list string,
    Forall (fun s => plain s = true) names ->
    Forall short names ->
    Forall (fun s => exists k,
                natural_sort_key s = Ok k
                /\ alternates true k = true
                /\ (is_text s = true -> k = [KText (Str.lower s)])) names
    /\ exists ordered,
         sorted_natural names = Ok ordered
         /\ Permutation names ordered
         /\ StronglySorted natural_le ordered.
Proof.
  intros names Hplain Hshort.
  assert (Hboth : Forall (fun s => plain s = true /\ short s) names).
  { apply List.Forall_forall. intros s Hin. split.
    - exact (proj1 (List.Forall_forall _ _) Hplain s Hin).
    - exact (proj1 (List.Forall_forall _ _) Hshort s Hin). }
  split.
  - apply (List.Forall_impl _ (P := fun s => plain s = true /\ short s));
      [| exact Hboth].
    intros s [Hs Hlen].
    pose proof (natural_sort_key_defined s Hs Hlen) as Hk. unfold has_key in Hk.
    destruct (natural_sort_key s) as [k |] eqn:Hkey; [| discriminate Hk].
    exists k. split; [reflexivity |].
    split; [apply (natural_sort_key_shape s), Hkey |].
    intros Ht. unfold natural_sort_key in Hkey.
    rewrite (re_split_text s Ht) in Hkey. cbn [rmap] in Hkey.
    unfold key_of_piece in Hkey. rewrite (text_not_isdigit s Hs Ht) in Hkey.
    simpl in Hkey. injection Hkey as <-. reflexivity.
  - apply sorted_natural_sorts.
    apply (List.Forall_impl _ (P := fun s => plain s = true /\ short s));
      [| exact Hboth].
    intros s [Hs Hlen]. apply natural_sort_key_defined; assumption.
Qed.

Lemma plain_names_sort_witness :
  exists ordered,
    sorted_natural ["Slide B"; "slide a"; "page_10"; "page_9"] = Ok ordered
    /\ Permutation ["Slide B"; "slide a"; "page_10"; "page_9"] ordered
    /\ StronglySorted natural_le ordered.
Proof.
  apply (plain_names_sort ["Slide B"; "slide a"; "page_10"; "page_9"]).
  - repeat (apply List.Forall_cons; [reflexivity |]). apply List.Forall_nil.
  - repeat (apply List.Forall_cons; [shortness |]). apply List.Forall_nil.
Defined.

(** ** parse_json on any text *)

Lemma scan_none (lines : list string) :
  parse_json_scan lines = None <-> ~ In fence_opener lines.
Proof.
  induction lines as [| l rest IH]; simpl.
  - split; [intros _ [] | reflexivity].
  - destruct (String.eqb_spec l fence_opener) as [-> | Hne].
    + split; [discriminate | intros H; exfalso; apply H; left; reflexivity].
    + rewrite IH. split.
      * intros H [Heq | Hin]; [exact (Hne Heq) | exact (H Hin)].
      * intros H Hin. apply H. right. exact Hin.
Qed.

Lemma before_first_prefix (sep s : string) :
  exists rest, s = Str.before_first sep s ++ rest.
Proof.
  induction s as [| c s [rest IH]].
  - exists "". cbn [Str.before_first]. destruct (Str.strip_prefix sep ""); reflexivity.
  - cbn [Str.before_first]. destruct (Str.strip_prefix sep (String c s)).
    + exists (String c s). reflexivity.
    + exists rest.
      change (String c (Str.before_first sep s) ++ rest)
        with (String c (Str.before_first sep s ++ rest)).
      rewrite <- IH. reflexivity.
Qed.

(** What [split(sep)[0]] returns holds no [sep]. *)
Lemma before_first_free (sep s : string) :
  sep <> "" -> Str.contains sep (Str.before_first sep s) = false.
Proof.
  intros Hsep.
  assert (Hempty : Str.contains sep "" = false).
  { destruct sep; [contradiction | reflexivity]. }
  induction s as [| c s IH].
  - cbn [Str.before_first]. destruct (Str.strip_prefix sep ""); exact Hempty.
  - cbn [Str.before_first]. destruct (Str.strip_prefix sep (String c s)) eqn:Hp;
      [exact Hempty |].
    cbn [Str.contains]. rewrite IH.
    destruct (Str.strip_prefix sep (String c (Str.before_first sep s))) as [r |] eqn:Hq;
      [| reflexivity].
    destruct (before_first_prefix sep s) as [rest Hs].
    apply (strip_prefix_app sep _ rest r) in Hq.
    change (String c (Str.before_first sep s) ++ rest)
      with (String c (Str.before_first sep s ++ rest)) in Hq.
    rewrite <- Hs, Hp in Hq. discriminate Hq.
Qed.

Lemma contains_tail (f : string) (c : ascii) (s : string) :
  Str.contains f (String c s) = false -> Str.contains f s = false.
Proof. intros H. apply (contains_cons f c s H). Qed.

(** No line of a text without a fence opens one. *)
Lemma fence_free_lines (n : nat) :
  forall s : string,
    (String.length s <= n)%nat ->
    Str.contains fence s = false ->
    parse_json_scan (Str.splitlines s) = None.
Proof.
  induction n as [| n IH]; intros s Hlen Hc.
  - destruct s; [reflexivity | simpl in Hlen; lia].
  - destruct s as [| c s]; [reflexivity |].
    simpl in Hlen. apply contains_cons in Hc as [Hprefix Hrest].
    destruct (Char.is_linebreak c) eqn:Hb.
    + cbn [Str.splitlines]. rewrite Hb.
      cbn [parse_json_scan]. change (String.eqb "" fence_opener) with false. cbv iota.
      destruct (Ascii.eqb c Str.cr).
      * destruct s as [| d s']; [reflexivity |].
        destruct (Ascii.eqb d Str.lf).
        -- apply IH; [simpl in Hlen; lia | apply (contains_tail fence d s' Hrest)].
        -- apply IH; [lia | exact Hrest].
      * apply IH; [lia | exact Hrest].
    + rewrite (splitlines_other c s Hb).
      pose proof (IH s ltac:(lia) Hrest) as Hs.
      destruct (Str.splitlines s) as [| l ls] eqn:Hlines.
      * cbn [parse_json_scan].
        rewrite (not_opener (String c "") s Hprefix). reflexivity.
      * destruct (first_line_prefix s l ls Hlines) as [rest Hrest'].
        cbn [parse_json_scan] in *.
        rewrite (not_opener (String c l) rest);
          [| rewrite Hrest' in Hprefix; exact Hprefix].
        destruct (String.eqb l fence_opener); [discriminate Hs | exact Hs].
Qed.

Lemma parse_json_fence_free (s : string) :
  Str.contains fence s = false -> parse_json s = s.
Proof.
  intros H. unfold parse_json.
  rewrite (fence_free_lines (String.length s) s (Nat.le_refl _) H). reflexivity.
Qed.

Lemma parse_json_cases (s : string) :
  (In fence_opener (Str.splitlines s) /\ Str.contains fence (parse_json s) = false)
  \/ (~ In fence_opener (Str.splitlines s) /\ parse_json s = s).
Proof.
  unfold parse_json.
  destruct (parse_json_scan (Str.splitlines s)) as [payload |] eqn:Hscan.
  - left. split.
    + destruct (in_dec string_dec fence_opener (Str.splitlines s)) as [Hin | Hout];
        [exact Hin |].
      apply scan_none in Hout. congruence.
    + clear -Hscan. induction (Str.splitlines s) as [| l rest IH]; [discriminate Hscan |].
      cbn [parse_json_scan] in Hscan. destruct (String.eqb l fence_opener).
      * injection Hscan as <-. apply before_first_free. discriminate.
      * apply IH, Hscan.
  - right. split; [apply scan_none, Hscan | reflexivity].
Qed.

(** X5.  [parse_json] either finds a line that opens a fence, and then
    returns a text without any fence marker, or returns its input; in both
    cases a second pass changes nothing. *)
Theorem parse_json_idempotent :
  forall s : string,
    ((In fence_opener (Str.splitlines s) /\ Str.contains fence (parse_json s) = false)
     \/ (~ In fence_opener (Str.splitlines s) /\ parse_json s = s))
    /\ parse_json (parse_json s) = parse_json s.
Proof.
  intros s. split; [apply parse_json_cases |].
  destruct (parse_json_cases s) as [[_ Hfree] | [_ Hsame]].
  - apply parse_json_fence_free, Hfree.
  - rewrite Hsame. exact Hsame.
Qed.

(** ** The fenced block inside a longer answer *)

Lemma join_splitlines_tail (s tail : string) :
  lf_only s = true ->
  tail <> "" ->
  Str.join Str.nl (Str.splitlines (s ++ tail)) = s ++ Str.join Str.nl (Str.splitlines tail).
Proof.
  intros Hs Htail. induction s as [| c s IH]; [reflexivity |].
  apply lf_only_cons in Hs as [Hc Hs]. specialize (IH Hs).
  change (String c s ++ tail) with (String c (s ++ tail)).
  change (String c s ++ Str.join Str.nl (Str.splitlines tail))
    with (String c (s ++ Str.join Str.nl (Str.splitlines tail))).
  assert (Hne : Str.splitlines (s ++ tail) <> []).
  { intros Hnil. apply splitlines_nil in Hnil.
    destruct s; [exact (Htail Hnil) | discriminate Hnil]. }
  destruct (Str.splitlines (s ++ tail)) as [| l ls] eqn:Hlines; [congruence |].
  destruct (Char.is_linebreak c) eqn:Hbreak.
  - destruct Hc as [Hc | ->]; [discriminate Hc |].
    rewrite splitlines_lf, Hlines, join_empty_line, IH. reflexivity.
  - rewrite (splitlines_other c _ Hbreak), Hlines, join_cons_char, IH. reflexivity.
Qed.

Lemma join_splitlines_char (c : ascii) (r : string) :
  Char.is_linebreak c = false ->
  Str.join Str.nl (Str.splitlines (String c r))
  = String c (Str.join Str.nl (Str.splitlines r)).
Proof.
  intros Hc. rewrite (splitlines_other c r Hc).
  destruct (Str.splitlines r) as [| l ls]; [reflexivity | apply join_cons_char].
Qed.

Lemma before_first_closing_fence (p rest : string) :
  Str.contains fence p = false ->
  Str.before_first fence (p ++ Str.nl ++ fence ++ rest) = p ++ Str.nl.
Proof.
  induction p as [| c p IH]; intros Hp.
  - reflexivity.
  - apply contains_cons in Hp as [Hprefix Hrest].
    change (String c p ++ Str.nl ++ fence ++ rest)
      with (String c (p ++ Str.nl ++ fence ++ rest)).
    cbn [Str.before_first].
    change (String c (p ++ Str.nl ++ fence ++ rest))
      with (String c p ++ Str.nl ++ fence ++ rest).
    rewrite (strip_prefix_nl fence (String c p) (fence ++ rest) eq_refl Hprefix).
    change (String c p ++ Str.nl) with (String c (p ++ Str.nl)).
    rewrite (IH Hrest). reflexivity.
Qed.

Lemma parse_json_fenced (p after : string) :
  lf_only p = true ->
  Str.contains fence p = false ->
  parse_json_scan (Str.splitlines (wrap_in_fence p ++ after)) = Some (p ++ Str.nl).
Proof.
  intros Hlf Hc. unfold wrap_in_fence.
  rewrite !string_app_assoc.
  rewrite (splitlines_first_line fence_opener (p ++ Str.nl ++ fence ++ after) eq_refl).
  cbn [parse_json_scan]. rewrite String.eqb_refl. f_equal.
  rewrite (join_splitlines_tail p (Str.nl ++ fence ++ after) Hlf) by discriminate.
  change (Str.nl ++ fence ++ after) with (String Str.lf (fence ++ after)).
  rewrite splitlines_lf.
  assert (Hfence : Str.join Str.nl (Str.splitlines (fence ++ after))
                   = fence ++ Str.join Str.nl (Str.splitlines after)).
  { change (fence ++ after) with (String "`" (String "`" (String "`" after))).
    rewrite !join_splitlines_char by reflexivity. reflexivity. }
  destruct (Str.splitlines (fence ++ after)) as [| l ls] eqn:Hlines.
  - apply splitlines_nil in Hlines. discriminate Hlines.
  - rewrite join_empty_line, Hfence.
    change (String Str.lf (fence ++ ?x)) with (Str.nl ++ fence ++ x).
    apply before_first_closing_fence, Hc.
Qed.

(** X6.  Whatever stands before the line that opens the fence and after
    the marker that closes it is dropped: the payload comes out, with the
    line feed that closed its last line. *)
Theorem parse_json_extracts_fenced_block :
  forall (before : list string) (payload after : string),
    Forall ordinary_line before ->
    lf_only payload = true ->
    Str.contains fence payload = false ->
    parse_json (lines_before before (wrap_in_fence payload ++ after))
    = payload ++ Str.nl.
Proof.
  intros before payload after Hbefore Hlf Hc. unfold parse_json.
  assert (Hscan : parse_json_scan
                    (Str.splitlines (lines_before before (wrap_in_fence payload ++ after)))
                  = Some (payload ++ Str.nl));
    [| rewrite Hscan; reflexivity].
  induction Hbefore as [| l rest [Hline Hne] _ IH].
  - apply parse_json_fenced; assumption.
  - cbn [lines_before fold_right].
    rewrite (splitlines_first_line l _ Hline).
    cbn [parse_json_scan].
    destruct (String.eqb_spec l fence_opener) as [Heq | _]; [contradiction |].
    exact IH.
Qed.

Lemma parse_json_extracts_fenced_block_witness :
  parse_json (lines_before ["Here is the result:"; ""]
                (wrap_in_fence "[1, 2]" ++ Str.nl ++ "Anything else?"))
  = "[1, 2]" ++ Str.nl.
Proof.
  apply (parse_json_extracts_fenced_block ["Here is the result:"; ""] "[1, 2]"
           (Str.nl ++ "Anything else?")).
  - repeat constructor; discriminate.
  - reflexivity.
  - reflexivity.
Defined.

(** ** smart_resize on a turned page *)

(** X7.  Turning the page by a quarter turns the result: when
    [smart_resize] returns for a height and a width, it returns the same two
    numbers, exchanged, for the width and the height. *)
Theorem smart_resize_transposes :
  forall (pow : spec_float -> spec_float) (height width min_pixels max_pixels a b : Z),
    smart_resize pow height width min_pixels max_pixels = Ok (a, b) ->
    smart_resize pow width height min_pixels max_pixels = Ok (b, a).
Proof.
  intros pow height width lo hi a b. unfold smart_resize.
  rewrite (Z.mul_comm width height). cbv zeta.
  match goal with |- context [if ?c then Ok _ else _] => destruct c end.
  - intros H. injection H as <- <-. reflexivity.
  - match goal with |- rbind ?s _ = _ -> _ => destruct s as [scale |] end;
      simpl; [| discriminate].
    destruct (scale_dim height scale) as [h' |]; simpl; [| discriminate].
    destruct (scale_dim width scale) as [w' |]; simpl; [| discriminate].
    intros H. injection H as <- <-. reflexivity.
Qed.

Lemma smart_resize_transposes_witness :
  smart_resize Float.sqrt 400 300 min_pixels max_pixels = Ok (731, 548).
Proof.
  apply (smart_resize_transposes Float.sqrt 300 400 min_pixels max_pixels 548 731).
  vm_compute. reflexivity.
Defined.

(** ** The corners of a box *)

Lemma box_corners_ordered (bbox : pyval) (width height input_width input_height : Z)
  (x1 y1 x2 y2 : Z) :
  box_corners bbox width height input_width input_height = Ok (x1, y1, x2, y2) ->
  x1 <= x2 /\ y1 <= y2.
Proof.
  unfold box_corners.
  destruct (rescale bbox 1 input_height height) as [ay1 |]; simpl; [| discriminate].
  destruct (rescale bbox 0 input_width width) as [ax1 |]; simpl; [| discriminate].
  destruct (rescale bbox 3 input_height height) as [ay2 |]; simpl; [| discriminate].
  destruct (rescale bbox 2 input_width width) as [ax2 |]; simpl; [| discriminate].
  destruct (Z.gtb_spec ax1 ax2), (Z.gtb_spec ay1 ay2);
    intros Heq; injection Heq as <- <- <- <-; lia.
Qed.

(** X8.  A box given by its lower right corner first is drawn as the same
    rectangle as the box given by its upper left corner first, and the
    rectangle has its corners in order. *)
Theorem box_corners_mirror :
  forall (a b c d : pyval) (rest rest' : list pyval)
         (width height input_width input_height x1 y1 x2 y2 : Z),
    box_corners (VList (a :: b :: c :: d :: rest)) width height input_width input_height
    = Ok (x1, y1, x2, y2) ->
    box_corners (VList (c :: d :: a :: b :: rest')) width height input_width input_height
    = Ok (x1, y1, x2, y2)
    /\ x1 <= x2 /\ y1 <= y2.
Proof.
  intros a b c d rest rest' width height iw ih x1 y1 x2 y2 H.
  split; [| apply (box_corners_ordered _ _ _ _ _ _ _ _ _ H)].
  revert H. unfold box_corners, rescale. cbn [Py.index nth_error rbind].
  destruct (v <- Py.truediv_int b ih ;; x <- Py.mul_int v height ;; Float.to_int x)%res
    as [yb |]; simpl; [| discriminate].
  destruct (v <- Py.truediv_int a iw ;; x <- Py.mul_int v width ;; Float.to_int x)%res
    as [xa |]; simpl; [| discriminate].
  destruct (v <- Py.truediv_int d ih ;; x <- Py.mul_int v height ;; Float.to_int x)%res
    as [yd |]; simpl; [| discriminate].
  destruct (v <- Py.truediv_int c iw ;; x <- Py.mul_int v width ;; Float.to_int x)%res
    as [xc |]; simpl; [| discriminate].
  destruct (Z.gtb_spec xa xc), (Z.gtb_spec yb yd), (Z.gtb_spec xc xa), (Z.gtb_spec yd yb);
    intros Heq; injection Heq as <- <- <- <-; try lia;
    repeat f_equal; lia.
Qed.

Lemma box_corners_mirror_witness :
  box_corners (VList [VInt 700; VInt 300; VInt 650; VInt 100]) 1000 800 1000 800
  = Ok (650, 100, 700, 300)
  /\ 650 <= 700 /\ 100 <= 300.
Proof.
  apply (box_corners_mirror (VInt 650) (VInt 100) (VInt 700) (VInt 300) [] []
           1000 800 1000 800).
  vm_compute. reflexivity.
Defined.

(** ** get_font *)

(** X9.  [get_font] tries the font files in the order of the list and
    returns the first that loads; a file that fails with [OSError] is
    passed over, any other exception ends the search; when every file fails
    with [OSError] the default font is asked for. *)
Theorem get_font_first_loadable :
  forall (E : env) (size : Z) (missing : list string) (path : string)
         (others : list string),
    Forall (fun p => truetype E (Some p) size = Raise OSError) missing ->
    (forall f, truetype E (Some path) size = Ok f ->
               get_font_from E (missing ++ path :: others) size = Ok f)
    /\ (forall e, truetype E (Some path) size = Raise e -> is_OSError e = false ->
                  get_font_from E (missing ++ path :: others) size = Raise e)
    /\ get_font_from E missing size = truetype E None size.
Proof.
  intros E size missing path others Hmissing.
  induction Hmissing as [| p missing Hp _ (IHok & IHraise & IHnone)].
  - split; [| split].
    + intros f Hf. cbn [app get_font_from]. rewrite Hf. reflexivity.
    + intros e He Hclass. cbn [app get_font_from]. rewrite He, Hclass. reflexivity.
    + reflexivity.
  - split; [| split].
    + intros f Hf. cbn [app get_font_from]. rewrite Hp. simpl. apply IHok, Hf.
    + intros e He Hclass. cbn [app get_font_from]. rewrite Hp. simpl.
      apply IHraise; assumption.
    + cbn [get_font_from]. rewrite Hp. simpl. exact IHnone.
Qed.

Lemma get_font_first_loadable_witness :
  get_font Bare.machine 40
  = Ok {| font_file := Some "/Library/Fonts/Arial.ttf"; font_size := 40 |}.
Proof.
  apply (get_font_first_loadable Bare.machine 40
           ["/System/Library/Fonts/SF-Pro.ttf"; "/System/Library/Fonts/Helvetica.ttc"]
           "/Library/Fonts/Arial.ttf" ["/System/Library/Fonts/SFNSText.ttf"]).
  - repeat constructor.
  - reflexivity.
Defined.

(** ** Paths *)

Lemma length_app (a b : string) :
  String.length (a ++ b) = (String.length a + String.length b)%nat.
Proof.
  induction a as [| x a IH]; [reflexivity |].
  change (String x a ++ b) with (String x (a ++ b)). simpl. rewrite IH. reflexivity.
Qed.

Lemma string_app_inv_head (a b c : string) : a ++ b = a ++ c -> b = c.
Proof.
  induction a as [| x a IH]; [exact (fun H => H) |].
  change (String x a ++ b) with (String x (a ++ b)).
  change (String x a ++ c) with (String x (a ++ c)).
  intros H. injection H as H. apply IH, H.
Qed.

Lemma rev_onto_app (s acc : string) : Str.rev_onto s acc = Str.rev s ++ acc.
Proof.
  unfold Str.rev. revert acc. induction s as [| c s IH]; intros acc; [reflexivity |].
  cbn [Str.rev_onto]. rewrite (IH (String c acc)), (IH (String c "")).
  rewrite string_app_assoc. reflexivity.
Qed.

Lemma rev_cons (c : ascii) (s : string) : Str.rev (String c s) = Str.rev s ++ String c "".
Proof. unfold Str.rev at 1. cbn [Str.rev_onto]. apply rev_onto_app. Qed.


Lemma rsplit_none (sep : ascii) (s : string) :
  Path.rsplit sep s = None <-> Str.all (fun c => negb (Ascii.eqb c sep)) s = true.
Proof.
  induction s as [| a s IH]; [split; reflexivity |].
  cbn [Path.rsplit Str.all].
  destruct (Path.rsplit sep s) as [[h t] |].
  - split; [discriminate |]. intros H. apply andb_true_iff in H as [_ H].
    apply IH in H. discriminate H.
  - destruct (Ascii.eqb a sep); simpl.
    + split; discriminate.
    + split; [intros _; apply IH; reflexivity | reflexivity].
Qed.

Lemma rsplit_some (sep : ascii) (s h t : string) :
  Path.rsplit sep s = Some (h, t) ->
  s = h ++ String sep t /\ Str.all (fun c => negb (Ascii.eqb c sep)) t = true.
Proof.
  revert h. induction s as [| a s IH]; intros h; [discriminate |].
  cbn [Path.rsplit].
  destruct (Path.rsplit sep s) as [[h' t'] |] eqn:Hs.
  - intros H. injection H as <- <-.
    destruct (IH h' eq_refl) as [-> Ht]. split; [reflexivity | exact Ht].
  - destruct (Ascii.eqb_spec a sep) as [-> |]; [| discriminate].
    intros H. injection H as <- <-. split; [reflexivity |].
    apply rsplit_none, Hs.
Qed.

Lemma rsplit_app (sep : ascii) (h t : string) :
  Str.all (fun c => negb (Ascii.eqb c sep)) t = true ->
  Path.rsplit sep (h ++ String sep t) = Some (h, t).
Proof.
  intros Ht. induction h as [| a h IH].
  - change ("" ++ String sep t) with (String sep t). cbn [Path.rsplit].
    apply rsplit_none in Ht. rewrite Ht, Ascii.eqb_refl. reflexivity.
  - change (String a h ++ String sep t) with (String a (h ++ String sep t)).
    cbn [Path.rsplit]. rewrite IH. reflexivity.
Qed.

Lemma basename_no_slash (p : string) : no_slash (Path.basename p) = true.
Proof.
  unfold Path.basename, no_slash.
  destruct (Path.rsplit "/" p) as [[h t] |] eqn:Hp.
  - apply (rsplit_some "/" p h t Hp).
  - apply rsplit_none in Hp. exact Hp.
Qed.

Lemma basename_plain_name (x : string) : no_slash x = true -> Path.basename x = x.
Proof.
  intros Hx. unfold Path.basename.
  assert (H : Path.rsplit "/" x = None) by (apply rsplit_none; exact Hx).
  rewrite H. reflexivity.
Qed.

(** [os.path.join] case by case. *)
Lemma join_spec (a b : string) :
  Path.join a b
  = if starts_with_slash b then b
    else match a with
         | "" => b
         | _ => if ends_with_slash a then a ++ b else a ++ "/" ++ b
         end.
Proof.
  unfold Path.join, ends_with_slash, starts_with_slash.
  assert (Hinner : match a with
                   | "" => b
                   | String _ _ =>
                       match Str.rev a with
                       | String "/" _ => a ++ b
                       | _ => a ++ "/" ++ b
                       end
                   end
                   = match a with
                     | "" => b
                     | String _ _ =>
                         if match Str.rev a with
                            | String c _ => Path.is_slash c
                            | "" => false
                            end
                         then a ++ b else a ++ "/" ++ b
                     end).
  { destruct a as [| x a]; [reflexivity |].
    destruct (Str.rev (String x a)) as [| c r]; [reflexivity |].
    destruct c as [[] [] [] [] [] [] [] []]; reflexivity. }
  destruct b as [| c b]; [exact Hinner |].
  destruct c as [[] [] [] [] [] [] [] []]; try exact Hinner; reflexivity.
Qed.

Lemma no_slash_start (x : string) : no_slash x = true -> starts_with_slash x = false.
Proof.
  destruct x as [| c x]; [reflexivity |]. unfold no_slash. cbn [Str.all starts_with_slash].
  intros H. apply andb_true_iff in H as [H _]. apply negb_true_iff, H.
Qed.

Lemma ends_with_slash_split (a : string) :
  ends_with_slash a = true -> exists a', a = a' ++ "/".
Proof.
  unfold ends_with_slash, starts_with_slash.
  destruct (Str.rev a) as [| c r] eqn:Hrev; [discriminate |].
  intros Hc. apply Ascii.eqb_eq in Hc. subst c.
  exists (Str.rev r). rewrite <- (rev_rev a), Hrev, rev_cons. reflexivity.
Qed.

(** The last component of a joined path is the name that was joined. *)
Lemma basename_join (d x : string) :
  no_slash x = true -> Path.basename (Path.join d x) = x.
Proof.
  intros Hx. rewrite join_spec, (no_slash_start x Hx).
  destruct d as [| c d]; [apply basename_plain_name, Hx |].
  unfold Path.basename.
  destruct (ends_with_slash (String c d)) eqn:Hend.
  - destruct (ends_with_slash_split _ Hend) as [d' ->].
    rewrite string_app_assoc. change ("/" ++ x) with (String "/" x).
    rewrite (rsplit_app "/" d' x Hx). reflexivity.
  - change ("/" ++ x) with (String "/" x).
    rewrite (rsplit_app "/" (String c d) x Hx). reflexivity.
Qed.

(** The two parts [os.path.splitext] returns make up the path. *)
Lemma splitext_parts (p b e : string) : Path.splitext p = (b, e) -> b ++ e = p.
Proof.
  unfold Path.splitext.
  destruct (Path.rsplit "/" p) as [[h t] |] eqn:Hp.
  - destruct (rsplit_some "/" p h t Hp) as [-> _].
    destruct (Path.rsplit "." t) as [[stem ext] |] eqn:Ht.
    + destruct (rsplit_some "." t stem ext Ht) as [-> _].
      destruct (Str.all Path.is_dot stem).
      * intros H. injection H as <- <-. apply append_empty.
      * intros H. injection H as <- <-.
        rewrite !string_app_assoc. reflexivity.
    + intros H. injection H as <- <-. apply append_empty.
  - destruct (Path.rsplit "." p) as [[stem ext] |] eqn:Ht.
    + destruct (rsplit_some "." p stem ext Ht) as [-> _].
      destruct (Str.all Path.is_dot stem).
      * intros H. injection H as <- <-. apply append_empty.
      * intros H. injection H as <- <-. reflexivity.
    + intros H. injection H as <- <-. apply append_empty.
Qed.

Lemma no_slash_app (a b : string) : no_slash (a ++ b) = no_slash a && no_slash b.
Proof. apply all_app. Qed.

(** X10.  The default output path of a page is never the path of the page:
    [main] called without an output path does not write over its input. *)
Theorem default_output_path_differs :
  forall (image_path : string) (pdf_name : option string),
    default_output_path image_path pdf_name <> image_path.
Proof.
  intros p pdf_name Heq. unfold default_output_path in Heq.
  pose proof (basename_no_slash p) as Hname.
  destruct (Path.splitext (Path.basename p)) as [base ext] eqn:Hsplit.
  pose proof (splitext_parts _ _ _ Hsplit) as Hparts.
  rewrite <- Hparts, no_slash_app in Hname.
  apply andb_true_iff in Hname as [Hbase Hext].
  apply (f_equal Path.basename) in Heq.
  rewrite basename_join in Heq.
  - rewrite <- Hparts in Heq. apply (f_equal String.length) in Heq.
    rewrite !length_app in Heq. simpl in Heq. lia.
  - rewrite !no_slash_app, Hbase, Hext. reflexivity.
Qed.

(** Two input paths, with and without a document name. *)
Lemma default_output_path_differs_witness :
  String.eqb (default_output_path "imgs/deck/deck_page_1.png" (Some "deck"))
             "imgs/deck/deck_page_1.png" = false
  /\ String.eqb (default_output_path "page.png" None) "page.png" = false.
Proof.
  split; apply String.eqb_neq; apply default_output_path_differs.
Defined.

(** ** What the drawing loop adds to a picture *)

Lemma careful_same {A} (r0 : result A) :
  careful (fun s : canvas => (r0, s)).
Proof.
  intros img w r img' w' H. injection H as <- <- <-.
  split; [| apply grows_refl].
  exists []. split; [symmetry; apply add_ops_nil | constructor].
Qed.

Lemma careful_ret {A} (a : A) : careful (ret a).
Proof. apply (careful_same (Ok a)). Qed.

Lemma careful_raise {A} (e : exn) : careful (@raise canvas A e).
Proof. apply (careful_same (Raise e)). Qed.

Lemma careful_lift_result {A} (x : result A) : careful (lift_result x).
Proof. apply (careful_same x). Qed.

Lemma careful_draw (op : draw_op) : upright op -> careful (draw op).
Proof.
  intros Hop img w r img' w' H. rewrite draw_add in H. injection H as <- <- <-.
  split; [| apply grows_refl].
  exists [op]. split; [reflexivity | repeat constructor; exact Hop].
Qed.

Lemma careful_draw_text (x y : Z) (text : pyval) (f : font) :
  careful (draw_text x y text f).
Proof.
  destruct text; simpl; try apply careful_raise.
  apply careful_draw. exact I.
Qed.

Lemma careful_then (img img' : picture) (w w1 w' : world) (ops : list draw_op) :
  Forall upright ops -> grows w w1 ->
  (exists ops', img' = add_ops (add_ops img ops) ops' /\ Forall upright ops')
  /\ grows w1 w' ->
  (exists ops', img' = add_ops img ops' /\ Forall upright ops') /\ grows w w'.
Proof.
  intros Hops Hg [(ops' & -> & Hops') Hg'].
  split; [| eapply grows_trans; eassumption].
  exists (ops ++ ops')%list. split; [apply add_ops_app |].
  apply Forall_app. split; assumption.
Qed.

Lemma careful_bind {A B} (m : ST canvas A) (k : A -> ST canvas B) :
  careful m -> (forall a, careful (k a)) -> careful (bind m k).
Proof.
  intros Hm Hk img w r img' w' H. unfold bind in H.
  destruct (m (img, w)) as [[a | e] [img1 w1]] eqn:Hrun.
  - destruct (Hm _ _ _ _ _ Hrun) as [(ops & -> & Hops) Hg].
    apply (careful_then img img' w w1 w' ops Hops Hg).
    apply (Hk a _ _ _ _ _ H).
  - injection H as <- <- <-. apply (Hm _ _ _ _ _ Hrun).
Qed.

Lemma careful_try {A} (body : ST canvas A) (handles : exn -> bool)
  (handler : exn -> ST canvas A) :
  careful body -> (forall e, careful (handler e)) ->
  careful (try_except body handles handler).
Proof.
  intros Hb Hh img w r img' w' H. unfold try_except in H.
  destruct (body (img, w)) as [[a | e] [img1 w1]] eqn:Hrun.
  - injection H as <- <- <-. apply (Hb _ _ _ _ _ Hrun).
  - destruct (handles e).
    + destruct (Hb _ _ _ _ _ Hrun) as [(ops & -> & Hops) Hg].
      apply (careful_then img img' w w1 w' ops Hops Hg).
      apply (Hh e _ _ _ _ _ H).
    + injection H as <- <- <-. apply (Hb _ _ _ _ _ Hrun).
Qed.

Lemma careful_for_each {A} (body : A -> ST canvas unit) (l : list A) :
  (forall a, careful (body a)) -> careful (for_each body l).
Proof.
  intros Hb. induction l as [| x l IH]; simpl.
  - apply careful_ret.
  - apply careful_bind; [apply Hb | intros _; exact IH].
Qed.

Lemma careful_translate (E : env) (raw : pyval) :
  careful (lift_world (translateWithAPI E raw)).
Proof.
  intros img w r img' w' H. unfold lift_world in H. simpl in H.
  destruct (translateWithAPI E raw w) as [r0 w0] eqn:Htr.
  injection H as <- <- <-. split.
  - exists []. split; [symmetry; apply add_ops_nil | constructor].
  - apply (translate_grows E raw w w0 r0 Htr).
Qed.

Lemma careful_draw_box (E : env) (f : font) (width height input_width input_height : Z)
  (r : pyval) : careful (draw_box E f width height input_width input_height r).
Proof.
  unfold draw_box.
  apply careful_bind; [apply careful_lift_result |].
  intros [bbox |]; [| apply careful_ret].
  intros img w r0 img' w' H. unfold bind at 1, lift_result in H.
  destruct (box_corners bbox width height input_width input_height)
    as [[[[x1 y1] x2] y2] | e] eqn:Hcorners.
  - revert img w r0 img' w' H.
    apply careful_bind;
      [apply careful_draw; apply (box_corners_ordered _ _ _ _ _ _ _ _ _ Hcorners) |].
    intros _. apply careful_bind; [apply careful_lift_result |].
    intros [content |]; [| apply careful_ret].
    apply careful_try.
    + apply careful_bind; [apply careful_translate |].
      intros translated. apply careful_draw_text.
    + intros _. apply careful_draw_text.
  - apply (careful_raise e img w r0 img' w' H).
Qed.

Lemma careful_plot_body (E : env) (response : string)
  (width height input_width input_height : Z) :
  careful (plot_body E response width height input_width input_height).
Proof.
  unfold plot_body.
  apply careful_bind; [apply careful_lift_result |]. intros f.
  destruct (snd (parse_boxes E (parse_json response))) as [parsed |];
    [| apply careful_ret].
  apply careful_bind; [apply careful_lift_result |]. intros boxes.
  apply careful_for_each. intros r. apply careful_draw_box.
Qed.

Lemma plot_careful (E : env) (image_path response : string)
  (input_width input_height : Z) (img : picture) (w : world) :
  files w !! image_path = Some (ImageFile img) ->
  exists ops w',
    plot_text_bounding_boxes E image_path response input_width input_height w
    = (Ok (add_ops img ops), w')
    /\ Forall upright ops /\ grows w w'.
Proof.
  intros Hf. rewrite (plot_with_image _ _ _ _ _ _ _ Hf).
  destruct (try_except
              (plot_body E response (fst (pic_size img)) (snd (pic_size img))
                 input_width input_height)
              any_exception (fun _ => ret tt) (img, w)) as [r [img' w']] eqn:Hrun.
  assert (Hc : careful (try_except
                          (plot_body E response (fst (pic_size img)) (snd (pic_size img))
                             input_width input_height)
                          any_exception (fun _ => ret tt))).
  { apply careful_try; [apply careful_plot_body | intros _; apply careful_ret]. }
  destruct (Hc img w r img' w' Hrun) as [(ops & -> & Hops) Hg].
  exists ops, w'. cbn [fst snd]. split; [reflexivity | split; assumption].
Qed.

Lemma plot_without_image (E : env) (image_path response : string)
  (input_width input_height : Z) (w : world) :
  (forall img, files w !! image_path <> Some (ImageFile img)) ->
  plot_text_bounding_boxes E image_path response input_width input_height w
  = (Raise OSError, w).
Proof.
  intros Hf. unfold plot_text_bounding_boxes, bind, image_open.
  destruct (files w !! image_path) as [[img | pages] |] eqn:Hfile; try reflexivity.
  exfalso. apply (Hf img). reflexivity.
Qed.

(** X11.  Whatever the response is, [plot_text_bounding_boxes] raises only
    when the image cannot be opened; otherwise it returns the image that is
    on disk with outlines and texts added, every outline with its corners in
    order; it writes no file and calls no service but the translation
    service. *)
Theorem plot_only_adds_drawings :
  forall (E : env) (image_path response : string) (input_width input_height : Z)
         (w : world),
    (forall img, files w !! image_path = Some (ImageFile img) ->
       exists ops w',
         plot_text_bounding_boxes E image_path response input_width input_height w
         = (Ok (add_ops img ops), w')
         /\ Forall upright ops
         /\ files w' = files w
         /\ detections (remote_calls w') = detections (remote_calls w))
    /\ ((forall img, files w !! image_path <> Some (ImageFile img)) ->
        plot_text_bounding_boxes E image_path response input_width input_height w
        = (Raise OSError, w)).
Proof.
  intros E image_path response iw ih w. split.
  - intros img Hf.
    destruct (plot_careful E image_path response iw ih img w Hf)
      as (ops & w' & Hplot & Hops & Hfiles & texts & Hcalls).
    exists ops, w'. split; [exact Hplot |]. split; [exact Hops |].
    split; [exact Hfiles |].
    rewrite Hcalls, detections_app, detections_translations. apply app_nil_r.
  - apply plot_without_image.
Qed.

Lemma plot_only_adds_drawings_witness :
  exists ops w',
    plot_text_bounding_boxes Demo.configured Demo.page1 Mixed.response 1000 800 Demo.disk
    = (Ok (add_ops Mixed.blank ops), w')
    /\ Forall upright ops
    /\ files w' = files Demo.disk
    /\ detections (remote_calls w') = detections (remote_calls Demo.disk).
Proof.
  apply (plot_only_adds_drawings Demo.configured Demo.page1 Mixed.response 1000 800
           Demo.disk).
  vm_compute. reflexivity.
Defined.

(** X12.  A record with a box and a text: the outline is drawn, the
    translation service is asked once, for the text, and its answer is
    written at the lower left corner of the box.  A record with a box and no
    text, or an empty one: the outline alone, and no call. *)
Theorem draw_box_writes_the_translation :
  forall (E : env) (f : font) (width height input_width input_height : Z)
         (entries : list (string * pyval)) (items : list pyval)
         (x1 y1 x2 y2 : Z) (img : picture) (w : world),
    Py.lookup "bbox_2d" entries = Some (VList items) ->
    (4 <= List.length items)%nat ->
    box_corners (VList items) width height input_width input_height
    = Ok (x1, y1, x2, y2) ->
    let body := draw_box E f width height input_width input_height in
    (forall (c : ascii) (s translated : string),
        Py.lookup "text_content" entries = Some (VStr (String c s)) ->
        key_missing E = false ->
        translation_service E (VStr (String c s)) = Ok (VStr translated) ->
        body (VDict entries) (img, w)
        = (Ok tt,
           (add_ops img [Rectangle x1 y1 x2 y2; Text x1 y2 translated f],
            {| files := files w;
               remote_calls := remote_calls w ++ [Translation (VStr (String c s))] |})))
    /\ (Py.lookup "text_content" entries = None
        \/ Py.lookup "text_content" entries = Some (VStr "") ->
        body (VDict entries) (img, w)
        = (Ok tt, (add_ops img [Rectangle x1 y1 x2 y2], w))).
Proof.
  intros E f width height iw ih entries items x1 y1 x2 y2 img w Hbox Hlen Hcorners body.
  split.
  - intros c s translated Htext Hkey Hanswer. unfold body.
    rewrite (draw_box_draws E f width height iw ih entries items (Some (String c s))
               x1 y1 x2 y2 img w Hbox Hlen Hcorners)
      by (unfold text_field; rewrite Htext; reflexivity).
    cbv zeta. rewrite (translateWithAPI_with_key E _ w Hkey), Hanswer. reflexivity.
  - intros [Htext | Htext]; unfold body.
    + rewrite (draw_box_draws E f width height iw ih entries items None
                 x1 y1 x2 y2 img w Hbox Hlen Hcorners)
        by (unfold text_field; rewrite Htext; reflexivity).
      reflexivity.
    + rewrite (draw_box_draws E f width height iw ih entries items (Some "")
                 x1 y1 x2 y2 img w Hbox Hlen Hcorners)
        by (unfold text_field; rewrite Htext; reflexivity).
      reflexivity.
Qed.

Lemma draw_box_writes_the_translation_witness :
  draw_box Demo.configured Demo.noto 1000 800 1000 800 (VDict Greeting.entries)
    (Farewell.blank, Demo.disk)
  = (Ok tt,
     (add_ops Farewell.blank [Rectangle 100 200 500 260; Text 100 260 "hello" Demo.noto],
      {| files := files Demo.disk; remote_calls := [Translation (VStr "ni hao")] |})).
Proof.
  apply (draw_box_writes_the_translation Demo.configured Demo.noto 1000 800 1000 800
           Greeting.entries [VInt 100; VInt 200; VInt 500; VInt 260]
           100 200 500 260 Farewell.blank Demo.disk eq_refl).
  - simpl. lia.
  - vm_compute. reflexivity.
  - reflexivity.
  - reflexivity.
  - reflexivity.
Defined.

(** ** inference_with_api *)

Lemma inference_cases (E : env) (image_path : string) (w : world) :
  (inference_with_api E image_path w
   = (detection_service E image_path,
      {| files := files w; remote_calls := remote_calls w ++ [Detection image_path] |})
   /\ key_missing E = false
   /\ existsb (Path.endswith image_path) image_suffixes = true
   /\ path_exists image_path w = true)
  \/ exists e, inference_with_api E image_path w = (Raise e, w).
Proof.
  unfold inference_with_api.
  destruct (key_missing E); [right; eexists; reflexivity |].
  destruct (existsb (Path.endswith image_path) image_suffixes);
    [| right; eexists; reflexivity].
  cbn [negb]. unfold bind, encode_image, read_file, path_exists.
  destruct (files w !! image_path) as [f |] eqn:Hf;
    [| right; eexists; reflexivity].
  destruct (media_type (snd (Path.splitext image_path)));
    [| right; eexists; reflexivity].
  left. repeat split; reflexivity.
Qed.

(** X13.  [inference_with_api] writes no file and asks the vision model at
    most once.  It asks only with a credential, for a path with one of the
    four suffixes, of a file that exists; it then returns or raises what the
    service does.  In every other case it raises without a call. *)
Theorem inference_calls_at_most_once :
  forall (E : env) (image_path : string) (w w' : world) (r : result string),
    inference_with_api E image_path w = (r, w') ->
    files w' = files w
    /\ ((remote_calls w' = remote_calls w /\ is_Ok r = false)
        \/ (remote_calls w' = (remote_calls w ++ [Detection image_path])%list
            /\ r = detection_service E image_path
            /\ key_missing E = false
            /\ existsb (Path.endswith image_path) image_suffixes = true
            /\ path_exists image_path w = true)).
Proof.
  intros E image_path w w' r H.
  destruct (inference_cases E image_path w) as [(Hcall & Hkey & Hsuffix & Hfile) | [e Hraise]].
  - rewrite Hcall in H. injection H as <- <-. split; [reflexivity |].
    right. repeat split; assumption.
  - rewrite Hraise in H. injection H as <- <-. split; [reflexivity |].
    left. split; reflexivity.
Qed.

Lemma inference_calls_at_most_once_witness :
  files (snd (inference_with_api Demo.configured Demo.page1 Demo.disk)) = files Demo.disk
  /\ ((remote_calls (snd (inference_with_api Demo.configured Demo.page1 Demo.disk))
       = remote_calls Demo.disk
       /\ is_Ok (fst (inference_with_api Demo.configured Demo.page1 Demo.disk)) = false)
      \/ (remote_calls (snd (inference_with_api Demo.configured Demo.page1 Demo.disk))
          = (remote_calls Demo.disk ++ [Detection Demo.page1])%list
          /\ fst (inference_with_api Demo.configured Demo.page1 Demo.disk)
             = detection_service Demo.configured Demo.page1
          /\ key_missing Demo.configured = false
          /\ existsb (Path.endswith Demo.page1) image_suffixes = true
          /\ path_exists Demo.page1 Demo.disk = true)).
Proof.
  apply (inference_calls_at_most_once Demo.configured Demo.page1 Demo.disk).
  apply surjective_pairing.
Defined.





(** ** What main returns, and what it leaves behind *)

Lemma save_image_cases (E : env) (img : picture) (output_path : string) (w : world) :
  save_image E img output_path w
  = (Ok output_path,
     {| files := <[output_path := ImageFile img]> (files w);
        remote_calls := remote_calls w |})
  \/ exists e, save_image E img output_path w = (Raise e, w).
Proof.
  unfold save_image, bind, makedirs_parent, image_save.
  destruct (write_failure E (Path.dirname output_path)); [right; eauto |].
  destruct (write_failure E output_path); [right; eauto | left; reflexivity].
Qed.

Lemma makedirs_cases (E : env) (dir : string) (w : world) :
  makedirs E dir w = (Ok tt, w) \/ exists e, makedirs E dir w = (Raise e, w).
Proof.
  unfold makedirs. destruct (String.eqb dir ""); [right; eauto |].
  destruct (write_failure E dir); [right; eauto | left; reflexivity].
Qed.

Lemma resolve_cases (E : env) (image_path : string) (output_path pdf_name : option string)
  (w : world) :
  (exists o, resolve_output_path E image_path pdf_name (output_path, w)
             = (Ok (output_path_of image_path output_path pdf_name), (o, w)))
  \/ exists e o, resolve_output_path E image_path pdf_name (output_path, w)
                 = (Raise e, (o, w)).
Proof.
  unfold resolve_output_path, output_path_of. cbn [fst snd].
  destruct output_path as [path |]; [left; eauto |].
  destruct (given pdf_name) as [name |]; [| left; eauto].
  destruct (makedirs_cases E (Path.join "outputs" name) w) as [H | [e H]];
    rewrite H; [left; eauto | right; eauto].
Qed.

Lemma main_except_cases (E : env) (image_path : string) (pdf_name : option string)
  (o : option string) (w : world) :
  exists e o', main_except E image_path pdf_name (o, w) = (Raise e, (o', w)).
Proof.
  unfold main_except, bind.
  destruct (resolve_cases E image_path o pdf_name w) as [[o' H] | (e & o' & H)];
    rewrite H; eauto.
Qed.

(** The [try] block of [main], step by step. *)
Lemma main_try_cases (E : env) (image_path : string) (output_path pdf_name : option string)
  (w : world) :
  (exists img ops o w',
      main_try E image_path pdf_name (output_path, w)
      = (Ok (output_path_of image_path output_path pdf_name), (o, w'))
      /\ files w !! image_path = Some (ImageFile img)
      /\ Forall upright ops
      /\ is_Ok (detection_service E image_path) = true
      /\ files w'
         = <[output_path_of image_path output_path pdf_name
             := ImageFile (add_ops img ops)]> (files w)
      /\ detections (remote_calls w')
         = (detections (remote_calls w) ++ [image_path])%list)
  \/ (exists e o w',
         main_try E image_path pdf_name (output_path, w) = (Raise e, (o, w'))
         /\ files w' = files w
         /\ asked_at_most_once image_path w w').
Proof.
  assert (Hnone : asked_at_most_once image_path w w) by (left; reflexivity).
  unfold main_try, bind, in_world, image_open, lift_result. cbn [fst snd].
  destruct (files w !! image_path) as [[img | pages] |] eqn:Hf;
    [| right; do 3 eexists; split; [reflexivity | split; [reflexivity | exact Hnone]] ..].
  destruct (pic_size img) as [width height] eqn:Hsize.
  destruct (smart_resize (libm_pow_half E) height width min_pixels max_pixels)
    as [[input_height input_width] | e];
    [| right; do 3 eexists; split; [reflexivity | split; [reflexivity | exact Hnone]]].
  cbn [fst snd].
  destruct (inference_cases E image_path w) as [(Hcall & _) | [e Hraise]];
    [| rewrite Hraise; right; do 3 eexists;
       split; [reflexivity | split; [reflexivity | exact Hnone]]].
  rewrite Hcall.
  set (w1 := {| files := files w;
                remote_calls := remote_calls w ++ [Detection image_path] |}).
  assert (Hasked : forall w2, grows w1 w2 -> asked_at_most_once image_path w w2).
  { intros w2 (_ & texts & Hcalls). right. rewrite Hcalls. subst w1. cbn [remote_calls].
    rewrite !detections_app, detections_translations, app_nil_r. reflexivity. }
  destruct (detection_service E image_path) as [response | e] eqn:Hdet.
  2:{ right. exists e, output_path, w1. split; [reflexivity |]. split; [reflexivity |].
      apply Hasked, grows_refl. }
  cbn [fst snd]. unfold display_markdown.
  destruct (display_failure E response (files w1 !! response)) as [e |].
  { right. exists e, output_path, w1. split; [reflexivity |]. split; [reflexivity |].
    apply Hasked, grows_refl. }
  cbn [fst snd].
  destruct (plot_careful E image_path response input_width input_height img w1 Hf)
    as (ops & w2 & Hplot & Hops & Hgrows).
  rewrite Hplot. cbn [fst snd].
  pose proof (Hasked w2 Hgrows) as Hw2. destruct Hgrows as (Hfiles & texts & Hcalls).
  destruct (resolve_cases E image_path output_path pdf_name w2)
    as [[o Hres] | (e & o & Hres)]; rewrite Hres;
    [| right; exists e, o, w2; split; [reflexivity | split; [exact Hfiles | exact Hw2]]].
  cbn [fst snd].
  destruct (save_image_cases E (add_ops img ops)
              (output_path_of image_path output_path pdf_name) w2)
    as [Hsave | [e Hsave]]; rewrite Hsave;
    [| right; exists e, o, w2; split; [reflexivity | split; [exact Hfiles | exact Hw2]]].
  subst w1. cbn [files remote_calls] in Hfiles, Hcalls.
  left. exists img, ops, o. eexists. split; [reflexivity |].
  split; [reflexivity |]. split; [exact Hops |]. split; [reflexivity |].
  cbn [files remote_calls]. split; [rewrite Hfiles; reflexivity |].
  rewrite Hcalls.
  rewrite !detections_app, detections_translations, app_nil_r. reflexivity.
Qed.

Lemma main_cases (E : env) (image_path : string) (output_path pdf_name : option string)
  (w : world) :
  (exists img ops w',
      main E image_path output_path pdf_name w
      = (Ok (output_path_of image_path output_path pdf_name), w')
      /\ files w !! image_path = Some (ImageFile img)
      /\ Forall upright ops
      /\ is_Ok (detection_service E image_path) = true
      /\ files w'
         = <[output_path_of image_path output_path pdf_name
             := ImageFile (add_ops img ops)]> (files w)
      /\ detections (remote_calls w')
         = (detections (remote_calls w) ++ [image_path])%list)
  \/ (exists e w',
         main E image_path output_path pdf_name w = (Raise e, w')
         /\ files w' = files w
         /\ asked_at_most_once image_path w w').
Proof.
  unfold main, try_except.
  destruct (main_try_cases E image_path output_path pdf_name w)
    as [(img & ops & o & w' & Htry & Hrest) | (e & o & w' & Htry & Hfiles)];
    rewrite Htry.
  - left. exists img, ops, w'. split; [reflexivity | exact Hrest].
  - right. cbn [any_exception].
    destruct (main_except_cases E image_path pdf_name o w') as (e' & o' & Hexc).
    rewrite Hexc. exists e', w'. split; [reflexivity | exact Hfiles].
Qed.

(** X15.  When [main] returns, it returns the output path it was given or
    the default one, and the file at that path is the page image with
    outlines and texts drawn on it, every other file being as before; the
    vision model was asked once, for this page, and answered.  When [main]
    raises, no file was written or changed, and the vision model was asked
    at most once. *)
Theorem main_returns_saved_page :
  forall (E : env) (image_path : string) (output_path pdf_name : option string)
         (w w' : world) (r : result string),
    main E image_path output_path pdf_name w = (r, w') ->
    match r with
    | Ok path =>
        path = output_path_of image_path output_path pdf_name
        /\ is_Ok (detection_service E image_path) = true
        /\ detections (remote_calls w')
           = (detections (remote_calls w) ++ [image_path])%list
        /\ exists img ops,
             files w !! image_path = Some (ImageFile img)
             /\ Forall upright ops
             /\ files w' = <[path := ImageFile (add_ops img ops)]> (files w)
    | Raise _ => files w' = files w /\ asked_at_most_once image_path w w'
    end.
Proof.
  intros E image_path output_path pdf_name w w' r H.
  destruct (main_cases E image_path output_path pdf_name w)
    as [(img & ops & w1 & Hmain & Hf & Hops & Hdet & Hfiles & Hcalls)
       | (e & w1 & Hmain & Hfiles)];
    rewrite Hmain in H; injection H as <- <-.
  - split; [reflexivity |]. split; [exact Hdet |]. split; [exact Hcalls |].
    exists img, ops. repeat split; assumption.
  - exact Hfiles.
Qed.

Lemma main_returns_saved_page_witness :
  exists w',
    main Demo.configured Demo.page1 None (Some "deck") Demo.disk
    = (Ok "outputs/deck/deck_page_1_translated.png", w')
    /\ exists img ops,
         files Demo.disk !! Demo.page1 = Some (ImageFile img)
         /\ Forall upright ops
         /\ files w'
            = <["outputs/deck/deck_page_1_translated.png" := ImageFile (add_ops img ops)]>
                (files Demo.disk).
Proof.
  eexists. split; [vm_compute; reflexivity |].
  apply (main_returns_saved_page Demo.configured Demo.page1 None (Some "deck") Demo.disk
           _ (Ok "outputs/deck/deck_page_1_translated.png")).
  vm_compute. reflexivity.
Defined.

(** ** The names of the page images *)

Lemma digit_run_boundary (d1 d2 s1 s2 : string) :
  Str.all Char.re_digit d1 = true ->
  Str.all Char.re_digit d2 = true ->
  starts_with_digit s1 = false ->
  starts_with_digit s2 = false ->
  d1 ++ s1 = d2 ++ s2 ->
  d1 = d2 /\ s1 = s2.
Proof.
  revert d2. induction d1 as [| c d1 IH]; intros d2 H1 H2 Hs1 Hs2 Heq.
  - destruct d2 as [| c d2]; [split; [reflexivity | exact Heq] |].
    change ("" ++ s1) with s1 in Heq.
    change (String c d2 ++ s2) with (String c (d2 ++ s2)) in Heq.
    subst s1. cbn [starts_with_digit] in Hs1. cbn [Str.all] in H2.
    rewrite Hs1 in H2. discriminate H2.
  - destruct d2 as [| c' d2].
    + change ("" ++ s2) with s2 in Heq.
      change (String c d1 ++ s1) with (String c (d1 ++ s1)) in Heq.
      subst s2. cbn [starts_with_digit] in Hs2. cbn [Str.all] in H1.
      rewrite Hs2 in H1. discriminate H1.
    + change (String c d1 ++ s1) with (String c (d1 ++ s1)) in Heq.
      change (String c' d2 ++ s2) with (String c' (d2 ++ s2)) in Heq.
      injection Heq as <- Heq.
      cbn [Str.all] in H1, H2.
      apply andb_true_iff in H1 as [_ H1]. apply andb_true_iff in H2 as [_ H2].
      destruct (IH d2 H1 H2 Hs1 Hs2 Heq) as [-> ->]. split; reflexivity.
Qed.

Lemma decimal_digits (n : nat) : Str.all Char.re_digit (decimal n) = true.
Proof. apply uint_digits. Qed.

Lemma decimal_inj (m n : nat) : decimal m = decimal n -> m = n.
Proof.
  unfold decimal. intros H.
  apply Unsigned.to_uint_inj.
  pose proof (NilEmpty.usu (Nat.to_uint m)) as Hm.
  pose proof (NilEmpty.usu (Nat.to_uint n)) as Hn.
  rewrite H in Hm. rewrite Hm in Hn. injection Hn as Hn. exact Hn.
Qed.

(** Two numbered names with the same text before the number are equal
    only if the numbers and the texts after them are. *)
Lemma numbered_inj (before after1 after2 : string) (m n : nat) :
  starts_with_digit after1 = false ->
  starts_with_digit after2 = false ->
  numbered before m after1 = numbered before n after2 ->
  m = n /\ after1 = after2.
Proof.
  intros H1 H2 Heq. unfold numbered in Heq.
  apply string_app_inv_head in Heq.
  destruct (digit_run_boundary _ _ _ _ (decimal_digits m) (decimal_digits n) H1 H2 Heq)
    as [Hd Hs].
  split; [apply decimal_inj, Hd | exact Hs].
Qed.

Lemma starts_with_slash_app (b c : string) :
  b <> "" -> starts_with_slash (b ++ c) = starts_with_slash b.
Proof. destruct b; [contradiction | reflexivity]. Qed.

Lemma join_app (a b c : string) :
  b <> "" -> Path.join a (b ++ c) = Path.join a b ++ c.
Proof.
  intros Hb. rewrite !join_spec, (starts_with_slash_app b c Hb).
  destruct (starts_with_slash b); [reflexivity |].
  destruct a as [| x a]; [reflexivity |].
  destruct (ends_with_slash (String x a)); rewrite !string_app_assoc; reflexivity.
Qed.

Lemma app_nonempty (a : string) (c : ascii) (b : string) : a ++ String c b <> "".
Proof. destruct a; discriminate. Qed.

(** The image of a page has a numbered name: the directory and the name
    of the document, the number of the page, and the extension. *)
Lemma page_path_numbered (output_dir pdf_filename : string) (i : nat) :
  page_path output_dir pdf_filename i
  = numbered (Path.join output_dir (pdf_filename ++ "_page_")) (i + 1) ".png".
Proof.
  unfold page_path, page_image_name, numbered.
  rewrite <- (string_app_assoc pdf_filename "_page_").
  apply join_app, app_nonempty.
Qed.

Lemma page_path_inj (output_dir pdf_filename : string) (i j : nat) :
  page_path output_dir pdf_filename i = page_path output_dir pdf_filename j -> i = j.
Proof.
  rewrite !page_path_numbered. intros H.
  apply numbered_inj in H as [H _]; [lia | reflexivity ..].
Qed.

Lemma page_paths_nodup (output_dir pdf_filename : string) (first n : nat) :
  NoDup (page_paths output_dir pdf_filename first n).
Proof.
  unfold page_paths. apply NoDup_fmap_2; [| apply NoDup_seq].
  intros i j. apply page_path_inj.
Qed.

(** ** convert_pdf_to_images *)

Lemma save_pages_ok (E : env) (pdf_filename output_dir : string) :
  writable E ->
  forall (pages : list picture) (first : nat) (w : world),
  exists w',
    save_pages E pdf_filename output_dir first pages w
    = (Ok (page_paths output_dir pdf_filename first (List.length pages)), w')
    /\ remote_calls w' = remote_calls w
    /\ (forall i page,
          pages !! i = Some page ->
          files w' !! page_path output_dir pdf_filename (first + i)
          = Some (ImageFile page))
    /\ (forall q,
          ~ In q (page_paths output_dir pdf_filename first (List.length pages)) ->
          files w' !! q = files w !! q).
Proof.
  intros Hw pages. induction pages as [| pix pages IH]; intros first w.
  - exists w. split; [reflexivity |]. split; [reflexivity |].
    split; [intros [| i] page H; discriminate H | reflexivity].
  - cbn [save_pages]. unfold bind, image_save. rewrite Hw.
    fold (page_path output_dir pdf_filename first).
    set (w1 := {| files := <[page_path output_dir pdf_filename first := ImageFile pix]>
                             (files w);
                  remote_calls := remote_calls w |}).
    destruct (IH (S first) w1) as (w' & Hrun & Hcalls & Hpages & Hother).
    exists w'. rewrite Hrun. split; [reflexivity |]. split; [exact Hcalls |]. split.
    + intros [| i] page Hpage.
      * injection Hpage as <-. rewrite Nat.add_0_r, Hother.
        -- apply lookup_insert_eq.
        -- unfold page_paths. rewrite in_map_iff. intros (j & Heq & Hin).
           apply page_path_inj in Heq. apply in_seq in Hin. lia.
      * replace (first + S i)%nat with (S first + i)%nat by lia.
        apply Hpages, Hpage.
    + intros q Hq. cbn [List.length page_paths seq List.map] in Hq.
      rewrite Hother.
      * subst w1. cbn [files]. apply lookup_insert_ne.
        intros Heq. apply Hq. left. exact Heq.
      * intros Hin. apply Hq. right. exact Hin.
Qed.

(** X16.  [convert_pdf_to_images] raises when the document does not
    exist, and when the output directory is the empty name, which
    [os.makedirs] refuses.  Otherwise, when nothing fails to be written, it
    writes one image per page, named after the document and the number of
    the page, counted from 1: the paths it returns are those names in page
    order, no two the same, each file holds its page, no other file is
    touched and no service is called. *)
Theorem convert_pdf_to_images_writes_pages :
  forall (E : env) (pdf_path output_dir : string) (w : world),
    writable E ->
    (files w !! pdf_path = None ->
     convert_pdf_to_images E pdf_path output_dir w = (Raise OSError, w))
    /\ (forall pages,
          files w !! pdf_path = Some (PdfFile pages) ->
          (output_dir = "" ->
           convert_pdf_to_images E pdf_path output_dir w = (Raise OSError, w))
          /\ (output_dir <> "" ->
              let paths := page_paths output_dir (stem pdf_path) 0 (List.length pages) in
              exists w',
                convert_pdf_to_images E pdf_path output_dir w = (Ok paths, w')
                /\ NoDup paths
                /\ Forall2 (fun path page => files w' !! path = Some (ImageFile page))
                     paths pages
                /\ (forall q, ~ In q paths -> files w' !! q = files w !! q)
                /\ remote_calls w' = remote_calls w)).
Proof.
  intros E pdf_path output_dir w Hw. split.
  - intros Hf. unfold convert_pdf_to_images. rewrite Hf. reflexivity.
  - intros pages Hf. split.
    { intros ->. unfold convert_pdf_to_images. rewrite Hf. reflexivity. }
    intros Hdir paths.
    destruct (save_pages_ok E (stem pdf_path) output_dir Hw pages 0 w)
      as (w' & Hrun & Hcalls & Hpages & Hother).
    exists w'. split; [| split; [| split; [| split]]].
    + unfold convert_pdf_to_images. rewrite Hf.
      unfold bind. rewrite (makedirs_ok E output_dir w Hdir (Hw _)). exact Hrun.
    + apply page_paths_nodup.
    + apply Forall2_same_length_lookup_2.
      * unfold paths, page_paths. rewrite length_map, length_seq. reflexivity.
      * intros i path page Hpath Hpage.
        unfold paths, page_paths in Hpath.
        rewrite list_lookup_fmap in Hpath.
        destruct (seq 0 (List.length pages) !! i) as [j |] eqn:Hj; [| discriminate Hpath].
        apply lookup_seq in Hj as [-> _].
        injection Hpath as <-. apply (Hpages i page Hpage).
    + exact Hother.
    + exact Hcalls.
Qed.

Lemma convert_pdf_to_images_writes_pages_witness :
  exists w',
    convert_pdf_to_images Appendix.silent Office.document "imgs/deck" Office.disk
    = (Ok ["imgs/deck/deck_page_1.png"; "imgs/deck/deck_page_2.png"], w')
    /\ remote_calls w' = [].
Proof.
  destruct (convert_pdf_to_images_writes_pages Appendix.silent Office.document "imgs/deck"
              Office.disk) as [_ Hpages].
  - intros path. reflexivity.
  - destruct (Hpages [ {| pic_raster := "deck#1"; pic_size := (1000, 800);
                          pic_drawn := [] |};
                       {| pic_raster := "deck#2"; pic_size := (1000, 800);
                          pic_drawn := [] |} ] eq_refl)
      as [_ Hwritten].
    destruct Hwritten as (w' & Hrun & _ & _ & _ & Hcalls); [discriminate |].
    exists w'. split; [exact Hrun | exact Hcalls].
Defined.

(** ** The page images in natural order *)

Lemma ends_with_digit_snoc (s : string) (c : ascii) :
  ends_with_digit (s ++ String c "") = Char.re_digit c.
Proof.
  induction s as [| x s IH]; [reflexivity |].
  change (String x s ++ String c "") with (String x (s ++ String c "")).
  cbn [ends_with_digit]. rewrite IH.
  destruct (s ++ String c "") eqn:Hs; [| reflexivity].
  destruct s; discriminate Hs.
Qed.

Lemma plain_app (a b : string) : plain (a ++ b) = plain a && plain b.
Proof. apply all_app. Qed.

Lemma plain_join (a b : string) :
  plain a = true -> plain b = true -> plain (Path.join a b) = true.
Proof.
  intros Ha Hb. rewrite join_spec.
  destruct (starts_with_slash b); [exact Hb |].
  destruct a as [| x a]; [exact Hb |].
  destruct (ends_with_slash (String x a)); rewrite !plain_app, Ha, Hb; reflexivity.
Qed.

(** The parts of a short numbered name are short. *)
Lemma short_numbered (before after : string) (n : nat) :
  short (numbered before n after) ->
  short before /\ short (decimal n) /\ short after.
Proof.
  unfold short, numbered. rewrite !length_app. lia.
Qed.

Lemma numbered_has_key (before after : string) (n : nat) :
  ends_with_digit before = false ->
  starts_with_digit after = false ->
  has_key before -> has_key after ->
  short (decimal n) ->
  has_key (numbered before n after).
Proof.
  intros Hb Ha Hkb Hka Hshort. unfold has_key in *.
  destruct (natural_sort_key before) as [kb |] eqn:Hbefore; [| discriminate Hkb].
  destruct (natural_sort_key after) as [ka |] eqn:Hafter; [| discriminate Hka].
  rewrite (natural_sort_key_numbered before after n kb ka Hb Ha Hbefore Hafter Hshort).
  reflexivity.
Qed.

Lemma numbered_key_ltb (before after : string) (m n : nat) (km kn : list key_elem) :
  ends_with_digit before = false ->
  starts_with_digit after = false ->
  has_key before -> has_key after ->
  short (decimal m) -> short (decimal n) ->
  natural_sort_key (numbered before m after) = Ok km ->
  natural_sort_key (numbered before n after) = Ok kn ->
  key_ltb km kn = (m <? n)%nat.
Proof.
  intros Hb Ha Hkb Hka Hsm Hsn Hm Hn. unfold has_key in *.
  destruct (natural_sort_key before) as [kb |] eqn:Hbefore; [| discriminate Hkb].
  destruct (natural_sort_key after) as [ka |] eqn:Hafter; [| discriminate Hka].
  rewrite (natural_sort_key_numbered before after m kb ka Hb Ha Hbefore Hafter Hsm) in Hm.
  rewrite (natural_sort_key_numbered before after n kb ka Hb Ha Hbefore Hafter Hsn) in Hn.
  injection Hm as <-. injection Hn as <-.
  rewrite key_ltb_common_prefix. apply key_ltb_numbers.
Qed.

Lemma has_key_some (p : string) : has_key p -> exists k, natural_sort_key p = Ok k.
Proof.
  unfold has_key. destruct (natural_sort_key p) as [k |]; [eauto | discriminate].
Qed.

(** Between two names that differ in one number, [natural_le] is the
    order of the numbers. *)
Lemma natural_le_numbered (before after : string) (m n : nat) :
  ends_with_digit before = false ->
  starts_with_digit after = false ->
  has_key before -> has_key after ->
  short (decimal m) -> short (decimal n) ->
  natural_le (numbered before m after) (numbered before n after) <-> (m <= n)%nat.
Proof.
  intros Hb Ha Hkb Hka Hsm Hsn.
  destruct (has_key_some _ (numbered_has_key before after m Hb Ha Hkb Hka Hsm)) as [km Hm].
  destruct (has_key_some _ (numbered_has_key before after n Hb Ha Hkb Hka Hsn)) as [kn Hn].
  pose proof (numbered_key_ltb before after n m kn km Hb Ha Hkb Hka Hsn Hsm Hn Hm) as Hlt.
  unfold natural_le. split.
  - intros (km' & kn' & Hm' & Hn' & Hle).
    rewrite Hm in Hm'. rewrite Hn in Hn'. injection Hm' as <-. injection Hn' as <-.
    rewrite Hlt in Hle. apply Nat.ltb_ge in Hle. exact Hle.
  - intros Hle. exists km, kn. split; [exact Hm |]. split; [exact Hn |].
    rewrite Hlt. apply Nat.ltb_ge. exact Hle.
Qed.

Lemma numbered_sorted (before after : string) (first n : nat) :
  ends_with_digit before = false ->
  starts_with_digit after = false ->
  has_key before -> has_key after ->
  (forall i, In i (seq first n) -> short (decimal (i + 1))) ->
  StronglySorted natural_le
    (List.map (fun i => numbered before (i + 1) after) (seq first n)).
Proof.
  intros Hb Ha Hkb Hka. revert first.
  induction n as [| n IH]; intros first Hshort; [constructor |].
  cbn [seq List.map]. constructor.
  - apply IH. intros i Hi. apply Hshort. right. exact Hi.
  - apply List.Forall_forall. intros q Hq.
    apply in_map_iff in Hq as (j & <- & Hj).
    apply natural_le_numbered;
      [assumption .. | apply Hshort; left; reflexivity
      | apply Hshort; right; exact Hj | apply in_seq in Hj; lia].
Qed.

(** Two sorted lists with the same elements are equal, when no two
    different elements are each below the other. *)
Lemma sorted_unique {A} (R : A -> A -> Prop) (l1 : list A) :
  forall l2,
    (forall a b, In a l1 -> In b l1 -> R a b -> R b a -> a = b) ->
    StronglySorted R l1 -> StronglySorted R l2 -> Permutation l1 l2 ->
    l1 = l2.
Proof.
  induction l1 as [| a l1 IH]; intros l2 Hanti H1 H2 Hperm.
  - apply Permutation_nil in Hperm. symmetry. exact Hperm.
  - destruct l2 as [| b l2].
    + apply Permutation_sym, Permutation_nil in Hperm. discriminate Hperm.
    + inversion H1 as [| ? ? Hs1 Hall1]; subst.
      inversion H2 as [| ? ? Hs2 Hall2]; subst.
      assert (Hab : a = b).
      { assert (Ha : In a (b :: l2))
          by (apply (Permutation_in _ Hperm); left; reflexivity).
        assert (Hb : In b (a :: l1))
          by (apply (Permutation_in _ (Permutation_sym Hperm)); left; reflexivity).
        destruct Ha as [Ha | Ha]; [symmetry; exact Ha |].
        destruct Hb as [Hb | Hb]; [exact Hb |].
        apply Hanti; [left; reflexivity | right; exact Hb | |].
        - rewrite List.Forall_forall in Hall1. apply Hall1, Hb.
        - rewrite List.Forall_forall in Hall2. apply Hall2, Ha. }
      subst b. f_equal.
      apply IH; [| assumption | assumption | apply (Permutation_cons_inv Hperm)].
      intros x y Hx Hy. apply Hanti; right; assumption.
Qed.

Lemma sorted_natural_numbered (before after : string) (first n : nat)
  (listed : list string) :
  ends_with_digit before = false ->
  starts_with_digit after = false ->
  has_key before -> has_key after ->
  (forall i, In i (seq first n) -> short (decimal (i + 1))) ->
  Permutation listed
    (List.map (fun i => numbered before (i + 1) after) (seq first n)) ->
  sorted_natural listed
  = Ok (List.map (fun i => numbered before (i + 1) after) (seq first n)).
Proof.
  intros Hb Ha Hkb Hka Hshort Hperm.
  set (names := List.map (fun i => numbered before (i + 1) after) (seq first n)) in *.
  assert (Hkeys : Forall has_key names).
  { apply List.Forall_forall. intros q Hq. apply in_map_iff in Hq as (j & <- & Hj).
    apply numbered_has_key; try assumption. apply Hshort, Hj. }
  assert (Hlisted : Forall has_key listed)
    by (apply (Permutation_Forall (Permutation_sym Hperm)), Hkeys).
  destruct (sorted_natural_sorts listed Hlisted) as (ordered & Hs & Hp & Hsorted).
  rewrite Hs. f_equal.
  apply (sorted_unique natural_le); [| exact Hsorted | |].
  - intros a b Hina Hinb Hab Hba.
    apply (Permutation_in _ (Permutation_sym Hp)), (Permutation_in _ Hperm) in Hina, Hinb.
    apply in_map_iff in Hina as (i & <- & Hi). apply in_map_iff in Hinb as (j & <- & Hj).
    apply natural_le_numbered in Hab, Hba; try assumption; try (apply Hshort; assumption).
    replace j with i by lia. reflexivity.
  - apply numbered_sorted; assumption.
  - apply (Permutation_trans (Permutation_sym Hp) Hperm).
Qed.

Lemma page_prefix_ok (output_dir pdf_filename : string) :
  plain output_dir = true -> plain pdf_filename = true ->
  short (Path.join output_dir (pdf_filename ++ "_page_")) ->
  ends_with_digit (Path.join output_dir (pdf_filename ++ "_page_")) = false
  /\ has_key (Path.join output_dir (pdf_filename ++ "_page_")).
Proof.
  intros Hd Hn Hshort. split.
  - change "_page_" with ("_page" ++ "_").
    rewrite <- string_app_assoc, join_app by apply app_nonempty.
    apply ends_with_digit_snoc.
  - apply natural_sort_key_defined; [| exact Hshort].
    apply plain_join; [exact Hd |].
    rewrite plain_app, Hn. reflexivity.
Qed.

(** Names of numbered files under one prefix, all of them short: the
    prefix is short, and so is every number. *)
Lemma short_numbered_names (before after : string) (first n : nat) :
  Forall short (List.map (fun i => numbered before (i + 1) after) (seq first n)) ->
  (n <> 0)%nat ->
  short before
  /\ forall i, In i (seq first n) -> short (decimal (i + 1)).
Proof.
  intros Hshort Hn. split.
  - destruct n as [| n]; [contradiction |].
    cbn [seq List.map] in Hshort. inversion Hshort as [| ? ? Hfirst _]; subst.
    apply (short_numbered _ _ _ Hfirst).
  - intros i Hi. rewrite List.Forall_forall in Hshort.
    apply (short_numbered before after (i + 1)), Hshort.
    apply in_map_iff. exists i. split; [reflexivity | exact Hi].
Qed.

Lemma page_paths_numbered (output_dir pdf_filename : string) (first n : nat) :
  page_paths output_dir pdf_filename first n
  = List.map (fun i => numbered (Path.join output_dir (pdf_filename ++ "_page_"))
                         (i + 1) ".png") (seq first n).
Proof.
  unfold page_paths. apply map_ext. intros i. apply page_path_numbered.
Qed.

Lemma page_images_sorted (output_dir pdf_filename : string) (n : nat)
  (listed : list string) :
  plain output_dir = true ->
  plain pdf_filename = true ->
  Forall short (page_paths output_dir pdf_filename 0 n) ->
  Permutation listed (page_paths output_dir pdf_filename 0 n) ->
  sorted_natural listed = Ok (page_paths output_dir pdf_filename 0 n).
Proof.
  intros Hd Hn Hshort Hperm.
  destruct n as [| n].
  { apply Permutation_sym, Permutation_nil in Hperm. subst listed. reflexivity. }
  rewrite page_paths_numbered in *.
  destruct (short_numbered_names _ _ _ _ Hshort) as [Hprefix Hnumbers]; [discriminate |].
  destruct (page_prefix_ok output_dir pdf_filename Hd Hn Hprefix) as [Hend Hkey].
  apply sorted_natural_numbered; try assumption; reflexivity.
Qed.

(** X17.  In whatever order the images of the pages of a document are
    listed, sorting them by natural key returns them in page order: page 2
    before page 10, for any number of pages whose paths keep within the
    4300 characters that [int] takes as digits. *)
Theorem page_images_sort_in_page_order :
  forall (output_dir pdf_filename : string) (n : nat) (listed : list string),
    plain output_dir = true ->
    plain pdf_filename = true ->
    Forall short listed ->
    Permutation listed (page_paths output_dir pdf_filename 0 n) ->
    sorted_natural listed = Ok (page_paths output_dir pdf_filename 0 n).
Proof.
  intros output_dir pdf_filename n listed Hd Hn Hshort Hperm.
  apply page_images_sorted; try assumption.
  apply (Permutation_Forall Hperm), Hshort.
Qed.

Lemma page_images_sort_in_page_order_witness :
  sorted_natural (page_path "imgs/deck" "deck" 9
                  :: page_paths "imgs/deck" "deck" 0 9
                     ++ page_paths "imgs/deck" "deck" 10 1)
  = Ok (page_paths "imgs/deck" "deck" 0 11).
Proof.
  apply (page_images_sort_in_page_order "imgs/deck" "deck" 11).
  - reflexivity.
  - reflexivity.
  - repeat (apply List.Forall_cons; [shortness |]). apply List.Forall_nil.
  - exact (Permutation_middle (page_paths "imgs/deck" "deck" 0 9)
             (page_paths "imgs/deck" "deck" 10 1) (page_path "imgs/deck" "deck" 9)).
Defined.

(** ** The pages of a document through batch_process_images *)



















(** ** images_to_pdf *)






(** X20.  The size of the first page is read from the first image in
    natural order without a test that it exists: when there is no file at
    that path, [images_to_pdf] raises and writes no document. *)
Theorem images_to_pdf_first_image_missing :
  forall (E : env) (image_paths : list string) (output_pdf_path : string)
         (first : string) (rest : list string) (w : world),
    write_failure E (Path.dirname output_pdf_path) = None ->
    sorted_natural image_paths = Ok (first :: rest) ->
    files w !! first = None ->
    images_to_pdf E image_paths output_pdf_path w = (Raise OSError, w).
Proof.
  intros E image_paths output_pdf_path first rest w Hw Hsorted Hfirst.
  unfold images_to_pdf, bind, lift_result, makedirs.
  destruct (String.eqb (Path.dirname output_pdf_path) ""); [reflexivity |].
  rewrite Hw, Hsorted.
  unfold image_open at 1. rewrite Hfirst. reflexivity.
Qed.

Lemma images_to_pdf_first_image_missing_witness :
  images_to_pdf Appendix.silent
    [ "imgs/deck/deck_page_2.png"; "imgs/deck/deck_page_0.png" ]
    "outputs/deck/deck.pdf" Deck.disk
  = (Raise OSError, Deck.disk).
Proof.
  apply (images_to_pdf_first_image_missing Appendix.silent
           [ "imgs/deck/deck_page_2.png"; "imgs/deck/deck_page_0.png" ]
           "outputs/deck/deck.pdf" "imgs/deck/deck_page_0.png"
           [ "imgs/deck/deck_page_2.png" ] Deck.disk).
  - reflexivity.
  - vm_compute. reflexivity.
  - vm_compute. reflexivity.
Defined.

(** ** A document through the command line *)



















(** ** What batch_process_images returns, and when it stops *)

Lemma sorted_natural_perm (l r : list string) :
  sorted_natural l = Ok r -> Permutation l r.
Proof.
  intros H.
  destruct (sorted_natural_sorts l (sorted_natural_has_keys l r H)) as (r' & Hs & Hp & _).
  rewrite H in Hs. injection Hs as <-. exact Hp.
Qed.

Lemma process_pages_sound (E : env) (pdf_name : option string) (pages : list string) :
  forall (w w' : world) (outs : list string),
    process_pages E pdf_name pages w = (Ok outs, w') ->
    outs = List.map (output_of pdf_name) pages
    /\ Forall (fun p => is_Ok (detection_service E p) = true) pages
    /\ detections (remote_calls w') = (detections (remote_calls w) ++ pages)%list.
Proof.
  induction pages as [| p pages IH]; intros w w' outs H.
  - cbn [process_pages] in H. injection H as <- <-.
    rewrite app_nil_r. repeat split. constructor.
  - cbn [process_pages] in H. unfold bind in H.
    destruct (main_cases E p None pdf_name w)
      as [(img & ops & w1 & Hmain & _ & _ & Hdet & _ & Hcalls) | (e & w1 & Hmain & _)];
      rewrite Hmain in H; [| discriminate H].
    destruct (process_pages E pdf_name pages w1) as [[outs' | e] w2] eqn:Hrest;
      [| discriminate H].
    injection H as <- <-.
    destruct (IH w1 w2 outs' Hrest) as (-> & Hall & Hcalls').
    split; [reflexivity |]. split; [constructor; assumption |].
    rewrite Hcalls', Hcalls, <- app_assoc. reflexivity.
Qed.

Lemma batch_after_makedirs (E : env) (image_paths : list string)
  (pdf_name : option string) (output_dir : string) (w w' : world) (outs : list string) :
  batch_process_images E image_paths pdf_name output_dir w = (Ok outs, w') ->
  (ordered <~ lift_result (sorted_natural image_paths) ;;
   translated_paths <~ process_pages E pdf_name ordered ;;
   lift_result (sorted_natural translated_paths))%st w = (Ok outs, w').
Proof.
  unfold batch_process_images. unfold bind at 1.
  destruct (given pdf_name) as [name |].
  - destruct (makedirs_cases E (Path.join output_dir name) w) as [H | [e H]];
      rewrite H; [exact (fun H => H) | discriminate].
  - exact (fun H => H).
Qed.


(** X22.  When [batch_process_images] returns, the vision model has
    answered for every page, it was asked for the pages in natural order,
    and the paths returned are the default output paths of the pages, sorted:
    the directory passed as [output_dir] is created and has no part in
    them. *)
Theorem batch_returns_default_outputs :
  forall (E : env) (image_paths : list string) (pdf_name : option string)
         (output_dir : string) (w w' : world) (outs : list string),
    batch_process_images E image_paths pdf_name output_dir w = (Ok outs, w') ->
    exists ordered,
      sorted_natural image_paths = Ok ordered
      /\ Permutation image_paths ordered
      /\ Permutation (List.map (output_of pdf_name) ordered) outs
      /\ sorted_natural outs = Ok outs
      /\ Forall (fun p => is_Ok (detection_service E p) = true) image_paths
      /\ detections (remote_calls w') = (detections (remote_calls w) ++ ordered)%list.
Proof.
  intros E image_paths pdf_name output_dir w w' outs H.
  apply batch_after_makedirs in H. unfold bind, lift_result in H.
  destruct (sorted_natural image_paths) as [ordered | e] eqn:Hsorted; [| discriminate H].
  destruct (process_pages E pdf_name ordered w) as [[outs0 | e] w1] eqn:Hrun;
    [| discriminate H].
  destruct (sorted_natural outs0) as [outs1 | e] eqn:Hout; [| discriminate H].
  injection H as <- <-.
  destruct (process_pages_sound E pdf_name ordered w w1 outs0 Hrun) as (-> & Hall & Hcalls).
  pose proof (sorted_natural_perm _ _ Hsorted) as Hperm.
  exists ordered. split; [reflexivity |]. split; [exact Hperm |].
  split; [apply sorted_natural_perm, Hout |].
  split; [apply (sorting_again_keeps_order _ _ Hout) |].
  split; [apply (Permutation_Forall (Permutation_sym Hperm)), Hall | exact Hcalls].
Qed.

Lemma batch_returns_default_outputs_witness :
  exists ordered,
    sorted_natural Deck.shuffled = Ok ordered
    /\ Permutation Deck.shuffled ordered
    /\ Permutation (List.map (output_of (Some "deck")) ordered)
         (List.map (output_of (Some "deck")) Deck.in_page_order)
    /\ sorted_natural (List.map (output_of (Some "deck")) Deck.in_page_order)
       = Ok (List.map (output_of (Some "deck")) Deck.in_page_order)
    /\ Forall (fun p => is_Ok (detection_service Appendix.silent p) = true) Deck.shuffled.
Proof.
  destruct (batch_returns_default_outputs Appendix.silent Deck.shuffled (Some "deck")
              "elsewhere" Deck.disk
              (snd (batch_process_images Appendix.silent Deck.shuffled (Some "deck")
                      "elsewhere" Deck.disk))
              (List.map (output_of (Some "deck")) Deck.in_page_order))
    as (ordered & H1 & H2 & H3 & H4 & H5 & _).
  - vm_compute. reflexivity.
  - exists ordered. repeat split; assumption.
Defined.





(** ** A page that fails, seen from the command line *)





